(** * hydroDL2 HBV models: implicit Newton/adjoint engine and explicit stepper

    A shallow embedding of
      - [src/hydroDL2/models/hbv/hbv_adj.py]  (HBV_adj, NewtonSolve, MOL), and
      - [src/hydroDL2/models/hbv/hbv_1_1p.py] (HBVCapillary),
    followed by the properties proved about them.

    Conventions of the embedding.
      - A Python call that may raise returns [result]; exceptions are values of
        [exn].  A [while] loop is run with fuel: [None] means the fuel ran out.
      - Tensor entries of the Newton/adjoint code are an abstract [Scalar]: the
        arithmetic is left uninterpreted, so what is proved about control flow
        and data flow holds for every interpretation of [+], [/], [max], [>] ...
        (exact rationals and floating point alike).
      - The explicit stepper is modelled over exact rationals [Q]; rounding is
        outside the model.  Whole-tensor elementwise arithmetic over
        [n_grid x nmul] is written per cell and mapped over the grid.
      - torch primitives whose code is not part of the repository
        (autograd, [torch.linalg.solve], [torch.bernoulli], [sigmoid], [**])
        and the repository functions that are not among the sources
        ([batchJacobian], [UH_gamma], [UH_conv]) are Section variables. *)

From Stdlib Require Import List ZArith QArith Qabs Qcanon Qminmax Lia Lqa String Bool Arith.
Import ListNotations.

Set Implicit Arguments.

(* ================================================================== *)
(** ** Python results and exceptions *)

Module Py.

Inductive exn : Type :=
| RuntimeError (msg : string)
| UnboundLocalError (var : string)
| TypeError (msg : string)
| AttributeError (msg : string)
| IndexError
| ValueError (msg : string)
| KeyError (key : string)
| LinAlgError.

Inductive result (A : Type) : Type :=
| Ok (a : A)
| Raise (e : exn).

Arguments Ok {A} a.
Arguments Raise {A} e.

Definition bind {A B : Type} (r : result A) (k : A -> result B) : result B :=
  match r with
  | Ok a => k a
  | Raise e => Raise e
  end.

Definition raises {A : Type} (r : result A) : Prop := exists e, r = Raise e.

(** [seq[i]] for a Python integer index: negative indices count from the end,
    an index outside the sequence raises IndexError. *)
Definition py_index {A : Type} (l : list A) (i : Z) : result A :=
  let n := Z.of_nat (List.length l) in
  let j := if (i <? 0)%Z then (i + n)%Z else i in
  if ((0 <=? j)%Z && (j <? n)%Z)%bool
  then match nth_error l (Z.to_nat j) with
       | Some a => Ok a
       | None => Raise IndexError
       end
  else Raise IndexError.

(** [seq[i:]] for a non-negative start: never raises. *)
Definition py_slice_from {A : Type} (l : list A) (i : nat) : list A := skipn i l.

(** [seq[:i]] for a non-negative stop: never raises. *)
Definition py_slice_to {A : Type} (l : list A) (i : nat) : list A := firstn i l.

(** [names.index(x)]: position of the first occurrence, ValueError if absent. *)
Fixpoint list_index (x : string) (names : list string) : result nat :=
  match names with
  | [] => Raise (ValueError x)
  | y :: ys => if String.eqb x y then Ok 0%nat
               else bind (list_index x ys) (fun k => Ok (S k))
  end.

(** [x in names]. *)
Definition mem (x : string) (names : list string) : bool :=
  existsb (String.eqb x) names.

(** [d[key]] on a dictionary kept as an association list (insertion order). *)
Fixpoint dict_get {V : Type} (d : list (string * V)) (key : string) : result V :=
  match d with
  | [] => Raise (KeyError key)
  | (k, v) :: d' => if String.eqb key k then Ok v else dict_get d' key
  end.

(** [d[key] = v]: overwrite in place when present, append otherwise. *)
Fixpoint dict_set {V : Type} (d : list (string * V)) (key : string) (v : V)
  : list (string * V) :=
  match d with
  | [] => [(key, v)]
  | (k, w) :: d' => if String.eqb key k then (k, v) :: d'
                    else (k, w) :: dict_set d' key v
  end.

(** A checked zip: the two sequences must have the same length. *)
Fixpoint zipWith {A B C : Type} (f : A -> B -> result C)
         (l1 : list A) (l2 : list B) : result (list C) :=
  match l1, l2 with
  | [], [] => Ok []
  | a :: l1', b :: l2' =>
      bind (f a b) (fun c => bind (zipWith f l1' l2') (fun cs => Ok (c :: cs)))
  | _, _ => Raise (RuntimeError "size mismatch")
  end.

(** Run a fallible function over a list, left to right. *)
Fixpoint mapM {A B : Type} (f : A -> result B) (l : list A) : result (list B) :=
  match l with
  | [] => Ok []
  | a :: l' => bind (f a) (fun b => bind (mapM f l') (fun bs => Ok (b :: bs)))
  end.

(** [while cond: body] with fuel; [None] when the fuel is used up. *)
Fixpoint while_loop {S : Type} (fuel : nat) (cond : S -> result bool)
         (body : S -> result S) (s : S) : option (result S) :=
  match fuel with
  | O => None
  | Datatypes.S fuel' =>
      match cond s with
      | Raise e => Some (Raise e)
      | Ok false => Some (Ok s)
      | Ok true =>
          match body s with
          | Raise e => Some (Raise e)
          | Ok s' => while_loop fuel' cond body s'
          end
      end
  end.

End Py.

Import Py.

Declare Scope py_scope.
Delimit Scope py_scope with py.
Notation "x <- e ;; k" := (bind e (fun x => k))
  (at level 61, e at next level, right associativity) : py_scope.
Notation "e1 ;;; e2" := (bind e1 (fun _ => e2))
  (at level 61, right associativity) : py_scope.
Open Scope py_scope.

(* ================================================================== *)
(** ** Tensors of the Newton / adjoint code *)

Module Torch.

(** Tensor entries.  Only operations are given, no laws: a statement proved
    for every [Scalar] holds whatever the arithmetic does (rounding, NaN). *)
Class Scalar (F : Type) : Type := {
  f0 : F;
  f1 : F;
  fadd : F -> F -> F;
  fsub : F -> F -> F;
  fmul : F -> F -> F;
  fdiv : F -> F -> F;
  fneg : F -> F;
  fabs : F -> F;
  fmax : F -> F -> F;
  fmin : F -> F -> F;
  fgtb : F -> F -> bool;      (* [a > b] *)
  fltb : F -> F -> bool;      (* [a < b] *)
  fgeb : F -> F -> bool;      (* [a >= b] *)
  fisnan : F -> bool;
  fisinf : F -> bool;
  fconst : Q -> F             (* numeric literals *)
}.

Section Tensor.
Context {F : Type} `{Scalar F}.

(** A tensor of rank 1, 2 or 3, as nested rows. *)
Inductive tensor : Type :=
| T1 (v : list F)
| T2 (m : list (list F))
| T3 (a : list (list (list F))).

Definition ndim (t : tensor) : nat :=
  match t with T1 _ => 1 | T2 _ => 2 | T3 _ => 3 end.

(** Elementwise unary operation. *)
Definition tmap (f : F -> F) (t : tensor) : tensor :=
  match t with
  | T1 v => T1 (map f v)
  | T2 m => T2 (map (map f) m)
  | T3 a => T3 (map (map (map f)) a)
  end.

(** [pred(t).any()]. *)
Definition tany (pred : F -> bool) (t : tensor) : bool :=
  match t with
  | T1 v => existsb pred v
  | T2 m => existsb (existsb pred) m
  | T3 a => existsb (existsb (existsb pred)) a
  end.

Definition zip1 (f : F -> F -> F) : list F -> list F -> result (list F) :=
  zipWith (fun a b => Ok (f a b)).

Definition zip2 (f : F -> F -> F) :
  list (list F) -> list (list F) -> result (list (list F)) :=
  zipWith (zip1 f).

Definition zip3 (f : F -> F -> F) :
  list (list (list F)) -> list (list (list F)) -> result (list (list (list F))) :=
  zipWith (zip2 f).

(** Elementwise binary operation on two tensors of the same shape.  torch
    broadcasts some unequal shapes; none of the modelled call sites relies on
    that, and the model raises for every shape mismatch. *)
Definition tzip (f : F -> F -> F) (s t : tensor) : result tensor :=
  match s, t with
  | T1 u, T1 v => r <- zip1 f u v ;; Ok (T1 r)
  | T2 m, T2 n => r <- zip2 f m n ;; Ok (T2 r)
  | T3 a, T3 b => r <- zip3 f a b ;; Ok (T3 r)
  | _, _ => Raise (RuntimeError "size mismatch")
  end.

Definition tsub : tensor -> tensor -> result tensor := tzip fsub.
Definition tadd : tensor -> tensor -> result tensor := tzip fadd.
Definition tdiv : tensor -> tensor -> result tensor := tzip fdiv.
Definition tneg : tensor -> tensor := tmap fneg.
(** [c * t], [t * c] and [t / c] for a Python number or 0-dim tensor [c]. *)
Definition tscale (c : F) : tensor -> tensor := tmap (fmul c).
Definition tscale_r (c : F) : tensor -> tensor := tmap (fun v => fmul v c).
Definition tdiv_scalar (c : F) : tensor -> tensor := tmap (fun v => fdiv v c).

(** Maximum of a non-empty sequence, folded from the left. *)
Definition max_list (v : list F) : result F :=
  match v with
  | [] => Raise (RuntimeError "max of an empty tensor")
  | a :: v' => Ok (fold_left fmax v' a)
  end.

(** [torch.max(t)]: the maximum over all entries. *)
Definition torch_max (t : tensor) : result F :=
  match t with
  | T1 v => max_list v
  | T2 m => max_list (List.concat m)
  | T3 a => max_list (List.concat (List.concat a))
  end.

(** [torch.linalg.norm(gg, float('inf'), dim=[1])] for a rank-2 [gg]:
    per batch element, the largest absolute entry of its row.  Other ranks are
    outside the layouts the solver is used with and raise in the model. *)
Definition linalg_norm_inf (gg : tensor) : result tensor :=
  match gg with
  | T2 m => r <- mapM (fun row => max_list (map fabs row)) m ;; Ok (T1 r)
  | _ => Raise IndexError
  end.

(** Transpose of a matrix given by rows; the number of columns is read off the
    first row. *)
Definition column (j : nat) (m : list (list F)) : list F :=
  map (fun row => nth j row f0) m.

Definition transpose (m : list (list F)) : list (list F) :=
  map (fun j => column j m) (seq 0 (List.length (hd [] m))).

(** [torch.permute(t, (0, 2, 1))]. *)
Definition permute021 (t : tensor) : result tensor :=
  match t with
  | T3 a => Ok (T3 (map transpose a))
  | _ => Raise (RuntimeError "permute: number of dims does not match")
  end.

(** [torch.unsqueeze(t, 2)]. *)
Definition unsqueeze2 (t : tensor) : result tensor :=
  match t with
  | T2 m => Ok (T3 (map (map (fun x => [x])) m))
  | _ => Raise IndexError
  end.

(** [torch.squeeze(t, 1)]: drops dimension 1 when its size is 1. *)
Definition squeeze1 (t : tensor) : tensor :=
  match t with
  | T3 a =>
      if forallb (fun mtx => (List.length mtx =? 1)%nat) a
      then T2 (map (fun mtx => hd [] mtx) a)
      else T3 a
  | _ => t
  end.

Definition dot (u v : list F) : F :=
  fold_right (fun uv acc => fadd (fmul (fst uv) (snd uv)) acc) f0 (combine u v).

(** Row vector times matrix: entry [j] is the dot product with column [j]. *)
Definition vecmat (u : list F) (m : list (list F)) : list F :=
  map (fun j => dot u (column j m)) (seq 0 (List.length (hd [] m))).

(** Matrix times column vector. *)
Definition matvec (m : list (list F)) (u : list F) : list F :=
  map (fun row => dot row u) m.

(** Matrix product; every row of the left factor must be as long as the right
    factor has rows. *)
Definition matmul (a b : list (list F)) : result (list (list F)) :=
  if forallb (fun row => (List.length row =? List.length b)%nat) a
  then Ok (map (fun row => vecmat row b) a)
  else Raise (RuntimeError "size mismatch").

(** [torch.bmm(s, t)]: batched matrix product of two rank-3 tensors. *)
Definition bmm (s t : tensor) : result tensor :=
  match s, t with
  | T3 a, T3 b => r <- zipWith matmul a b ;; Ok (T3 r)
  | _, _ => Raise (RuntimeError "batch tensors must be 3D")
  end.

End Tensor.

Arguments tensor F : clear implicits.

End Torch.

Import Torch.

(* ================================================================== *)
(** ** hbv_adj.py: NewtonSolve, batchJacobian_AD_slow, MOL *)

(** The input a Jacobian is taken with respect to. *)
Inductive wrt : Type := WrtX | WrtP | WrtP2.

(** The point at which the residual [gg = G(x, p, p2, t, auxG)] was evaluated.
    autograd differentiates the recorded evaluation of [gg]; the evaluation is
    determined by [G] and this point, and that is how the model names it. *)
Record point (F Aux : Type) : Type := mkPoint {
  pt_x : tensor F;
  pt_p : tensor F;
  pt_p2 : option (tensor F);
  pt_t : nat;
  pt_aux : Aux
}.

(** What [ctx.save_for_backward(dGdp, dGdp2, dGdx)] keeps. *)
Record saved (F : Type) : Type := mkSaved {
  dGdp : tensor F;
  dGdp2 : option (tensor F);
  dGdx : tensor F
}.

(** The tuple [backward] returns: one gradient slot per input of [forward],
    in the order [(p, p2, t, G, x0, auxG, batchP, eval, AD_efficient)]. *)
Record grads (F : Type) : Type := mkGrads {
  dLdp : option (tensor F);
  dLdp2 : option (tensor F);
  dLdt : option (tensor F);
  dLdG : option (tensor F);
  dLdx0 : option (tensor F);
  dLdauxG : option (tensor F);
  dLdbatchP : option (tensor F);
  dLdeval : option (tensor F);
  dLdAD_efficient : option (tensor F)
}.

(** The locals of the Newton [while] loop. *)
Record loop_state (F : Type) : Type := mkLoop {
  ls_x : tensor F;
  ls_gg : tensor F;
  ls_dGdx : tensor F;
  ls_resnorm : tensor F;
  ls_resnorm0 : tensor F;
  ls_i : nat
}.

Module NewtonSolve.

Section NewtonSolve.
Context {F : Type} `{Scalar F}.
Variable Aux : Type.

(** The residual callable: [G(x, p, t, auxG)] when [p2] is [None],
    [G(x, p, p2, t, auxG)] otherwise. *)
Definition GFun : Type :=
  tensor F -> tensor F -> option (tensor F) -> nat -> Aux -> result (tensor F).

(** [torch.linalg.solve]. *)
Variable matrixSolve : tensor F -> tensor F -> result (tensor F).
(** [hydroDL2.core.calc.batchJacobian.batchJacobian(gg, wrt, graphed=True)]:
    not among the sources, taken as given. *)
Variable batchJacobian : GFun -> point F Aux -> wrt -> result (tensor F).
(** [torch.autograd.grad(outputs=y[:, i], inputs=wrt, grad_outputs=v, ...)[0]]. *)
Variable autograd_grad :
  GFun -> point F Aux -> nat -> wrt -> list F -> result (list (list F)).

Definition last_dim (t : tensor F) : nat :=
  match t with
  | T1 v => List.length v
  | T2 m => List.length (hd [] m)
  | T3 a => List.length (hd [] (hd [] a))
  end.

Definition has_shape2 (b n : nat) (m : list (list F)) : bool :=
  ((List.length m =? b)%nat && forallb (fun row => (List.length row =? n)%nat) m)%bool.

(** [batchJacobian_AD_slow(y, x, graphed=True)]: one vector-Jacobian product
    per output column, stored as [jacobian[:, i, :] = grad]. *)
Definition batchJacobian_AD_slow (G : GFun) (pt : point F Aux)
           (y : tensor F) (w : wrt) (x : tensor F) : result (tensor F) :=
  y2 <- match y with
        | T1 v => Ok (map (fun a => [a]) v)          (* y.unsqueeze(1) *)
        | T2 m => Ok m
        | T3 _ => Raise (RuntimeError "grad_outputs shape mismatch")
        end ;;
  let ny := List.length (hd [] y2) in
  let b := List.length y2 in
  let nx := last_dim x in
  cols <- mapM (fun i =>
                  g <- autograd_grad G pt i w (repeat f1 b) ;;
                  if has_shape2 b nx g then Ok g
                  else Raise (RuntimeError "shape mismatch"))
               (seq 0 ny) ;;
  Ok (T3 (map (fun k => map (fun g => nth k g []) cols) (seq 0 b))).

(** The Jacobian of the recorded residual, by the routine [AD_efficient] picks. *)
Definition jacobian (AD_efficient : bool) (G : GFun) (pt : point F Aux)
           (gg : tensor F) (w : wrt) (x : tensor F) : result (tensor F) :=
  if AD_efficient then batchJacobian G pt w
  else batchJacobian_AD_slow G pt gg w x.

(** [torch.isnan(J).any() or torch.isinf(J).any()]. *)
Definition nonfinite (J : tensor F) : bool :=
  (tany fisnan J || tany fisinf J)%bool.

Definition check_finite (J : tensor F) : result unit :=
  if nonfinite J then Raise (RuntimeError "Jacobian matrix is NaN") else Ok tt.

Definition max_iter : nat := 3.
Definition gtol : F := fconst (1 # 1000).

Section Loop.
Variables (p : tensor F) (p2 : option (tensor F)) (t : nat) (G : GFun)
          (auxG : Aux) (AD_efficient : bool).

(** [(torch.max(resnorm) > gtol) and i <= max_iter]. *)
Definition loop_cond (s : loop_state F) : result bool :=
  m <- torch_max (ls_resnorm s) ;;
  Ok (fgtb m gtol && (ls_i s <=? max_iter)%nat)%bool.

(** [torch.max(resnorm / resnorm0) > 0.2]. *)
Definition slow_progress (s : loop_state F) : result bool :=
  r <- tdiv (ls_resnorm s) (ls_resnorm0 s) ;;
  m <- torch_max r ;;
  Ok (fgtb m (fconst (2 # 10))).

(** The residual and its state Jacobian evaluated afresh at [x] (with the
    non-finite check that follows each computed Jacobian). *)
Definition fresh_jacobian (x : tensor F) : result (tensor F * tensor F) :=
  gg <- G x p p2 t auxG ;;
  J <- jacobian AD_efficient G (mkPoint x p p2 t auxG) gg WrtX x ;;
  check_finite J ;;;
  Ok (gg, J).

(** [dx]: division when Jacobian and residual have the same rank, the batched
    linear solve otherwise. *)
Definition newton_dx (J gg : tensor F) : result (tensor F) :=
  if (ndim J =? ndim gg)%nat then tdiv gg J else matrixSolve J gg.

(** One pass through the body of the [while] loop. *)
Definition loop_body (s : loop_state F) : result (loop_state F) :=
  let i := S (ls_i s) in
  slow <- slow_progress s ;;
  ggJ <- (if slow : bool then fresh_jacobian (ls_x s)
          else Ok (ls_gg s, ls_dGdx s)) ;;
  dx <- newton_dx (snd ggJ) (fst ggJ) ;;
  x <- tsub (ls_x s) dx ;;
  gg <- G x p p2 t auxG ;;
  let resnorm0 := ls_resnorm s in
  resnorm <- linalg_norm_inf gg ;;
  Ok (mkLoop x gg (snd ggJ) resnorm resnorm0 i).

Definition newton_loop (fuel : nat) (s : loop_state F)
  : option (result (loop_state F)) :=
  while_loop fuel loop_cond loop_body s.

End Loop.

(** [NewtonSolve.forward(ctx, p, p2, t, G, x0, auxG, batchP, eval, AD_efficient)].
    Returns [x] and what was saved on [ctx] ([None] when nothing was saved). *)
Definition forward (fuel : nat) (p : tensor F) (p2 : option (tensor F)) (t : nat)
           (G : GFun) (x0 : option (tensor F)) (auxG : Aux)
           (batchP eval AD_efficient : bool)
  : option (result (tensor F * option (saved F))) :=
  let x0 := match x0, p2 with
            | None, Some v => Some v
            | _, _ => x0
            end in
  match x0 with
  | None => Some (Raise (AttributeError "'NoneType' object has no attribute 'clone'"))
  | Some x =>
    match (ggJ <- fresh_jacobian p p2 t G auxG AD_efficient x ;;
           resnorm <- linalg_norm_inf (fst ggJ) ;;
           let resnorm0 := tscale (fconst 100) resnorm in
           Ok (mkLoop x (fst ggJ) (snd ggJ) resnorm resnorm0 0)) with
    | Raise e => Some (Raise e)
    | Ok s0 =>
      match newton_loop p p2 t G auxG AD_efficient fuel s0 with
      | None => None
      | Some (Raise e) => Some (Raise e)
      | Some (Ok s) =>
        let x := ls_x s in
        let gg := ls_gg s in
        let pt := mkPoint x p p2 t auxG in
        Some (
          if eval then Ok (x, None)
          else if batchP then
            match p2 with
            | None =>
                dGdp <- jacobian AD_efficient G pt gg WrtP p ;;
                Ok (x, Some (mkSaved dGdp None (ls_dGdx s)))
            | Some q =>
                dGdp <- jacobian AD_efficient G pt gg WrtP p ;;
                dGdp2 <- jacobian AD_efficient G pt gg WrtP2 q ;;
                (if (nonfinite dGdp || nonfinite dGdp2)%bool
                 then Raise (RuntimeError "Jacobian matrix is NaN")
                 else Ok tt) ;;;
                Ok (x, Some (mkSaved dGdp (Some dGdp2) (ls_dGdx s)))
            end
          else Raise (UnboundLocalError "dGdp"))
      end
    end
  end.

(** [NewtonSolve.backward(ctx, dLdx)] on the tensors saved by [forward]. *)
Definition backward (ctx : saved F) (dLdx : tensor F) : result (grads F) :=
  dGdxT <- permute021 (dGdx ctx) ;;
  lambTneg <- matrixSolve dGdxT dLdx ;;
  lambTneg <- (if (ndim lambTneg <=? 2)%nat then unsqueeze2 lambTneg
               else Ok lambTneg) ;;
  lambT <- permute021 lambTneg ;;
  prod <- bmm lambT (dGdp ctx) ;;
  let dLdp := squeeze1 (tneg prod) in
  dLdp2 <- match dGdp2 ctx with
           | None => Ok None
           | Some d2 =>
               prod2 <- bmm lambT d2 ;;
               Ok (Some (squeeze1 (tneg prod2)))
           end ;;
  Ok (mkGrads (Some dLdp) dLdp2 None None None None None None None).

End NewtonSolve.

Arguments GFun F Aux : clear implicits.

End NewtonSolve.

Module MOL.

Section MOL.
Context {F : Type} `{Scalar F}.
(** The auxiliary data handed through to [rhs] ([None] in [nsteps_pDyn]). *)
Variable Aux : Type.

Definition AuxG : Type := (F * option Aux)%type.

(** The type of [NewtonSolve.apply], with the fuel of its loop. *)
Definition solver : Type :=
  nat -> tensor F -> option (tensor F) -> nat -> NewtonSolve.GFun F AuxG ->
  option (tensor F) -> AuxG -> bool -> bool -> bool ->
  option (result (tensor F * option (saved F))).

(** The fields set by [MOL.__init__]. *)
Record t : Type := mk {
  mtd : Z;
  rhs : tensor F -> tensor F -> nat -> option Aux -> result (tensor F * tensor F);
  delta_t : F;
  bs : nat;
  ny : nat;
  nflux : nat;
  rho : nat;
  solveAdj : solver;
  eval : bool;
  AD_efficient : bool
}.

(** [MOL.forward(self, x, p, xt, t, auxG)]: the residual of one step. *)
Definition forward (self : t) (x p xt : tensor F) (tstep : nat) (auxG : AuxG)
  : result (tensor F) :=
  let dt := fst auxG in
  let aux := snd auxG in
  if (mtd self =? 0)%Z then
    r <- rhs self x p tstep aux ;;
    d <- tsub x xt ;;
    tsub (tdiv_scalar dt d) (fst r)
  else if (mtd self =? 1)%Z then
    r <- rhs self x p tstep aux ;;
    rt <- rhs self xt p tstep aux ;;
    d <- tsub x xt ;;
    s <- tadd (fst r) (fst rt) ;;
    tsub (tdiv_scalar dt d) (tscale_r (fconst (5 # 10)) s)
  else Raise (UnboundLocalError "gg").

(** [self.forward] as the callable [G] handed to the solver: it takes five
    arguments, so the four-argument call made when [p2] is [None] fails. *)
Definition as_G (self : t) : NewtonSolve.GFun F AuxG :=
  fun x p p2 tstep auxG =>
    match p2 with
    | Some xt => forward self x p xt tstep auxG
    | None => Raise (TypeError "forward() missing 1 required positional argument")
    end.

Definition shape2_is (b n : nat) (x : tensor F) : bool :=
  match x with
  | T2 m => NewtonSolve.has_shape2 b n m
  | _ => false
  end.

(** [dst[...] = src] for a slice [dst] of shape [b x n].  The value is copied
    when the shapes agree and broadcast otherwise: leading dimensions of size
    one are dropped, a dimension of size one is repeated, and any other
    disagreement is a RuntimeError. *)
Definition broadcast_row (n : nat) (row : list F) : result (list F) :=
  if (List.length row =? n)%nat then Ok row
  else match row with
       | [a] => Ok (repeat a n)
       | _ => Raise (RuntimeError "The expanded size of the tensor must match the existing size")
       end.

Definition broadcast_rows (b n : nat) (m : list (list F)) : result (list (list F)) :=
  rows <- mapM (broadcast_row n) m ;;
  if (List.length rows =? b)%nat then Ok rows
  else match rows with
       | [r] => Ok (repeat r b)
       | _ => Raise (RuntimeError "The expanded size of the tensor must match the existing size")
       end.

Definition broadcast2 (b n : nat) (x : tensor F) : result (list (list F)) :=
  match x with
  | T1 v => broadcast_rows b n [v]
  | T2 m => broadcast_rows b n m
  | T3 [m] => broadcast_rows b n m
  | T3 _ => Raise (RuntimeError "The expanded size of the tensor must match the existing size")
  end.

(** The [for t in range(rho)] loop of [nsteps_pDyn]: [xt] is the state carried
    from the previous step, [acc] the steps done so far (latest first): the
    state each solve returned and what it saved for the backward pass.  The
    assignment [ySolution[t,:,:] = x] fails when [x] cannot be broadcast to
    [bs x ny]. *)
Fixpoint steps (fuel : nat) (self : t) (pDyn : list (list (list F)))
         (ts : list nat) (xt : tensor F)
         (acc : list (tensor F * option (saved F)))
  : option (result (list (tensor F * option (saved F)))) :=
  match ts with
  | [] => Some (Ok (rev acc))
  | tstep :: ts' =>
      match nth_error pDyn tstep with
      | None => Some (Raise IndexError)
      | Some p =>
          match solveAdj self fuel (T2 p) (Some xt) tstep (as_G self) None
                         (delta_t self, None) true (eval self) (AD_efficient self) with
          | None => None
          | Some (Raise e) => Some (Raise e)
          | Some (Ok (x, ctx)) =>
              match broadcast2 (bs self) (ny self) x with
              | Raise e => Some (Raise e)
              | Ok _ => steps fuel self pDyn ts' x ((x, ctx) :: acc)
              end
          end
      end
  end.

(** [MOL.nsteps_pDyn(self, pDyn, x0)].  The result lists, per time step, the
    state the solve of that step returned and the tensors it saved;
    [ySolution] below is what the function returns. *)
Definition nsteps_pDyn (fuel : nat) (self : t) (pDyn : tensor F) (x0 : tensor F)
  : option (result (list (tensor F * option (saved F)))) :=
  if (rho self =? 0)%nat then Some (Raise IndexError)          (* ySolution[0,:,:] = x0 *)
  else match broadcast2 (bs self) (ny self) x0 with
       | Raise e => Some (Raise e)
       | Ok _ =>
           match pDyn with
           | T3 pd => steps fuel self pd (seq 0 (rho self)) x0 []
           | _ => Some (Raise IndexError)                      (* pDyn[t,:,:] *)
           end
       end.

(** What [ySolution[t,:,:] = x] leaves in the preallocated
    [rho x bs x ny] tensor. *)
Definition written (self : t) (x : tensor F) : tensor F :=
  match broadcast2 (bs self) (ny self) x with
  | Ok y => T2 y
  | Raise _ => x
  end.

(** [ySolution] as a tensor. *)
Definition ySolution (self : t) (run : list (tensor F * option (saved F)))
  : list (tensor F) :=
  map (fun e => written self (fst e)) run.

End MOL.

Arguments AuxG F Aux : clear implicits.
Arguments solver F Aux : clear implicits.
Arguments t F Aux : clear implicits.

End MOL.

(* ================================================================== *)
(** ** Layout operations shared by the two HBV models *)

Module Layout.

Section Layout.
Context {F : Type} `{Scalar F}.

(** [k] consecutive chunks of [n] entries each. *)
Fixpoint chunks {A : Type} (n k : nat) (l : list A) : list (list A) :=
  match k with
  | O => []
  | S k' => firstn n l :: chunks n k' (skipn n l)
  end.

(** [.view(..., P, M)] on the last dimension: it must hold exactly [P * M]
    entries. *)
Definition view_last (P M : nat) (row : list F) : result (list (list F)) :=
  if (List.length row =? P * M)%nat then Ok (chunks M P row)
  else Raise (RuntimeError "shape is invalid for input size").

(** [t.view(t.shape[0], t.shape[1], P, M)] on a rank-3 tensor. *)
Definition view4 (P M : nat) (a : list (list (list F)))
  : result (list (list (list (list F)))) :=
  mapM (mapM (view_last P M)) a.

(** [.permute([0, 3, 1, 2])]: [T, B, P, M] to [T, M, B, P]. *)
Definition permute0312 (M : nat) (a : list (list (list (list F))))
  : list (list (list (list F))) :=
  map (fun tb =>
         map (fun m => map (fun bp => map (fun pm => nth m pm f0) bp) tb)
             (seq 0 M)) a.

(** [.reshape(n_steps, bsnew, P)] of a [T, M, B, P] tensor: the rows of
    length [P] are regrouped in row-major order. *)
Definition reshape3 (n_steps bsnew : nat) (a : list (list (list (list F))))
  : result (list (list (list F))) :=
  let rows := List.concat (List.concat a) in
  if (List.length rows =? n_steps * bsnew)%nat then Ok (chunks bsnew n_steps rows)
  else Raise (RuntimeError "shape is invalid for input size").

(** [a[:, :, i]] of a rank-3 tensor. *)
Definition feature (i : nat) (a : list (list (list F))) : result (list (list F)) :=
  mapM (mapM (fun row => match nth_error row i with
                         | Some v => Ok v
                         | None => Raise IndexError
                         end)) a.

Fixpoint set_nth {A : Type} (i : nat) (v : A) (l : list A) : list A :=
  match l, i with
  | [], _ => []
  | _ :: l', O => v :: l'
  | a :: l', S i' => a :: set_nth i' v l'
  end.

(** [a[:, :, i] = c] for a [c] of the shape of [a[:, :, i]]. *)
Definition set_feature (i : nat) (c : list (list F)) (a : list (list (list F)))
  : result (list (list (list F))) :=
  zipWith (zipWith (fun v row => Ok (set_nth i v row))) c a.

(** [.permute([1, 2, 0])]: [A, B, C] to [B, C, A]. *)
Definition permute120 (a : list (list (list F))) : list (list (list F)) :=
  let nb := List.length (hd [] a) in
  let nc := List.length (hd [] (hd [] a)) in
  map (fun b => map (fun c => map (fun m => nth c (nth b m []) f0) a) (seq 0 nc))
      (seq 0 nb).

(** [.permute([2, 0, 1])]: [A, B, C] to [C, A, B]. *)
Definition permute201 (a : list (list (list F))) : list (list (list F)) :=
  let nc := List.length (hd [] (hd [] a)) in
  map (fun c => map (fun m => map (fun row => nth c row f0) m) a) (seq 0 nc).

(** The mean of a sequence ([sum / count]). *)
Definition mean (v : list F) : F :=
  fdiv (fold_left fadd v f0) (fconst (inject_Z (Z.of_nat (List.length v)))).

(** Modelled from the spec: [hydroDL2.core.calc.change_param_range] is not
    among the sources; the spec gives the affine map
    [param = lo + raw * (hi - lo)] from a raw value in (0,1) to [[lo, hi]]. *)
Definition change_param_range (param : F) (bounds : F * F) : F :=
  fadd (fst bounds) (fmul param (fsub (snd bounds) (fst bounds))).

(** [torch.clamp(x, min=lo)], [torch.clamp(x, max=hi)] and
    [torch.clamp(x, min=lo, max=hi)]. *)
Definition clamp_min (x lo : F) : F := fmax x lo.
Definition clamp_max (x hi : F) : F := fmin x hi.
Definition clamp (x lo hi : F) : F := fmin (fmax x lo) hi.

(** A boolean mask entry as a number. *)
Definition of_bool (b : bool) : F := if b then f1 else f0.

End Layout.

End Layout.

Import Layout.

(* ================================================================== *)
(** ** hbv_adj.py: HBV_function and HBV_adj *)

Module HBV_function.

Section HBV_function.
Context {F : Type} `{Scalar F}.
(** [a ** b]. *)
Variable pow : F -> F -> F.

Record t : Type := mk {
  climate_data : list (list (list F));
  parameter_bounds : list (string * (F * F))
}.

(** The thirteen parameters, in the order of the columns of [theta]. *)
Definition theta_names : list string :=
  ["parBETA"; "parFC"; "parK0"; "parK1"; "parK2"; "parLP"; "parPERC";
   "parUZL"; "parTT"; "parCFMAX"; "parCFR"; "parCWH"; "parBETAET"]%string.

Record params : Type := mkParams {
  Beta : F; FC : F; K0 : F; K1 : F; K2 : F; LP : F; PERC : F; UZL : F;
  TT : F; CFMAX : F; CFR : F; CWH : F; BETAET : F
}.

Definition snowfall (P T TT : F) : F := fmul P (of_bool (fltb T TT)).

Definition refreeze (CFR CFMAX T TT MELTWATER : F) : F :=
  let refreezing := fmul (fmul CFR CFMAX) (fsub TT T) in
  let refreezing := clamp_min refreezing (fconst 0) in
  fmin refreezing MELTWATER.

Definition melt (CFMAX T TT SNOWPACK : F) : F :=
  let melt := fmul CFMAX (fsub T TT) in
  let melt := clamp_min melt (fconst 0) in
  fmin melt SNOWPACK.

Definition rainfall (P T TT : F) : F := fmul P (of_bool (fgeb T TT)).

Definition Isnow (MELTWATER CWH SNOWPACK : F) : F :=
  let tosoil := fsub MELTWATER (fmul CWH SNOWPACK) in
  clamp_min tosoil (fconst 0).

Definition Peff (SM FC Beta flux_rf flux_Isnow : F) : F :=
  let soil_wetness := pow (fdiv SM FC) Beta in
  let soil_wetness := clamp soil_wetness (fconst 0) (fconst 1) in
  fmul (fadd flux_rf flux_Isnow) soil_wetness.

Definition excess (SM FC : F) : F := clamp_min (fsub SM FC) (fconst 0).

Definition evap (SM FC LP Ep BETAET : F) : F :=
  let evapfactor := pow (fdiv SM (fmul LP FC)) BETAET in
  let evapfactor := clamp evapfactor (fconst 0) (fconst 1) in
  let ETact := fmul Ep evapfactor in
  fmin SM ETact.

Definition interflow (K0 SUZ UZL : F) : F :=
  fmul K0 (clamp_min (fsub SUZ UZL) (fconst 0)).

Definition percolation (PERC SUZ : F) : F := fmin SUZ PERC.

Definition baseflow (K S : F) : F := fmul K S.

(** What [forward] returns: [(dS, fluxes)], or with [returnFlux] the five
    flux tensors. *)
Inductive output : Type :=
| DS (dS fluxes : list (list F))
| Fluxes (fluxes q0 q1 q2 et : list (list F)).

(** The rescaled parameters of one batch element. *)
Definition row_params (bnds : list (F * F)) (theta : list F) : result params :=
  vals <- mapM (fun kb =>
                  match nth_error theta (fst kb) with
                  | Some th => Ok (fadd (fst (snd kb))
                                        (fmul th (fsub (snd (snd kb)) (fst (snd kb)))))
                  | None => Raise IndexError
                  end)
               (combine (seq 0 13) bnds) ;;
  match vals with
  | [a; b; c; d; e; f; g; h; i; j; k; l; m] =>
      Ok (mkParams a b c d e f g h i j k l m)
  | _ => Raise IndexError
  end.

(** [m[:, k]]: IndexError when a row has no column [k]. *)
Definition col (k : nat) (m : list (list F)) : result (list F) :=
  mapM (fun row => match nth_error row k with
                   | Some v => Ok v
                   | None => Raise IndexError
                   end) m.

(** What the statement of parameter number [k] reads, in the order it reads
    it: the bounds of the name, then column [k] of [theta]. *)
Definition read_bounds (self : t) (theta : list (list F)) (kn : nat * string)
  : result (F * F) :=
  b <- dict_get (parameter_bounds self) (snd kn) ;;
  col (fst kn) theta ;;;
  Ok b.

(** The storages, fluxes and derivatives of one batch element.  [dS] has as
    many columns as [y]; those after the fifth stay zero. *)
Definition row_forward (par : params) (y clim : list F)
  : result (list F * F * F * F * F * F) :=
  match y, clim with
  | y0 :: y1 :: y2 :: y3 :: y4 :: more, P :: T :: Ep :: _ =>
      let PRECS := fconst 0 in
      let SNOWPACK := clamp_min y0 PRECS in
      let MELTWATER := clamp_min y1 PRECS in
      let SM := clamp_min y2 (fconst (1 # 100000000)) in
      let SUZ := clamp_min y3 PRECS in
      let SLZ := clamp_min y4 PRECS in
      let flux_sf := snowfall P T (TT par) in
      let flux_refr := refreeze (CFR par) (CFMAX par) T (TT par) MELTWATER in
      let flux_melt := melt (CFMAX par) T (TT par) SNOWPACK in
      let flux_rf := rainfall P T (TT par) in
      let flux_Isnow := Isnow MELTWATER (CWH par) SNOWPACK in
      let flux_PEFF := Peff SM (FC par) (Beta par) flux_rf flux_Isnow in
      let flux_ex := excess SM (FC par) in
      let flux_et := evap SM (FC par) (LP par) Ep (BETAET par) in
      let flux_perc := percolation (PERC par) SUZ in
      let flux_q0 := interflow (K0 par) SUZ (UZL par) in
      let flux_q1 := baseflow (K1 par) SUZ in
      let flux_q2 := baseflow (K2 par) SLZ in
      let dS :=
        [ fsub (fadd flux_sf flux_refr) flux_melt;
          fsub (fsub flux_melt flux_refr) flux_Isnow;
          fsub (fsub (fsub (fadd flux_Isnow flux_rf) flux_PEFF) flux_ex) flux_et;
          fsub (fsub (fsub (fadd flux_PEFF flux_ex) flux_perc) flux_q0) flux_q1;
          fsub flux_perc flux_q2 ] ++ map (fun _ => f0) more in
      Ok (dS, fadd (fadd flux_q0 flux_q1) flux_q2, flux_q0, flux_q1, flux_q2, flux_et)
  | _, _ => Raise IndexError
  end.

(** [HBV_function.forward(y, theta, t, returnFlux)].  The reads come in the
    order of the statements: for each of the thirteen parameters its bounds
    and its column of [theta], then the five columns of [y], the climate of
    step [t] and its columns 0, 2 and 1.  The arithmetic is elementwise over
    the batch and is written per batch element, for [y], [theta] and the
    climate of the same batch size. *)
Definition forward (self : t) (y theta : list (list F)) (tstep : nat)
           (returnFlux : bool) : result output :=
  bnds <- mapM (read_bounds self theta) (combine (seq 0 13) theta_names) ;;
  mapM (fun k => col k y) (seq 0 5) ;;;
  climate_in <- match nth_error (climate_data self) tstep with
                | Some c => Ok c
                | None => Raise IndexError
                end ;;
  col 0 climate_in ;;;
  col 2 climate_in ;;;
  col 1 climate_in ;;;
  yt <- zipWith (fun a b => Ok (a, b)) y theta ;;
  rows <- zipWith (fun ab clim =>
                     par <- row_params bnds (snd ab) ;;
                     row_forward par (fst ab) clim)
                  yt climate_in ;;
  let dS := map (fun r => fst (fst (fst (fst (fst r))))) rows in
  let fl := map (fun r => [snd (fst (fst (fst (fst r))))]) rows in
  let q0 := map (fun r => [snd (fst (fst (fst r)))]) rows in
  let q1 := map (fun r => [snd (fst (fst r))]) rows in
  let q2 := map (fun r => [snd (fst r)]) rows in
  let et := map (fun r => [snd r]) rows in
  Ok (if returnFlux then Fluxes fl q0 q1 q2 et else DS dS fl).

(** The function as the [rhs] of a [MOL]: called as [rhs(x, p, t, aux)], so
    [aux] lands in [returnFlux], and the caller unpacks a pair. *)
Definition as_rhs {Aux : Type} (self : t) (x p : tensor F) (tstep : nat)
           (aux : option Aux) : result (tensor F * tensor F) :=
  match x, p with
  | T2 y, T2 theta =>
      out <- forward self y theta tstep (match aux with Some _ => true | None => false end) ;;
      match out with
      | DS dS fl => Ok (T2 dS, T2 fl)
      | Fluxes _ _ _ _ _ => Raise (ValueError "too many values to unpack")
      end
  | _, _ => Raise IndexError
  end.

End HBV_function.

End HBV_function.

Module HBV_adj.

Section HBV_adj.
Context {F : Type} `{Scalar F}.
Variable sigmoid : F -> F.
Variable pow : F -> F -> F.
(** [torch.bernoulli(pmat)]: the generator state goes in and comes out. *)
Variable Rng : Type.
Variable bernoulli : Rng -> list (list F) -> list (list F) * Rng.
Variable matrixSolve : tensor F -> tensor F -> result (tensor F).
Variable batchJacobian :
  NewtonSolve.GFun F (MOL.AuxG F unit) -> point F (MOL.AuxG F unit) -> wrt -> result (tensor F).
Variable autograd_grad :
  NewtonSolve.GFun F (MOL.AuxG F unit) -> point F (MOL.AuxG F unit) -> nat -> wrt ->
  list F -> result (list (list F)).
(** [hydroDL2.core.calc.uh_routing]: not among the sources, taken as given. *)
Variable UH_gamma :
  list (list (list F)) -> list (list (list F)) -> nat -> result (list (list (list F))).
Variable UH_conv :
  list (list (list F)) -> list (list (list F)) -> result (list (list (list F))).

(** The entries of [config] that [__init__] reads. *)
Record config : Type := mkConfig {
  c_warm_up : nat;
  c_stat_param_idx : Z;
  c_dy_drop : F;
  c_dy_params : list string;
  c_forcings : list string;
  c_routing : bool;
  c_comprout : option bool;
  c_nearzero : F;
  c_nmul : nat;
  c_AD_efficient : bool
}.

(** The attributes of an instance.  [static_idx] and [AD_efficient] exist
    only when a config was given. *)
Record t : Type := mk {
  warm_up : nat;
  static_idx : option Z;
  dy_params : list string;
  dy_drop : F;
  variables : list string;
  routing : bool;
  comprout : bool;
  nearzero : F;
  nmul : nat;
  AD_efficient : option bool;
  parameter_bounds : list (string * (F * F));
  routing_parameter_bounds : list (string * (F * F));
  phy_params_name : list string;
  rout_params_name : list string;
  learnable_param_count : nat
}.

Definition default_parameter_bounds : list (string * (F * F)) :=
  [ ("parBETA", (fconst 1, fconst 6));
    ("parFC", (fconst 50, fconst 1000));
    ("parK0", (fconst (5 # 100), fconst (9 # 10)));
    ("parK1", (fconst (1 # 100), fconst (5 # 10)));
    ("parK2", (fconst (1 # 1000), fconst (2 # 10)));
    ("parLP", (fconst (2 # 10), fconst 1));
    ("parPERC", (fconst 0, fconst 10));
    ("parUZL", (fconst 0, fconst 100));
    ("parTT", (fconst (-25 # 10), fconst (25 # 10)));
    ("parCFMAX", (fconst (5 # 10), fconst 10));
    ("parCFR", (fconst 0, fconst (1 # 10)));
    ("parCWH", (fconst 0, fconst (2 # 10))) ]%string.

Definition default_routing_parameter_bounds : list (string * (F * F)) :=
  [ ("rout_a", (fconst 0, fconst (29 # 10)));
    ("rout_b", (fconst 0, fconst (65 # 10))) ]%string.

(** [HBV_adj.__init__(config)] followed by [set_parameters()]. *)
Definition init (cfg : option config) : t :=
  let routing := match cfg with Some c => c_routing c | None => false end in
  let nmul := match cfg with Some c => c_nmul c | None => 1%nat end in
  let dy := match cfg with Some c => c_dy_params c | None => [] end in
  let bounds :=
    if match cfg with Some _ => mem "parBETAET" dy | None => false end
    then dict_set default_parameter_bounds "parBETAET"
                  (fconst (3 # 10), fconst 5)
    else default_parameter_bounds in
  let rout_names :=
    if routing then map fst default_routing_parameter_bounds else [] in
  mk (match cfg with Some c => c_warm_up c | None => 0%nat end)
     (match cfg with Some c => Some (c_stat_param_idx c) | None => None end)
     dy
     (match cfg with Some c => c_dy_drop c | None => fconst 0 end)
     (match cfg with Some c => c_forcings c
                   | None => ["prcp"; "tmean"; "pet"]%string end)
     routing
     (match cfg with
      | Some c => match c_comprout c with Some b => b | None => false end
      | None => false
      end)
     (match cfg with Some c => c_nearzero c | None => fconst (1 # 100000) end)
     nmul
     (match cfg with Some c => Some (c_AD_efficient c) | None => None end)
     bounds
     default_routing_parameter_bounds
     (map fst bounds)
     rout_names
     (List.length bounds * nmul + List.length rout_names).

(** [HBV_adj.unpack_parameters(parameters, n_steps, n_grid)].  The local
    [routing_params] is bound only in the routing branch; reading it unbound
    raises UnboundLocalError. *)
Definition unpack_parameters (self : t) (parameters : list (list (list F)))
           (n_steps n_grid : nat) : result (list (string * tensor F)) :=
  let phy_param_count := List.length (parameter_bounds self) in
  let k := (phy_param_count * nmul self)%nat in
  phy_params <- view4 phy_param_count (nmul self)
                  (map (map (fun row => map sigmoid (py_slice_to row k))) parameters) ;;
  let phy_params := permute0312 (nmul self) phy_params in
  let bsnew := (n_grid * nmul self)%nat in
  phy_params <- reshape3 n_steps bsnew phy_params ;;
  routing_params <-
    (if routing self
     then last <- py_index parameters (-1) ;;
          Ok (Some (map (fun row => map sigmoid (py_slice_from row k)) last))
     else Ok None) ;;
  let parameter_dict := [] in
  let parameter_dict := dict_set parameter_dict "phy_params" (T3 phy_params) in
  rp <- match routing_params with
        | Some r => Ok r
        | None => Raise (UnboundLocalError "routing_params")
        end ;;
  let parameter_dict := dict_set parameter_dict "routing_params" (T2 rp) in
  Ok parameter_dict.

(** [dynPar * (1 - drmask) + staPar * drmask] for one time step; the mask row
    holds one entry per batch element. *)
Definition mix_row (dyn sta mask : list F) : result (list F) :=
  ds <- zipWith (fun d s => Ok (d, s)) dyn sta ;;
  zipWith (fun x m => Ok (fadd (fmul (fst x) (fsub f1 m)) (fmul (snd x) m))) ds mask.

(** The same for all time steps, with the [1 x n_grid] mask broadcast over
    time. *)
Definition mix (dynPar staPar drmask : list (list F)) : result (list (list F)) :=
  match drmask with
  | [mask] => zipWith (fun d s => mix_row d s mask) dynPar staPar
  | _ => Raise (RuntimeError "size mismatch")
  end.

(** The body of [for i, name in enumerate(name_list)]. *)
Definition mask_parameter (dy_list : list string) (pmat : list (list F))
           (phy_params parstaFull : list (list (list F)))
           (st : list (list (list F)) * Rng) (iname : nat * string)
  : result (list (list (list F)) * Rng) :=
  if mem (snd iname) dy_list then
    staPar <- feature (fst iname) parstaFull ;;
    dynPar <- feature (fst iname) phy_params ;;
    let draw := bernoulli (snd st) pmat in
    comPar <- mix dynPar staPar (fst draw) ;;
    parhbvFull <- set_feature (fst iname) comPar (fst st) ;;
    Ok (parhbvFull, snd draw)
  else Ok st.

Fixpoint mask_loop (dy_list : list string) (pmat : list (list F))
         (phy_params parstaFull : list (list (list F)))
         (names : list (nat * string)) (st : list (list (list F)) * Rng)
  : result (list (list (list F)) * Rng) :=
  match names with
  | [] => Ok st
  | iname :: rest =>
      st' <- mask_parameter dy_list pmat phy_params parstaFull st iname ;;
      mask_loop dy_list pmat phy_params parstaFull rest st'
  end.

Definition enumerate {A : Type} (l : list A) : list (nat * A) :=
  combine (seq 0 (List.length l)) l.

(** [HBV_adj.make_phy_parameters(phy_params, name_list, dy_list)]. *)
Definition make_phy_parameters (self : t) (rng : Rng)
           (phy_params : list (list (list F))) (name_list dy_list : list string)
  : result (list (list (list F)) * Rng) :=
  let n_steps := List.length phy_params in
  let n_grid := List.length (hd [] phy_params) in
  last <- py_index phy_params (-1) ;;
  let parstaFull := repeat last n_steps in
  match dy_list with
  | _ :: _ =>
      let pmat := [repeat (fmul f1 (dy_drop self)) n_grid] in
      let parhbvFull := parstaFull in
      mask_loop dy_list pmat phy_params parstaFull (enumerate name_list)
                (parhbvFull, rng)
  | [] => Ok (parstaFull, rng)
  end.

(** [HBV_adj.descale_rout_parameters(rout_params, name_list)]. *)
Fixpoint descale_loop (self : t) (rout_params : list (list F))
         (names : list (nat * string)) (d : list (string * list F))
  : result (list (string * list F)) :=
  match names with
  | [] => Ok d
  | (i, name) :: rest =>
      param <- mapM (fun row => match nth_error row i with
                                | Some v => Ok v
                                | None => Raise IndexError
                                end) rout_params ;;
      b <- dict_get (routing_parameter_bounds self) name ;;
      descale_loop self rout_params rest
                   (dict_set d name (map (fun v => change_param_range v b) param))
  end.

Definition descale_rout_parameters (self : t) (rout_params : list (list F))
           (name_list : list string) : result (list (string * list F)) :=
  descale_loop self rout_params (enumerate name_list) [].

(** [x.unsqueeze(1).repeat([1, nmul, 1, 1]).view(T, bsnew, V)]: the basins of
    each time step, repeated once per ensemble member. *)
Definition expand_nmul (n : nat) (x : list (list (list F))) : list (list (list F)) :=
  map (fun rows => List.concat (repeat rows n)) x.

(** [simulation.view(nt, nmul, bs, nflux).mean(dim=1)]. *)
Definition mean_nmul (n bs nflux : nat) (sim : list (list (list F)))
  : list (list (list F)) :=
  map (fun rows =>
         let members := chunks bs n rows in
         map (fun b =>
                map (fun f => mean (map (fun m => nth f (nth b m []) f0) members))
                    (seq 0 nflux))
             (seq 0 bs))
      sim.

(** [HBV_adj.forward(x_dict, parameters)]; [x] is [x_dict['x_phy']]. *)
Definition forward (fuel : nat) (self : t) (rng : Rng)
           (x parameters : list (list (list F)))
  : option (result (list (string * tensor F))) :=
  let n_steps := List.length x in
  let bs := List.length (hd [] x) in
  let bsnew := (bs * nmul self)%nat in
  match (param_dict <- unpack_parameters self parameters n_steps bs ;;
         phy <- dict_get param_dict "phy_params" ;;
         rout <- dict_get param_dict "routing_params" ;;
         match phy, rout with
         | T3 phy_params, T2 routing_params => Ok (phy_params, routing_params)
         | _, _ => Raise IndexError
         end) with
  | Raise e => Some (Raise e)
  | Ok (phy_params, routing_params) =>
    (* [self.AD_efficient] is set by [__init__] only when a config is given *)
    let AD_efficient_attr :=
      match AD_efficient self with
      | Some b => Ok b
      | None => Raise (AttributeError "AD_efficient")
      end in
    let nS := 5%nat in
    let y_init := T2 (repeat (repeat (fconst 0) nS) bsnew) in
    let nflux := 1%nat in
    let delta_t := fconst 1 in
    let solve := NewtonSolve.forward matrixSolve batchJacobian autograd_grad in
    let warm :=
      if (0 <? warm_up self)%nat then
        match make_phy_parameters self rng
                (py_slice_to phy_params (warm_up self)) (phy_params_name self) [] with
        | Raise e => Some (Raise e)
        | Ok (phy_params_warmup, rng1) =>
            let x_warmup := expand_nmul (nmul self) (py_slice_to x (warm_up self)) in
            let f_warm_up := HBV_function.mk x_warmup (parameter_bounds self) in
            match AD_efficient_attr with
            | Raise e => Some (Raise e)
            | Ok eff =>
                let M_warm_up :=
                  MOL.mk 0 (HBV_function.as_rhs pow f_warm_up) delta_t bsnew nS nflux
                         (warm_up self) solve false eff in
                match MOL.nsteps_pDyn fuel M_warm_up (T3 phy_params_warmup) y_init with
                | None => None
                | Some (Raise e) => Some (Raise e)
                | Some (Ok run) =>
                    Some (y0 <- py_index (MOL.ySolution M_warm_up run) (-1) ;; Ok (y0, rng1))
                end
            end
        end
      else Some (Ok (y_init, rng)) in
    match warm with
    | None => None
    | Some (Raise e) => Some (Raise e)
    | Some (Ok (y0, rng1)) =>
      match (run_par <- make_phy_parameters self rng1
                          (py_slice_from phy_params (warm_up self))
                          (phy_params_name self) (dy_params self) ;;
             routy <- descale_rout_parameters self routing_params
                                              (rout_params_name self) ;;
             Ok (fst run_par, routy)) with
      | Raise e => Some (Raise e)
      | Ok (phy_params_run, routy_params_dict) =>
        let xTrain := expand_nmul (nmul self) (py_slice_from x (warm_up self)) in
        let nt := List.length phy_params_run in
        let f := HBV_function.mk xTrain (parameter_bounds self) in
        match AD_efficient_attr with
        | Raise e => Some (Raise e)
        | Ok eff =>
        let M := MOL.mk 0 (HBV_function.as_rhs pow f) delta_t bsnew nS nflux nt
                        solve false eff in
        match MOL.nsteps_pDyn fuel M (T3 phy_params_run) y0 with
        | None => None
        | Some (Raise e) => Some (Raise e)
        | Some (Ok run) =>
          Some (
            simulation <-
              mapM (fun day =>
                      y <- match nth_error (MOL.ySolution M run) day with
                           | Some (T2 y) => Ok y
                           | _ => Raise IndexError
                           end ;;
                      th <- match nth_error phy_params_run day with
                            | Some th => Ok th
                            | None => Raise IndexError
                            end ;;
                      out <- HBV_function.forward pow f y th day false ;;
                      match out with
                      | HBV_function.DS _ flux =>
                          Ok (map (map (fun v => fmul v delta_t)) flux)
                      | HBV_function.Fluxes _ _ _ _ _ =>
                          Raise (ValueError "too many values to unpack")
                      end)
                   (seq 0 nt) ;;
            let simulation :=
              if (1 <? nmul self)%nat then mean_nmul (nmul self) bs nflux simulation
              else simulation in
            ra <- dict_get routy_params_dict "rout_a" ;;
            let routa := repeat (map (fun v => [v]) ra) nt in
            rb <- dict_get routy_params_dict "rout_b" ;;
            let routb := repeat (map (fun v => [v]) rb) nt in
            UH <- UH_gamma routa routb 15 ;;
            let rf := permute120 simulation in
            let UH := permute120 UH in
            conv <- UH_conv rf UH ;;
            let Qsrout := permute201 conv in
            Ok [("flow_sim"%string, T3 Qsrout)])
        end
        end
      end
    end
  end.

End HBV_adj.

End HBV_adj.

(* ================================================================== *)
(** ** hbv_1_1p.py: HBVCapillary *)

Module HBVCapillary.

(** The five storages of one cell (basin, ensemble member). *)
Record storages (F : Type) : Type := mkStorages {
  st_SNOWPACK : F;
  st_MELTWATER : F;
  st_SM : F;
  st_SUZ : F;
  st_SLZ : F
}.

(** The parameters of one cell at one time step. *)
Record cell_params (F : Type) : Type := mkCell {
  parBETA : F; parFC : F; parK0 : F; parK1 : F; parK2 : F; parLP : F;
  parPERC : F; parUZL : F; parTT : F; parCFMAX : F; parCFR : F; parCWH : F;
  parBETAET : F; parC : F
}.

(** What one time step writes to the output series of one cell. *)
Record fluxes (F : Type) : Type := mkFluxes {
  fl_Q0 : F; fl_Q1 : F; fl_Q2 : F;
  fl_AET : F; fl_SWE : F; fl_capillary : F;
  fl_recharge : F; fl_excs : F; fl_evapfactor : F; fl_tosoil : F; fl_PERC : F
}.

Section HBVCapillary.
Context {F : Type} `{Scalar F}.
Variable sigmoid : F -> F.
Variable pow : F -> F -> F.
Variable Rng : Type.
Variable bernoulli : Rng -> list (list F) -> list (list F) * Rng.
Variable UH_gamma : tensor F -> tensor F -> nat -> result (list (list (list F))).
Variable UH_conv :
  list (list (list F)) -> list (list (list F)) -> result (list (list (list F))).

Record config : Type := mkConfig {
  c_warm_up : nat;
  c_warm_up_states : bool;
  c_stat_param_idx : Z;
  c_dy_drop : F;
  c_dy_params : list string;
  c_forcings : list string;
  c_routing : bool;
  c_comprout : option bool;
  c_nearzero : F;
  c_nmul : nat
}.

Record t : Type := mk {
  cfg : option config;
  initialize : bool;
  warm_up : nat;
  pred_cutoff : nat;
  warm_up_states : bool;
  static_idx : Z;
  dy_params : list string;
  dy_drop : F;
  variables : list string;
  routing : bool;
  comprout : bool;
  nearzero : F;
  nmul : nat;
  parameter_bounds : list (string * (F * F));
  routing_parameter_bounds : list (string * (F * F));
  all_parameters : list string;
  learnable_param_count : nat
}.

Definition default_parameter_bounds : list (string * (F * F)) :=
  [ ("parBETA", (fconst 1, fconst 6));
    ("parFC", (fconst 50, fconst 1000));
    ("parK0", (fconst (5 # 100), fconst (9 # 10)));
    ("parK1", (fconst (1 # 100), fconst (5 # 10)));
    ("parK2", (fconst (1 # 1000), fconst (2 # 10)));
    ("parLP", (fconst (2 # 10), fconst 1));
    ("parPERC", (fconst 0, fconst 10));
    ("parUZL", (fconst 0, fconst 100));
    ("parTT", (fconst (-25 # 10), fconst (25 # 10)));
    ("parCFMAX", (fconst (5 # 10), fconst 10));
    ("parCFR", (fconst 0, fconst (1 # 10)));
    ("parCWH", (fconst 0, fconst (2 # 10)));
    ("parBETAET", (fconst (3 # 10), fconst 5));
    ("parC", (fconst 0, fconst 1)) ]%string.

Definition default_routing_parameter_bounds : list (string * (F * F)) :=
  [ ("rout_a", (fconst 0, fconst (29 # 10)));
    ("rout_b", (fconst 0, fconst (65 # 10))) ]%string.

(** [HBVCapillary.__init__(config)] followed by [set_parameters()]. *)
Definition init (c : option config) : t :=
  let routing := match c with Some c => c_routing c | None => false end in
  let nmul := match c with Some c => c_nmul c | None => 1%nat end in
  let rout_params :=
    if routing then map fst default_routing_parameter_bounds else [] in
  mk c
     false
     (match c with Some c => c_warm_up c | None => 0%nat end)
     (match c with Some c => c_warm_up c | None => 0%nat end)
     (match c with Some c => c_warm_up_states c | None => false end)
     (match c with Some c => c_stat_param_idx c | None => (0 - 1)%Z end)
     (match c with Some c => c_dy_params c | None => [] end)
     (match c with Some c => c_dy_drop c | None => fconst 0 end)
     (match c with Some c => c_forcings c
                 | None => ["prcp"; "tmean"; "pet"]%string end)
     routing
     (match c with
      | Some c => match c_comprout c with Some b => b | None => false end
      | None => false
      end)
     (match c with Some c => c_nearzero c | None => fconst (1 # 100000) end)
     nmul
     default_parameter_bounds
     default_routing_parameter_bounds
     (map fst default_parameter_bounds ++ rout_params)
     (List.length default_parameter_bounds * nmul + List.length rout_params).

(** [phy_params[k, :, i, :]] of the [T, B, P, M] tensor, [k] a Python index. *)
Definition static_slice (phy_params : list (list (list (list F)))) (k : Z) (i : nat)
  : result (list (list F)) :=
  tb <- py_index phy_params k ;;
  mapM (fun bp => match nth_error bp i with
                  | Some pm => Ok pm
                  | None => Raise IndexError
                  end) tb.

(** [phy_params[:, :, i, :]]. *)
Definition dynamic_slice (phy_params : list (list (list (list F)))) (i : nat)
  : result (list (list (list F))) :=
  mapM (mapM (fun bp => match nth_error bp i with
                        | Some pm => Ok pm
                        | None => Raise IndexError
                        end)) phy_params.

(** [dynamic_param * (1 - drmask) + static_param * drmask] for one basin:
    the mask entry of the basin is shared by its ensemble members. *)
Definition mix_basin (dyn sta mask : list F) : result (list F) :=
  match mask with
  | [m] => zipWith (fun d s => Ok (fadd (fmul d (fsub f1 m)) (fmul s m))) dyn sta
  | _ => Raise (RuntimeError "size mismatch")
  end.

(** The same for all time steps; the [n_grid x 1] mask does not depend on
    the time step. *)
Definition mix (dynamic_param : list (list (list F)))
           (static_param drmask : list (list F)) : result (list (list (list F))) :=
  mapM (fun dyn_t =>
          ds <- zipWith (fun d s => Ok (d, s)) dyn_t static_param ;;
          zipWith (fun x mask => mix_basin (fst x) (snd x) mask) ds drmask)
       dynamic_param.

(** The physical-parameter branch of the loop of [unpack_parameters]
    ([i < phy_param_count]): the value stored under [name], and the
    generator state after the draw (if any). *)
Definition unpack_phy_parameter (self : t) (pmat : option (list (list F)))
           (phy_params : list (list (list (list F)))) (rng : Rng)
           (i : nat) (name : string) : result (tensor F * Rng) :=
  param <- static_slice phy_params (static_idx self) i ;;
  if mem name (dy_params self) then
    pm <- match pmat with
          | Some pm => Ok pm
          | None => Raise (UnboundLocalError "pmat")
          end ;;
    let draw := bernoulli rng pm in
    let drmask := fst draw in
    dynamic_param <- dynamic_slice phy_params i ;;
    let static_param := param in
    mixed <- mix dynamic_param static_param drmask ;;
    bnd <- dict_get (parameter_bounds self) name ;;
    Ok (T3 (map (map (map (fun v => change_param_range v bnd))) mixed), snd draw)
  else
    bnd <- dict_get (parameter_bounds self) name ;;
    Ok (T2 (map (map (fun v => change_param_range v bnd)) param), rng).

Fixpoint unpack_loop (self : t) (pmat : option (list (list F)))
         (phy_params : list (list (list (list F))))
         (routing_params : option (list (list F))) (n_steps : nat)
         (names : list (nat * string))
         (st : list (string * tensor F) * Rng)
  : result (list (string * tensor F) * Rng) :=
  match names with
  | [] => Ok st
  | (i, name) :: rest =>
      let phy_param_count := List.length (parameter_bounds self) in
      if (i <? phy_param_count)%nat then
        v <- unpack_phy_parameter self pmat phy_params (snd st) i name ;;
        unpack_loop self pmat phy_params routing_params n_steps rest
                    (dict_set (fst st) name (fst v), snd v)
      else if routing self then
        rp <- match routing_params with
              | Some r => Ok r
              | None => Raise (UnboundLocalError "routing_params")
              end ;;
        col <- mapM (fun row => match nth_error row (i - phy_param_count) with
                                | Some v => Ok v
                                | None => Raise IndexError
                                end) rp ;;
        bnd <- dict_get (routing_parameter_bounds self) name ;;
        let r := map (fun v => [change_param_range v bnd]) col in
        unpack_loop self pmat phy_params routing_params n_steps rest
                    (dict_set (fst st) name (T3 (repeat r n_steps)), snd st)
      else Ok st
  end.

(** [HBVCapillary.unpack_parameters(parameters, n_steps, n_grid)]. *)
Definition unpack_parameters (self : t) (rng : Rng)
           (parameters : list (list (list F))) (n_steps n_grid : nat)
  : result (list (string * tensor F) * Rng) :=
  let phy_param_count := List.length (parameter_bounds self) in
  let k := (phy_param_count * nmul self)%nat in
  phy_params <- view4 phy_param_count (nmul self)
                  (map (map (fun row => map sigmoid (py_slice_to row k))) parameters) ;;
  routing_params <-
    (if routing self
     then last <- py_index parameters (-1) ;;
          Ok (Some (map (fun row => map sigmoid (py_slice_from row k)) last))
     else Ok None) ;;
  let pmat :=
    if (0 <? List.length (dy_params self))%nat
    then Some (repeat [fmul f1 (dy_drop self)] n_grid)
    else None in
  unpack_loop self pmat phy_params routing_params n_steps
              (HBV_adj.enumerate (all_parameters self)) ([], rng).

(** One time step of the loop of [forward] for one cell, block by block as
    the source lays it out. *)

(** "Separate precipitation into liquid and solid components". *)
Definition phase (par : cell_params F) (P T : F) : F * F :=
  let PRECIP := P in
  let RAIN := fmul PRECIP (of_bool (fgeb T (parTT par))) in
  let SNOW := fmul PRECIP (of_bool (fltb T (parTT par))) in
  (RAIN, SNOW).

(** "Snow": returns [SNOWPACK], [MELTWATER] and [tosoil]. *)
Definition snow (par : cell_params F) (T SNOW SNOWPACK MELTWATER : F) : F * F * F :=
  let SNOWPACK := fadd SNOWPACK SNOW in
  let melt := fmul (parCFMAX par) (fsub T (parTT par)) in
  let melt := clamp_min melt (fconst 0) in
  let melt := fmin melt SNOWPACK in
  let MELTWATER := fadd MELTWATER melt in
  let SNOWPACK := fsub SNOWPACK melt in
  let refreezing := fmul (fmul (parCFR par) (parCFMAX par)) (fsub (parTT par) T) in
  let refreezing := clamp_min refreezing (fconst 0) in
  let refreezing := fmin refreezing MELTWATER in
  let SNOWPACK := fadd SNOWPACK refreezing in
  let MELTWATER := fsub MELTWATER refreezing in
  let tosoil := fsub MELTWATER (fmul (parCWH par) SNOWPACK) in
  let tosoil := clamp_min tosoil (fconst 0) in
  let MELTWATER := fsub MELTWATER tosoil in
  (SNOWPACK, MELTWATER, tosoil).

(** "Soil and evaporation": returns [SM], [recharge], [excess], [evapfactor]
    and [ETact]. *)
Definition soil (nearzero : F) (par : cell_params F) (PET RAIN tosoil SM : F)
  : F * F * F * F * F :=
  let soil_wetness := pow (fdiv SM (parFC par)) (parBETA par) in
  let soil_wetness := clamp soil_wetness (fconst 0) (fconst 1) in
  let recharge := fmul (fadd RAIN tosoil) soil_wetness in
  let SM := fsub (fadd (fadd SM RAIN) tosoil) recharge in
  let excess := fsub SM (parFC par) in
  let excess := clamp_min excess (fconst 0) in
  let SM := fsub SM excess in
  let evapfactor := pow (fdiv SM (fmul (parLP par) (parFC par))) (parBETAET par) in
  let evapfactor := clamp evapfactor (fconst 0) (fconst 1) in
  let ETact := fmul PET evapfactor in
  let ETact := fmin SM ETact in
  let SM := clamp_min (fsub SM ETact) nearzero in
  (SM, recharge, excess, evapfactor, ETact).

(** "Capillary rise": returns [SM], [SLZ] and [capillary]. *)
Definition capillary_rise (nearzero : F) (par : cell_params F) (SM SLZ : F)
  : F * F * F :=
  let capillary :=
    fmin SLZ (fmul (fmul (parC par) SLZ)
                   (fsub (fconst 1) (clamp_max (fdiv SM (parFC par)) (fconst 1)))) in
  let SM := clamp_min (fadd SM capillary) nearzero in
  let SLZ := clamp_min (fsub SLZ capillary) nearzero in
  (SM, SLZ, capillary).

(** "Groundwater boxes": returns [SUZ], [SLZ], [PERC], [Q0], [Q1] and [Q2]. *)
Definition groundwater (par : cell_params F) (recharge excess SUZ SLZ : F)
  : F * F * F * F * F * F :=
  let SUZ := fadd (fadd SUZ recharge) excess in
  let PERC := fmin SUZ (parPERC par) in
  let SUZ := fsub SUZ PERC in
  let Q0 := fmul (parK0 par) (clamp_min (fsub SUZ (parUZL par)) (fconst 0)) in
  let SUZ := fsub SUZ Q0 in
  let Q1 := fmul (parK1 par) SUZ in
  let SUZ := fsub SUZ Q1 in
  let SLZ := fadd SLZ PERC in
  let Q2 := fmul (parK2 par) SLZ in
  let SLZ := fsub SLZ Q2 in
  (SUZ, SLZ, PERC, Q0, Q1, Q2).

Definition step (nearzero : F) (par : cell_params F) (P T PET : F)
           (s : storages F) : storages F * fluxes F :=
  let '(RAIN, SNOW) := phase par P T in
  let '(SNOWPACK, MELTWATER, tosoil) :=
    snow par T SNOW (st_SNOWPACK s) (st_MELTWATER s) in
  let '(SM, recharge, excess, evapfactor, ETact) :=
    soil nearzero par PET RAIN tosoil (st_SM s) in
  let '(SM, SLZ, capillary) := capillary_rise nearzero par SM (st_SLZ s) in
  let '(SUZ, SLZ, PERC, Q0, Q1, Q2) :=
    groundwater par recharge excess (st_SUZ s) SLZ in
  (mkStorages SNOWPACK MELTWATER SM SUZ SLZ,
   mkFluxes Q0 Q1 Q2 ETact SNOWPACK capillary recharge excess evapfactor tosoil PERC).

(** The names read from [param_dict] in the time loop, in the order of the
    fields of [cell_params]. *)
Definition cell_names : list string :=
  ["parBETA"; "parFC"; "parK0"; "parK1"; "parK2"; "parLP"; "parPERC"; "parUZL";
   "parTT"; "parCFMAX"; "parCFR"; "parCWH"; "parBETAET"; "parC"]%string.

(** Entry [(g, m)] of a [n_grid x nmul] parameter tensor. *)
Definition entry (v : tensor F) (g m : nat) : result F :=
  match v with
  | T2 rows =>
      match nth_error rows g with
      | Some row => match nth_error row m with
                    | Some a => Ok a
                    | None => Raise (RuntimeError "size mismatch")
                    end
      | None => Raise (RuntimeError "size mismatch")
      end
  | _ => Raise (RuntimeError "size mismatch")
  end.

(** The parameters of cell [(g, m)] read from [param_dict]. *)
Definition cell_params_at (param_dict : list (string * tensor F)) (g m : nat)
  : result (cell_params F) :=
  vals <- mapM (fun name => v <- dict_get param_dict name ;; entry v g m) cell_names ;;
  match vals with
  | [a; b; c; d; e; f; g'; h; i; j; k; l; m'; n] =>
      Ok (mkCell a b c d e f g' h i j k l m' n)
  | _ => Raise (RuntimeError "size mismatch")
  end.

(** [for key in self.dy_params: param_dict[key] = full_param_dict[key][warm_up + t, :, :]]. *)
Fixpoint select_dynamic (full_param_dict param_dict : list (string * tensor F))
         (k : nat) (keys : list string) : result (list (string * tensor F)) :=
  match keys with
  | [] => Ok param_dict
  | key :: rest =>
      v <- dict_get full_param_dict key ;;
      match v with
      | T3 a =>
          match nth_error a k with
          | Some m => select_dynamic full_param_dict (dict_set param_dict key (T2 m)) k rest
          | None => Raise IndexError
          end
      | _ => Raise IndexError
      end
  end.

(** [x[self.warm_up:, :, k]]: the series of one forcing variable. *)
Definition forcing (xs : list (list (list F))) (k : nat) : result (list (list F)) :=
  mapM (mapM (fun row => match nth_error row k with
                         | Some v => Ok v
                         | None => Raise IndexError
                         end)) xs.

(** [P.unsqueeze(2).repeat(1, 1, self.nmul)]. *)
Definition expand (self : t) (P : list (list F)) : list (list (list F)) :=
  map (map (fun v => repeat v (nmul self))) P.

(** The body of the time loop below the selection of the dynamic
    parameters, over the whole grid: [P_t], [T_t] and [PET_t] are [Pm[t]],
    [Tm[t]] and [PETm[t]].  The operands of the elementwise operations must
    agree in shape (broadcasting of dimensions of size one is not
    modelled). *)
Definition step_grid (self : t) (param_dict : list (string * tensor F))
           (P_t T_t PET_t : list (list F)) (state : list (list (storages F)))
  : result (list (list (storages F * fluxes F))) :=
  PT <- zipWith (zipWith (fun p tp => Ok (p, tp))) P_t T_t ;;
  PTE <- zipWith (zipWith (fun pt e => Ok (pt, e))) PT PET_t ;;
  cells <- zipWith (zipWith (fun f s => Ok (f, s))) PTE state ;;
  mapM (fun gr =>
          mapM (fun mc =>
                  let '(P, T, PET, s) := snd mc in
                  par <- cell_params_at param_dict (fst gr) (fst mc) ;;
                  Ok (step (nearzero self) par P T PET s))
               (HBV_adj.enumerate (snd gr)))
       (HBV_adj.enumerate cells).

(** The time loop [for t in range(n_steps)]: the final storages, the series
    written per step, and [param_dict] as the last step left it. *)
Fixpoint time_loop (self : t) (Pm Tm PETm : list (list (list F)))
         (full_param_dict param_dict : list (string * tensor F))
         (ts : list nat)
         (state : list (list (storages F)))
         (series : list (list (list (fluxes F))))
  : result (list (list (storages F)) * list (list (list (fluxes F)))
            * list (string * tensor F)) :=
  match ts with
  | [] => Ok (state, rev series, param_dict)
  | tstep :: rest =>
      pd <- select_dynamic full_param_dict param_dict (warm_up self + tstep)
                           (dy_params self) ;;
      P_t <- py_index Pm (Z.of_nat tstep) ;;
      T_t <- py_index Tm (Z.of_nat tstep) ;;
      PET_t <- py_index PETm (Z.of_nat tstep) ;;
      out <- step_grid self pd P_t T_t PET_t state ;;
      time_loop self Pm Tm PETm full_param_dict pd rest
                (map (map fst) out) (map (map snd) out :: series)
  end.

(** A series [T, G, M] of one flux. *)
Definition series_of (proj : fluxes F -> F) (series : list (list (list (fluxes F))))
  : list (list (list F)) :=
  map (map (map proj)) series.

(** [s.mean(-1, keepdim=True)]. *)
Definition mean_keep (s : list (list (list F))) : list (list (list F)) :=
  map (map (fun ms => [mean ms])) s.

(** [(s * muwts).sum(-1)] with [keepdim] or not decided by the caller. *)
Definition weighted_sum (s muwts : list (list (list F))) : result (list (list F)) :=
  zipWith (zipWith (fun ms ws =>
                      prod <- zip1 fmul ms ws ;;
                      Ok (fold_left fadd prod f0))) s muwts.

(** [torch.sum(t, dim=0)]; applied to [None] it raises TypeError. *)
Definition torch_sum_dim0 (v : option (list (list (list F))))
  : result (list (list F)) :=
  match v with
  | None => Raise (TypeError "sum(): argument 'input' must be Tensor, not NoneType")
  | Some [] => Ok []
  | Some (m :: ms) =>
      List.fold_left (fun acc n => a <- acc ;; zip2 fadd a n) ms (Ok m)
  end.

(** What [forward] returns: the storages in warm-up mode, the dictionary of
    series otherwise. *)
Inductive output : Type :=
| States (Qs : list (list (list F))) (state : list (list (storages F)))
| Dict (d : list (string * option (tensor F))).

(** [t[k:, :, :]]: only a tensor of rank 3 can take three indices. *)
Definition cut3 (k : nat) (v : option (tensor F)) : result (option (tensor F)) :=
  match v with
  | Some (T3 a) => Ok (Some (T3 (py_slice_from a k)))
  | Some _ => Raise IndexError
  | None => Raise (TypeError "'NoneType' object is not subscriptable")
  end.

(** [forward] from the initial storages on (everything after the
    "Initialization" block). *)
Definition forward_from (self : t) (rng : Rng)
           (x : list (list (list F))) (muwts : option (list (list (list F))))
           (parameters : list (list (list F)))
           (state0 : list (list (storages F))) : result output :=
  let xs := py_slice_from x (warm_up self) in
  iP <- list_index "prcp" (variables self) ;;
  P <- forcing xs iP ;;
  iT <- list_index "tmean" (variables self) ;;
  T <- forcing xs iT ;;
  iPET <- list_index "pet" (variables self) ;;
  PET <- forcing xs iPET ;;
  let Pm := expand self P in
  let Tm := expand self T in
  let PETm := expand self PET in
  let n_steps := List.length P in
  let n_grid := List.length (hd [] P) in
  unpacked <- unpack_parameters self rng parameters n_steps n_grid ;;
  let full_param_dict := fst unpacked in
  let param_dict := full_param_dict in
  run <- time_loop self Pm Tm PETm full_param_dict param_dict (seq 0 n_steps)
                   state0 [] ;;
  let state := fst (fst run) in
  let series := snd (fst run) in
  let param_dict := snd run in
  let Qsimmu := series_of (fun f => fadd (fadd (fl_Q0 f) (fl_Q1 f)) (fl_Q2 f)) series in
  let Q0_sim := series_of (@fl_Q0 F) series in
  let Q1_sim := series_of (@fl_Q1 F) series in
  let Q2_sim := series_of (@fl_Q2 F) series in
  Qsimavg <- match muwts with
             | None => Ok (map (map mean) Qsimmu)
             | Some w => weighted_sum Qsimmu w
             end ;;
  routed <-
    (if routing self then
       let Qsim :=
         if comprout self then map (@List.concat F) Qsimmu else Qsimavg in
       ra <- dict_get param_dict "rout_a" ;;
       rb <- dict_get param_dict "rout_b" ;;
       UH <- UH_gamma ra rb 15 ;;
       let rf := permute120 (map (map (fun v => [v])) Qsim) in
       let UH := permute120 UH in
       conv <- UH_conv rf UH ;;
       let Qsrout := permute201 conv in
       c0 <- UH_conv (permute120 (mean_keep Q0_sim)) UH ;;
       let Q0_rout := permute201 c0 in
       c1 <- UH_conv (permute120 (mean_keep Q1_sim)) UH ;;
       let Q1_rout := permute201 c1 in
       c2 <- UH_conv (permute120 (mean_keep Q2_sim)) UH ;;
       let Q2_rout := permute201 c2 in
       Qs <- (if comprout self then
                let Qstemp := map (fun row => chunks (nmul self) n_grid (List.concat row)) Qsrout in
                match muwts with
                | None => Ok (mean_keep Qstemp)
                | Some w => s <- weighted_sum Qstemp w ;; Ok (map (map (fun v => [v])) s)
                end
              else Ok Qsrout) ;;
       Ok (Qs, Some Q0_rout, Some Q1_rout, Some Q2_rout, Some Qsim)
     else
       Ok (map (map (fun v => [v])) Qsimavg, None, None, None, None)) ;;
  let Qs := fst (fst (fst (fst routed))) in
  let Q0_rout := snd (fst (fst (fst routed))) in
  let Q1_rout := snd (fst (fst routed)) in
  let Q2_rout := snd (fst routed) in
  let Qsim := snd routed in
  if initialize self then Ok (States Qs state)
  else
    (* Baseflow index (BFI) calculation *)
    sQ2 <- torch_sum_dim0 Q2_rout ;;
    sQs <- torch_sum_dim0 (Some Qs) ;;
    ratio <- zip2 fdiv sQ2 (map (map (fun v => fadd v (nearzero self))) sQs) ;;
    col <- mapM (fun row => match row with
                            | a :: _ => Ok a
                            | [] => Raise IndexError
                            end) ratio ;;
    let BFI_sim := map (fmul (fconst 100)) col in
    Qsim_nr <- match Qsim with
               | Some q => Ok (T3 (map (map (fun v => [v])) q))
               | None => Raise (UnboundLocalError "Qsim")
               end ;;
    let out_dict : list (string * option (tensor F)) :=
      [ ("flow_sim", Some (T3 Qs));
        ("srflow", option_map (@T3 F) Q0_rout);
        ("ssflow", option_map (@T3 F) Q1_rout);
        ("gwflow", option_map (@T3 F) Q2_rout);
        ("AET_hydro", Some (T3 (mean_keep (series_of (@fl_AET F) series))));
        ("PET_hydro", Some (T3 (mean_keep PETm)));
        ("SWE", Some (T3 (mean_keep (series_of (@fl_SWE F) series))));
        ("flow_sim_no_rout", Some Qsim_nr);
        ("srflow_no_rout", Some (T3 (mean_keep Q0_sim)));
        ("ssflow_no_rout", Some (T3 (mean_keep Q1_sim)));
        ("gwflow_no_rout", Some (T3 (mean_keep Q2_sim)));
        ("recharge", Some (T3 (mean_keep (series_of (@fl_recharge F) series))));
        ("excs", Some (T3 (mean_keep (series_of (@fl_excs F) series))));
        ("evapfactor", Some (T3 (mean_keep (series_of (@fl_evapfactor F) series))));
        ("tosoil", Some (T3 (mean_keep (series_of (@fl_tosoil F) series))));
        ("percolation", Some (T3 (mean_keep (series_of (@fl_PERC F) series))));
        ("capillary", Some (T3 (mean_keep (series_of (@fl_capillary F) series))));
        ("BFI_sim", Some (T1 [mean BFI_sim])) ]%string in
    if negb (warm_up_states self) then
      d <- mapM (fun kv => v <- cut3 (pred_cutoff self) (snd kv) ;; Ok (fst kv, v)) out_dict ;;
      Ok (Dict d)
    else Ok (Dict out_dict).

(** The storages a run without warm-up starts from:
    [torch.zeros([n_grid, nmul]) + 0.001]. *)
Definition initial_state (self : t) (n_grid : nat) : list (list (storages F)) :=
  let v := fadd (fconst 0) (fconst (1 # 1000)) in
  repeat (repeat (mkStorages v v v v v) (nmul self)) n_grid.

(** [self.warm_up = 0]. *)
Definition reset_warm_up (self : t) : t :=
  mk (cfg self) (initialize self) 0 (pred_cutoff self) (warm_up_states self)
     (static_idx self) (dy_params self) (dy_drop self) (variables self)
     (routing self) (comprout self) (nearzero self) (nmul self)
     (parameter_bounds self) (routing_parameter_bounds self)
     (all_parameters self) (learnable_param_count self).

(** [init_model = HBVCapillary(self.config)] with the "defaults for warm-up"
    assigned to it. *)
Definition init_model (self : t) : t :=
  let m := init (cfg self) in
  mk (cfg m) true 0 (pred_cutoff m) (warm_up_states m)
     (Z.of_nat (warm_up self) - 1)%Z [] (dy_drop m) (variables m)
     false false (nearzero m) (nmul m)
     (parameter_bounds m) (routing_parameter_bounds m)
     (all_parameters m) (learnable_param_count m).

(** [HBVCapillary.forward(x_dict, parameters)] with [x = x_dict['x_phy']] and
    [muwts = x_dict.get('muwts')]. *)
Definition forward (self : t) (rng : Rng)
           (x : list (list (list F))) (muwts : option (list (list (list F))))
           (parameters : list (list (list F))) : result output :=
  let self := if warm_up_states self then self else reset_warm_up self in
  if (0 <? warm_up self)%nat then
    let x_init := py_slice_to x (warm_up self) in
    let im := init_model self in
    warm <- forward_from im rng x_init None parameters
                         (initial_state im (List.length (hd [] x_init))) ;;
    match warm with
    | States _ state => forward_from self rng x muwts parameters state
    | Dict _ => Raise (ValueError "too many values to unpack")
    end
  else
    let n_grid := List.length (hd [] x) in
    forward_from self rng x muwts parameters (initial_state self n_grid).

End HBVCapillary.

End HBVCapillary.

(* ================================================================== *)
(** ** Interpretations of the scalars

    The statements that hold for any arithmetic are made over an arbitrary
    [Scalar].  The interpretations below are exact rationals: they have no
    rounding, no infinities and (but for [Scalar_nan]) no NaN, and the
    quotient by zero, which is an infinity or NaN in the floating-point
    arithmetic of the code, is 0 in them.  They stand for the arithmetic of
    the code on the runs that divide by no zero; the runs evaluated further
    down are of this kind. *)

(** Exact rational arithmetic. *)
#[global]
Instance Scalar_Q : Scalar Q := {
  f0 := 0%Q;
  f1 := 1%Q;
  fadd := Qplus;
  fsub := Qminus;
  fmul := Qmult;
  fdiv := Qdiv;
  fneg := Qopp;
  fabs := Qabs;
  fmax := Qmax;
  fmin := Qmin;
  fgtb := fun a b => negb (Qle_bool a b);
  fltb := fun a b => negb (Qle_bool b a);
  fgeb := fun a b => Qle_bool b a;
  fisnan := fun _ => false;
  fisinf := fun _ => false;
  fconst := fun q => q
}.

(** Exact rational arithmetic on canonical fractions (equal values are equal
    terms). *)
#[global]
Instance Scalar_Qc : Scalar Qc := {
  f0 := Q2Qc 0;
  f1 := Q2Qc 1;
  fadd := Qcplus;
  fsub := Qcminus;
  fmul := Qcmult;
  fdiv := Qcdiv;
  fneg := Qcopp;
  fabs := fun a => Q2Qc (Qabs a);
  fmax := fun a b => if Qle_bool a b then b else a;
  fmin := fun a b => if Qle_bool a b then a else b;
  fgtb := fun a b => negb (Qle_bool a b);
  fltb := fun a b => negb (Qle_bool b a);
  fgeb := fun a b => Qle_bool b a;
  fisnan := fun _ => false;
  fisinf := fun _ => false;
  fconst := Q2Qc
}.

Definition lift1 {F : Type} (f : F -> F) (a : option F) : option F :=
  match a with Some x => Some (f x) | None => None end.

Definition lift2 {F : Type} (f : F -> F -> F) (a b : option F) : option F :=
  match a, b with Some x, Some y => Some (f x y) | _, _ => None end.

Definition liftb {F : Type} (f : F -> F -> bool) (a b : option F) : bool :=
  match a, b with Some x, Some y => f x y | _, _ => false end.

(** Scalars with a not-a-number value [None]: it propagates through the
    arithmetic, and every comparison with it is false.  A quotient is NaN
    only when an operand is. *)
#[global]
Instance Scalar_nan (F : Type) `{Scalar F} : Scalar (option F) := {
  f0 := Some f0;
  f1 := Some f1;
  fadd := lift2 fadd;
  fsub := lift2 fsub;
  fmul := lift2 fmul;
  fdiv := lift2 fdiv;
  fneg := lift1 fneg;
  fabs := lift1 fabs;
  fmax := lift2 fmax;
  fmin := lift2 fmin;
  fgtb := liftb fgtb;
  fltb := liftb fltb;
  fgeb := liftb fgeb;
  fisnan := fun a => match a with None => true | Some _ => false end;
  fisinf := fun a => match a with None => false | Some x => fisinf x end;
  fconst := fun q => Some (fconst q)
}.

(* ================================================================== *)
(** ** A manufactured problem: linear decay [dx/dt = - p x]

    One state per batch element, residual
    [G(x) = (x - xt)/dt + p x] under backward Euler, with its Jacobians
    written out: [dG/dx = 1/dt + p], [dG/dp = x], [dG/dxt = - 1/dt]. *)

Module LinearDecay.

Definition rhs (x p : tensor Qc) (tstep : nat) (aux : option unit)
  : result (tensor Qc * tensor Qc) :=
  r <- tzip (fun xv pv => fneg (fmul pv xv)) x p ;;
  Ok (r, r).

(** A solver for batches of 1 x 1 systems. *)
Definition solve1 (a : list (list Qc)) (b : list Qc) : result (list Qc) :=
  match a, b with
  | [[c]], [g] => if Qeq_bool c 0 then Raise LinAlgError else Ok [Qcdiv g c]
  | _, _ => Raise (RuntimeError "unsupported size")
  end.

Definition matrixSolve (a b : tensor Qc) : result (tensor Qc) :=
  match a, b with
  | T3 a', T2 b' => r <- zipWith solve1 a' b' ;; Ok (T2 r)
  | _, _ => Raise (RuntimeError "unsupported size")
  end.

(** The entry of the Jacobian of one batch element. *)
Definition jac_entry (dt : Qc) (w : wrt) (x p : list Qc) : result Qc :=
  match x, p with
  | [xv], [pv] =>
      Ok match w with
         | WrtX => Qcplus (Qcdiv (Q2Qc 1) dt) pv
         | WrtP => xv
         | WrtP2 => Qcopp (Qcdiv (Q2Qc 1) dt)
         end
  | _, _ => Raise (RuntimeError "unsupported size")
  end.

Definition batchJacobian (G : NewtonSolve.GFun Qc (MOL.AuxG Qc unit))
           (pt : point Qc (MOL.AuxG Qc unit)) (w : wrt) : result (tensor Qc) :=
  match pt_x pt, pt_p pt with
  | T2 x, T2 p =>
      r <- zipWith (fun xr pr => e <- jac_entry (fst (pt_aux pt)) w xr pr ;; Ok [[e]]) x p ;;
      Ok (T3 r)
  | _, _ => Raise (RuntimeError "unsupported size")
  end.

Definition autograd_grad (G : NewtonSolve.GFun Qc (MOL.AuxG Qc unit))
           (pt : point Qc (MOL.AuxG Qc unit)) (i : nat) (w : wrt) (v : list Qc)
  : result (list (list Qc)) :=
  match pt_x pt, pt_p pt with
  | T2 x, T2 p =>
      zipWith (fun xr pr => e <- jac_entry (fst (pt_aux pt)) w xr pr ;; Ok [e]) x p
  | _, _ => Raise (RuntimeError "unsupported size")
  end.

Definition solveAdj : MOL.solver Qc unit :=
  NewtonSolve.forward matrixSolve batchJacobian autograd_grad.

(** [MOL(rhs, ny=1, nflux=1, rho, bsDefault=1, mtd, dtDefault=1)]. *)
Definition mol (mtd : Z) (rho : nat) : MOL.t Qc unit :=
  MOL.mk mtd rhs (Q2Qc 1) 1 1 1 rho solveAdj false true.

(** The same with [bsDefault = 2]. *)
Definition wide (rho : nat) : MOL.t Qc unit :=
  MOL.mk 0 rhs (Q2Qc 1) 2 1 1 rho solveAdj false true.

Definition q (z : Z) : Qc := Q2Qc (inject_Z z).

(** The solver's loop on the step from [xt = 1] with [p = 1], [dt = 1], in a
    state whose residual norm has not gone down since the pass before:
    [x = 1], [G(x) = 1], [dG/dx = 2], [resnorm = resnorm0 = 1]. *)
Definition p : tensor Qc := T2 [[q 1]].
Definition p2 : option (tensor Qc) := Some (T2 [[q 1]]).
Definition auxG : MOL.AuxG Qc unit := (q 1, None).
Definition G : NewtonSolve.GFun Qc (MOL.AuxG Qc unit) := MOL.as_G (mol 0 1).


Definition loop_body : loop_state Qc -> result (loop_state Qc) :=
  NewtonSolve.loop_body matrixSolve batchJacobian autograd_grad p p2 0 G auxG true.

Definition newton_loop : nat -> loop_state Qc -> option (result (loop_state Qc)) :=
  NewtonSolve.newton_loop matrixSolve batchJacobian autograd_grad p p2 0 G auxG true.

(** Two batch elements, [p = 1] and [p = 2], on the step from [xt = 1], at
    [x = 1] with [G(x) = (1, 2)]; the Jacobian there is [(2, 3)], and both
    states carry another one, [(4, 4)].  In [one_slow] the residual norm of
    the second element has not gone down; in [all_fast] both have gone down
    to a tenth. *)
Definition p_two : tensor Qc := T2 [[q 1]; [q 2]].
Definition p2_two : option (tensor Qc) := Some (T2 [[q 1]; [q 1]]).

Definition one_slow : loop_state Qc :=
  mkLoop (T2 [[q 1]; [q 1]]) (T2 [[q 1]; [q 2]]) (T3 [[[q 4]]; [[q 4]]])
         (T1 [Q2Qc (1 # 10); q 1]) (T1 [q 1; q 1]) 1.

Definition all_fast : loop_state Qc :=
  mkLoop (T2 [[q 1]; [q 1]]) (T2 [[q 1]; [q 2]]) (T3 [[[q 4]]; [[q 4]]])
         (T1 [Q2Qc (1 # 10); Q2Qc (1 # 10)]) (T1 [q 1; q 1]) 1.

Definition loop_body_two : loop_state Qc -> result (loop_state Qc) :=
  NewtonSolve.loop_body matrixSolve batchJacobian autograd_grad p_two p2_two 0 G
                        auxG true.

End LinearDecay.

(** A residual whose parameter Jacobian is not a number, as the solver can
    receive it with [p2 = None]: [G(x, p) = x] with a finite state Jacobian. *)
Module NanJacobian.

Definition F : Type := option Qc.

Definition G : NewtonSolve.GFun F unit :=
  fun x p p2 tstep aux => Ok x.

Definition matrixSolve (a b : tensor F) : result (tensor F) := Ok b.

Definition batchJacobian (g : NewtonSolve.GFun F unit) (pt : point F unit) (w : wrt)
  : result (tensor F) :=
  match w with
  | WrtX => Ok (T3 [[[Some (Q2Qc 1)]]])
  | _ => Ok (T3 [[[None]]])
  end.

Definition autograd_grad (g : NewtonSolve.GFun F unit) (pt : point F unit)
           (i : nat) (w : wrt) (v : list F) : result (list (list F)) :=
  match w with
  | WrtX => Ok [[Some (Q2Qc 1)]]
  | _ => Ok [[None]]
  end.

End NanJacobian.

(* ================================================================== *)
(** ** Vocabulary of the statements *)

(** Entry [(b, j)] of a matrix and entry [(t, b, j)] of a rank-3 tensor. *)
Definition entry2 {A : Type} (m : list (list A)) (b j : nat) : option A :=
  match nth_error m b with
  | Some row => nth_error row j
  | None => None
  end.

Definition entry3 {A : Type} (a : list (list (list A))) (t b j : nat) : option A :=
  match nth_error a t with
  | Some m => entry2 m b j
  | None => None
  end.

(** Two matrices with as many rows, and row by row as many entries. *)
Definition same_shape2 {A B : Type} (m : list (list A)) (n : list (list B)) : Prop :=
  Forall2 (fun r s => List.length r = List.length s) m n.

(** The batched matrix-vector product [A_b u_b]. *)
Definition bmatvec {F : Type} `{Scalar F}
           (a : list (list (list F))) (u : list (list F)) : list (list F) :=
  map (fun au => matvec (fst au) (snd au)) (combine a u).

(** [- lamb_b^T P_b] for every batch element [b]. *)
Definition adjoint_grad {F : Type} `{Scalar F}
           (lamb : list (list F)) (P : list (list (list F))) : list (list F) :=
  map (fun lp => map fneg (vecmat (fst lp) (snd lp))) (combine lamb P).

(** [lamb] and the Jacobian [P] fit: per batch element, [lamb_b] is not empty
    and has one entry per row of [P_b]. *)
Definition fits {F : Type} (lamb : list (list F)) (P : list (list (list F))) : Prop :=
  Forall2 (fun l Pb => l <> [] /\ List.length l = List.length Pb) lamb P.

(** The contract of [torch.linalg.solve] on a batch of systems: what it
    returns solves them. *)
Definition solver_sound {F : Type} `{Scalar F}
           (matrixSolve : tensor F -> tensor F -> result (tensor F)) : Prop :=
  forall a b x, matrixSolve (T3 a) (T2 b) = Ok (T2 x) -> bmatvec a x = b.

(** The residual entries in the words of the specification:
    [(x - x_prev)/dt - rhs(x)] for backward Euler and
    [(x - x_prev)/dt - (rhs(x) + rhs(x_prev)) * 0.5] for the trapezoidal
    variant. *)
Definition backward_euler_entry {F : Type} `{Scalar F} (dt x xt r : F) : F :=
  fsub (fdiv (fsub x xt) dt) r.

Definition trapezoidal_entry {F : Type} `{Scalar F} (dt x xt r rt : F) : F :=
  fsub (fdiv (fsub x xt) dt) (fmul (fadd r rt) (fconst (5 # 10))).

(** A parameter value within the interval the bound table declares for its
    name. *)
Definition within_bounds (name : string) (v : Q) : Prop :=
  match dict_get (HBVCapillary.default_parameter_bounds (F := Q)) name with
  | Ok b => (fst b <= v /\ v <= snd b)%Q
  | Raise _ => False
  end.

(** All parameters of a cell within the declared bounds. *)
Definition in_bounds (par : HBVCapillary.cell_params Q) : Prop :=
  within_bounds "parBETA" (HBVCapillary.parBETA par) /\
  within_bounds "parFC" (HBVCapillary.parFC par) /\
  within_bounds "parK0" (HBVCapillary.parK0 par) /\
  within_bounds "parK1" (HBVCapillary.parK1 par) /\
  within_bounds "parK2" (HBVCapillary.parK2 par) /\
  within_bounds "parLP" (HBVCapillary.parLP par) /\
  within_bounds "parPERC" (HBVCapillary.parPERC par) /\
  within_bounds "parUZL" (HBVCapillary.parUZL par) /\
  within_bounds "parTT" (HBVCapillary.parTT par) /\
  within_bounds "parCFMAX" (HBVCapillary.parCFMAX par) /\
  within_bounds "parCFR" (HBVCapillary.parCFR par) /\
  within_bounds "parCWH" (HBVCapillary.parCWH par) /\
  within_bounds "parBETAET" (HBVCapillary.parBETAET par) /\
  within_bounds "parC" (HBVCapillary.parC par).

(** Every storage of a cell at or above [c]. *)
Definition storages_ge (c : Q) (s : HBVCapillary.storages Q) : Prop :=
  (c <= HBVCapillary.st_SNOWPACK s /\ c <= HBVCapillary.st_MELTWATER s /\
   c <= HBVCapillary.st_SM s /\ c <= HBVCapillary.st_SUZ s /\
   c <= HBVCapillary.st_SLZ s)%Q.

(** A melt day on the storages a cold start begins with: parameters inside
    their bounds, no precipitation, five degrees, storages at [0.001], floor
    [1e-5].  The exponents are 1, for which [fun a _ => a] is the power
    function. *)
Module MeltDay.

Local Open Scope Q_scope.

Definition par : HBVCapillary.cell_params Q :=
  HBVCapillary.mkCell 1 100 (1 # 10) (1 # 10) (1 # 10) (5 # 10) 1 10 0 5
                      (5 # 100) (1 # 10) 1 (5 # 10).

Definition pow (a b : Q) : Q := a.

Definition nearzero : Q := 1 # 100000.

Definition s0 : HBVCapillary.storages Q :=
  let v := (1 # 1000)%Q in HBVCapillary.mkStorages v v v v v.

Definition P : Q := 0.
Definition T : Q := 5.
Definition PET : Q := 0.

Definition after : HBVCapillary.storages Q :=
  fst (HBVCapillary.step pow nearzero par P T PET s0).

End MeltDay.

(** A run of [HBV_adj.make_phy_parameters] with drop probability 1, for which
    every draw of the mask is 1: two time steps, one batch element, the one
    parameter dynamic, and the configured static index pointing at step 0. *)
Module StaticDrop.

Local Open Scope Q_scope.

Definition bernoulli (rng : unit) (pmat : list (list Q)) : list (list Q) * unit :=
  (map (map (fun _ => 1)) pmat, rng).

Definition self : HBV_adj.t :=
  HBV_adj.init
    (Some (HBV_adj.mkConfig 0 0 1 ["parBETA"%string]
                            ["prcp"; "tmean"; "pet"]%string
                            true None (1 # 100000) 1 true)).

Definition phy_params : list (list (list Q)) := [[[1 # 4]]; [[3 # 4]]].

Definition run : result (list (list (list Q)) * unit) :=
  HBV_adj.make_phy_parameters bernoulli self tt phy_params
                              ["parBETA"%string] ["parBETA"%string].

(** A generator that counts its draws and always draws the mask 0, and two
    time steps of two parameters, the first of them dynamic. *)
Definition counting (rng : nat) (pmat : list (list Q)) : list (list Q) * nat :=
  (map (map (fun _ => 0)) pmat, S rng).

Definition phy_params2 : list (list (list Q)) :=
  [[[1 # 4; 1 # 8]]; [[3 # 4; 5 # 8]]].

Definition names2 : list string := ["parBETA"; "parFC"]%string.

(** The sibling model on the same values: [HBVCapillary] with drop
    probability 1, [parBETA] dynamic and the static index 0, and a network
    output of two time steps whose first column, that of [parBETA], is 1/4
    and then 3/4. *)
Definition capillary : HBVCapillary.t :=
  HBVCapillary.init
    (Some (HBVCapillary.mkConfig 0 true 0 1 ["parBETA"%string]
                                 ["prcp"; "tmean"; "pet"]%string
                                 false None (1 # 100000) 1)).

Definition raw : list (list (list Q)) :=
  [[(1 # 4) :: repeat (1 # 2) 13]; [(3 # 4) :: repeat (1 # 2) 13]].

End StaticDrop.

(** Stand-ins for the torch primitives and the routing functions, used where
    a statement is applied to a concrete input. *)
Module Stub.

Definition sigmoid (x : Qc) : Qc := x.
Definition pow (a b : Qc) : Qc := a.
Definition bernoulli (rng : unit) (pmat : list (list Qc)) : list (list Qc) * unit :=
  (pmat, rng).
Definition UH_gamma3 (a b : list (list (list Qc))) (lenF : nat)
  : result (list (list (list Qc))) := Ok a.
Definition UH_gamma (a b : tensor Qc) (lenF : nat)
  : result (list (list (list Qc))) := Ok [].
Definition UH_conv (rf UH : list (list (list Qc)))
  : result (list (list (list Qc))) := Ok rf.

End Stub.

(** The water held by a cell, and the water that leaves it in a step. *)
Definition storage_total (s : HBVCapillary.storages Q) : Q :=
  (HBVCapillary.st_SNOWPACK s + HBVCapillary.st_MELTWATER s + HBVCapillary.st_SM s
   + HBVCapillary.st_SUZ s + HBVCapillary.st_SLZ s)%Q.

Definition outflow (f : HBVCapillary.fluxes Q) : Q :=
  (HBVCapillary.fl_Q0 f + HBVCapillary.fl_Q1 f + HBVCapillary.fl_Q2 f
   + HBVCapillary.fl_AET f)%Q.

(** Configurations and inputs on which the statements about the two models
    are applied: one basin, one ensemble member, one time step. *)
Module Sample.

(** [HBVCapillary] with routing and warmed-up states, no dynamic parameter. *)
Definition capillary_config : HBVCapillary.config :=
  HBVCapillary.mkConfig 0 true 0 (Q2Qc 0) [] ["prcp"; "tmean"; "pet"]%string
                        true None (Q2Qc (1 # 100000)) 1.

Definition capillary : HBVCapillary.t := HBVCapillary.init (Some capillary_config).

(** The same with a forcing list that lacks the precipitation. *)
Definition no_rain_config : HBVCapillary.config :=
  HBVCapillary.mkConfig 0 true 0 (Q2Qc 0) [] ["tmean"; "pet"]%string
                        true None (Q2Qc (1 # 100000)) 1.

(** Sixteen raw network outputs: fourteen physical parameters, two routing
    parameters. *)
Definition raw16 : list (list (list Qc)) := [[repeat (Q2Qc (1 # 2)) 16]].

(** [HBVCapillary] with routing and without warmed-up states. *)
Definition cold_config : HBVCapillary.config :=
  HBVCapillary.mkConfig 0 false 0 (Q2Qc 0) [] ["prcp"; "tmean"; "pet"]%string
                        true None (Q2Qc (1 # 100000)) 1.

Definition cold : HBVCapillary.t := HBVCapillary.init (Some cold_config).

(** One day of forcings: [P = 0], [T = 5], [PET = 0]. *)
Definition day : list (list (list Qc)) :=
  [[[LinearDecay.q 0; LinearDecay.q 5; LinearDecay.q 0]]].

(** [HBV_function] with the thirteen bounds of an [HBV_adj] whose
    [parBETAET] is dynamic, on one day of forcings [P = 2], [T = 1],
    [Ep = 1]. *)
Definition ode : HBV_function.t :=
  HBV_function.mk [[[2; 1; 1]%Q]]
    (dict_set HBV_adj.default_parameter_bounds "parBETAET"
              (fconst (3 # 10), fconst 5)).

Definition ode_y : list (list Q) := [[1; 1; 1; 1; 1]%Q].
Definition ode_theta : list (list Q) := [repeat (1 # 2)%Q 13].

(** Fourteen raw outputs for the [HBV_adj] of [StaticDrop]: twelve physical
    parameters, two routing parameters. *)
Definition sigmoid (x : Q) : Q := x.
Definition raw14 : list (list (list Q)) := [[repeat (1 # 2)%Q 14]].

(** [HBV_adj] with routing, [parBETA] dynamic and [parBETAET] not, on one day
    of forcings [P = 2], [T = 1], [Ep = 1] and fourteen raw outputs. *)
Definition adj_config : HBV_adj.config :=
  HBV_adj.mkConfig 0 0 (Q2Qc 0) ["parBETA"%string]
                   ["prcp"; "tmean"; "pet"]%string
                   true None (Q2Qc (1 # 100000)) 1 true.

Definition adj_x : list (list (list Qc)) :=
  [[[LinearDecay.q 2; LinearDecay.q 1; LinearDecay.q 1]]].

Definition adj_raw14 : list (list (list Qc)) := [[repeat (Q2Qc (1 # 2)) 14]].

End Sample.

(* ================================================================== *)
(** * Properties *)

(** ** The result monad and checked zips *)

Lemma bind_ok {A B : Type} (r : result A) (k : A -> result B) (b : B) :
  bind r k = Ok b -> exists a, r = Ok a /\ k a = Ok b.
Proof.
  destruct r as [a|e]; simpl; intros Hb.
  - exists a; split; [reflexivity | exact Hb].
  - discriminate Hb.
Qed.

Lemma bind_raise {A B : Type} (r : result A) (k : A -> result B) :
  raises r -> raises (bind r k).
Proof.
  intros [e ->]. exists e. reflexivity.
Qed.

Lemma bind_raises_later {A B : Type} (r : result A) (k : A -> result B) :
  (forall a, raises (k a)) -> raises (bind r k).
Proof.
  intros Hk. destruct r as [a|e]; simpl.
  - apply Hk.
  - exists e. reflexivity.
Qed.

Lemma zipWith_length {A B C : Type} (f : A -> B -> result C) :
  forall l1 l2 l, zipWith f l1 l2 = Ok l ->
    List.length l = List.length l1 /\ List.length l = List.length l2.
Proof.
  induction l1 as [|a l1 IH]; intros [|b l2] l Hz; simpl in Hz; try discriminate.
  - injection Hz as <-. split; reflexivity.
  - apply bind_ok in Hz as [c [_ Hz]].
    apply bind_ok in Hz as [cs [Hcs Hz]].
    injection Hz as <-. destruct (IH _ _ Hcs) as [H1 H2].
    simpl. split; congruence.
Qed.

Lemma zipWith_nth {A B C : Type} (f : A -> B -> result C) :
  forall l1 l2 l i a b,
    zipWith f l1 l2 = Ok l ->
    nth_error l1 i = Some a -> nth_error l2 i = Some b ->
    exists c, f a b = Ok c /\ nth_error l i = Some c.
Proof.
  induction l1 as [|a1 l1 IH]; intros [|b1 l2] l i a b Hz Ha Hb;
    simpl in Hz; try discriminate.
  - destruct i; discriminate Ha.
  - apply bind_ok in Hz as [c [Hc Hz]].
    apply bind_ok in Hz as [cs [Hcs Hz]].
    injection Hz as <-.
    destruct i as [|i]; simpl in *.
    + injection Ha as <-. injection Hb as <-. exists c. split; [exact Hc | reflexivity].
    + eapply IH; eassumption.
Qed.

Lemma zipWith_total {A B C : Type} (f : A -> B -> result C) :
  forall l1 l2,
    Forall2 (fun a b => exists c, f a b = Ok c) l1 l2 ->
    exists l, zipWith f l1 l2 = Ok l.
Proof.
  induction 1 as [|a b l1 l2 [c Hc] _ [l Hl]]; simpl.
  - exists []. reflexivity.
  - exists (c :: l). rewrite Hc. simpl. rewrite Hl. reflexivity.
Qed.

Lemma mapM_nth {A B : Type} (f : A -> result B) :
  forall l l' i a,
    mapM f l = Ok l' -> nth_error l i = Some a ->
    exists b, f a = Ok b /\ nth_error l' i = Some b.
Proof.
  induction l as [|a1 l IH]; intros l' i a Hm Ha; simpl in Hm.
  - destruct i; discriminate Ha.
  - apply bind_ok in Hm as [b [Hb Hm]].
    apply bind_ok in Hm as [bs [Hbs Hm]].
    injection Hm as <-.
    destruct i as [|i]; simpl in *.
    + injection Ha as <-. exists b. split; [exact Hb | reflexivity].
    + eapply IH; eassumption.
Qed.

Lemma mapM_length {A B : Type} (f : A -> result B) :
  forall l l', mapM f l = Ok l' -> List.length l' = List.length l.
Proof.
  induction l as [|a l IH]; intros l' Hm; simpl in Hm.
  - injection Hm as <-. reflexivity.
  - apply bind_ok in Hm as [b [_ Hm]].
    apply bind_ok in Hm as [bs [Hbs Hm]].
    injection Hm as <-. simpl. f_equal. apply IH. exact Hbs.
Qed.

Lemma mapM_raises_at {A B : Type} (f : A -> result B) :
  forall l a, In a l -> raises (f a) -> raises (mapM f l).
Proof.
  induction l as [|a0 l IH]; intros a Hin Ha; [contradiction|].
  cbn [mapM]. destruct Hin as [->|Hin].
  - apply bind_raise. exact Ha.
  - apply bind_raises_later. intros b. apply bind_raise. eapply IH; eassumption.
Qed.

Lemma mapM_raises_after {A B : Type} (f : A -> result B) (e : exn) :
  forall l1 a l2,
    (forall x, In x l1 -> exists b, f x = Ok b) ->
    f a = Raise e ->
    mapM f (l1 ++ a :: l2) = Raise e.
Proof.
  induction l1 as [|x l1 IH]; intros a l2 Hok Ha; cbn [app mapM].
  - rewrite Ha. reflexivity.
  - destruct (Hok x (or_introl eq_refl)) as [b Hb]. rewrite Hb. cbn [bind].
    rewrite IH; [reflexivity | | exact Ha].
    intros x' Hin. apply Hok. right. exact Hin.
Qed.

(** ** Elementwise tensor arithmetic *)

Section Elementwise.
Context {F : Type} `{Scalar F}.

Lemma zip1_nth (f : F -> F -> F) (u v w : list F) (j : nat) (a b : F) :
  zip1 f u v = Ok w ->
  nth_error u j = Some a -> nth_error v j = Some b ->
  nth_error w j = Some (f a b).
Proof.
  intros Hz Ha Hb.
  destruct (zipWith_nth _ _ _ _ Hz Ha Hb) as [c [Hc Hw]].
  injection Hc as <-. exact Hw.
Qed.

Lemma zip1_total (f : F -> F -> F) (u v : list F) :
  List.length u = List.length v -> exists w, zip1 f u v = Ok w.
Proof.
  intros Hlen. apply zipWith_total.
  revert v Hlen. induction u as [|a u IH]; intros [|b v] Hlen; try discriminate.
  - constructor.
  - constructor.
    + eexists; reflexivity.
    + apply IH. injection Hlen as Hlen. exact Hlen.
Qed.

Lemma zip1_length (f : F -> F -> F) (u v w : list F) :
  zip1 f u v = Ok w -> List.length u = List.length w.
Proof.
  intros Hz. apply zipWith_length in Hz. symmetry. apply Hz.
Qed.

Lemma zip2_entry (f : F -> F -> F) (m n r : list (list F)) (b j : nat) (x y : F) :
  zip2 f m n = Ok r ->
  entry2 m b j = Some x -> entry2 n b j = Some y ->
  entry2 r b j = Some (f x y).
Proof.
  unfold entry2. intros Hz Hx Hy.
  destruct (nth_error m b) as [rm|] eqn:Em; [|discriminate].
  destruct (nth_error n b) as [rn|] eqn:En; [|discriminate].
  destruct (zipWith_nth _ _ _ _ Hz Em En) as [rr [Hrr ->]].
  eapply zip1_nth; eassumption.
Qed.

Lemma zip2_total (f : F -> F -> F) (m n : list (list F)) :
  same_shape2 m n -> exists r, zip2 f m n = Ok r.
Proof.
  intros Hs. apply zipWith_total.
  induction Hs as [|u v m n Hlen _ IH]; constructor.
  - apply zip1_total. exact Hlen.
  - exact IH.
Qed.

Lemma zip2_shape (f : F -> F -> F) :
  forall m n r, zip2 f m n = Ok r -> same_shape2 m r.
Proof.
  induction m as [|u m IH]; intros [|v n] r Hz; simpl in Hz; try discriminate.
  - injection Hz as <-. constructor.
  - apply bind_ok in Hz as [w [Hw Hz]].
    apply bind_ok in Hz as [ws [Hws Hz]].
    injection Hz as <-. constructor.
    + eapply zip1_length. exact Hw.
    + eapply IH. exact Hws.
Qed.

Lemma same_shape2_trans {A B C : Type}
      (m : list (list A)) (n : list (list B)) (r : list (list C)) :
  same_shape2 m n -> same_shape2 n r -> same_shape2 m r.
Proof.
  intros Hmn. revert r.
  induction Hmn as [|u v m n Hlen _ IH]; intros r Hnr; inversion Hnr; subst.
  - constructor.
  - constructor; [congruence | apply IH; assumption].
Qed.

Lemma same_shape2_sym {A B : Type} (m : list (list A)) (n : list (list B)) :
  same_shape2 m n -> same_shape2 n m.
Proof.
  induction 1; constructor; [symmetry|]; assumption.
Qed.

Lemma same_shape2_map {A B : Type} (g : A -> B) (m : list (list A)) :
  same_shape2 m (map (map g) m).
Proof.
  induction m as [|u m IH]; simpl; constructor.
  - symmetry. apply length_map.
  - exact IH.
Qed.

Lemma entry2_map {A B : Type} (g : A -> B) (m : list (list A)) (b j : nat) (x : A) :
  entry2 m b j = Some x -> entry2 (map (map g) m) b j = Some (g x).
Proof.
  unfold entry2. intros Hx.
  rewrite nth_error_map.
  destruct (nth_error m b) as [row|]; [|discriminate]. simpl.
  rewrite nth_error_map, Hx. reflexivity.
Qed.

End Elementwise.

(** ** MOL.forward: the residual of one step *)

Section MOLResidual.
Context {F : Type} `{Scalar F} {Aux : Type}.

Lemma euler_part (x xt r : list (list F)) (dt : F) :
  same_shape2 x xt -> same_shape2 x r ->
  exists d gg,
    tsub (T2 x) (T2 xt) = Ok (T2 d) /\
    tsub (tdiv_scalar dt (T2 d)) (T2 r) = Ok (T2 gg) /\
    same_shape2 x gg /\
    forall b j xv xtv rv,
      entry2 x b j = Some xv -> entry2 xt b j = Some xtv ->
      entry2 r b j = Some rv ->
      entry2 gg b j = Some (backward_euler_entry dt xv xtv rv).
Proof.
  intros Hxt Hr.
  destruct (zip2_total fsub Hxt) as [d Hd].
  pose proof (zip2_shape _ _ _ Hd) as Hxd.
  set (q := map (map (fun v => fdiv v dt)) d).
  assert (Hxq : same_shape2 x q).
  { eapply same_shape2_trans; [exact Hxd | apply same_shape2_map]. }
  assert (Hqr : same_shape2 q r).
  { eapply same_shape2_trans; [apply same_shape2_sym; exact Hxq | exact Hr]. }
  destruct (zip2_total fsub Hqr) as [gg Hgg].
  exists d, gg. repeat split.
  - unfold tsub, tzip. rewrite Hd. reflexivity.
  - unfold tsub, tdiv_scalar, tzip, tmap. fold q. rewrite Hgg. reflexivity.
  - eapply same_shape2_trans; [exact Hxq | eapply zip2_shape; exact Hgg].
  - intros b j xv xtv rv Hx Hxt' Hr'.
    unfold backward_euler_entry.
    eapply zip2_entry; [exact Hgg | | exact Hr'].
    unfold q. apply (entry2_map (fun v => fdiv v dt)).
    eapply zip2_entry; eassumption.
Qed.

(** C3.  For every state [x], previous state [xt], parameters [p], time index
    [t] and step size [dt] (tensors of one shape, on which [rhs] returns),
    [MOL.forward] returns the residual whose entries are
    [(x - xt)/dt - rhs(x, p, t)] when [mtd = 0] (backward Euler) and
    [(x - xt)/dt - (rhs(x, p, t) + rhs(xt, p, t)) * 0.5] when [mtd = 1]
    (trapezoidal / Crank-Nicolson). *)
Theorem MOL_forward_residual
        (self : MOL.t F Aux) (x xt r : list (list F)) (p fl : tensor F)
        (t : nat) (dt : F) (aux : option Aux) :
  same_shape2 x xt -> same_shape2 x r ->
  MOL.rhs self (T2 x) p t aux = Ok (T2 r, fl) ->
  (MOL.mtd self = 0%Z ->
   exists gg,
     MOL.forward self (T2 x) p (T2 xt) t (dt, aux) = Ok (T2 gg) /\
     same_shape2 x gg /\
     forall b j xv xtv rv,
       entry2 x b j = Some xv -> entry2 xt b j = Some xtv ->
       entry2 r b j = Some rv ->
       entry2 gg b j = Some (backward_euler_entry dt xv xtv rv))
  /\
  (MOL.mtd self = 1%Z ->
   forall rt flt,
     MOL.rhs self (T2 xt) p t aux = Ok (T2 rt, flt) -> same_shape2 x rt ->
     exists gg,
       MOL.forward self (T2 x) p (T2 xt) t (dt, aux) = Ok (T2 gg) /\
       same_shape2 x gg /\
       forall b j xv xtv rv rtv,
         entry2 x b j = Some xv -> entry2 xt b j = Some xtv ->
         entry2 r b j = Some rv -> entry2 rt b j = Some rtv ->
         entry2 gg b j = Some (trapezoidal_entry dt xv xtv rv rtv)).
Proof.
  intros Hxt Hr Hrhs. split.
  - intros Hm.
    destruct (euler_part dt Hxt Hr) as [d [gg [Hd [Hgg [Hs He]]]]].
    exists gg. split; [|split; assumption].
    unfold MOL.forward. rewrite Hm. cbn [Z.eqb fst snd].
    rewrite Hrhs. cbn [bind fst]. rewrite Hd. cbn [bind]. exact Hgg.
  - intros Hm rt flt Hrhst Hrt.
    assert (Hrrt : same_shape2 r rt).
    { eapply same_shape2_trans; [apply same_shape2_sym; exact Hr | exact Hrt]. }
    destruct (zip2_total fadd Hrrt) as [s Hs].
    set (h := map (map (fun v => fmul v (fconst (5 # 10)))) s).
    assert (Hxh : same_shape2 x h).
    { eapply same_shape2_trans; [exact Hr|].
      eapply same_shape2_trans; [eapply zip2_shape; exact Hs|].
      apply same_shape2_map. }
    destruct (euler_part dt Hxt Hxh) as [d [gg [Hd [Hgg [Hsh He]]]]].
    exists gg. split; [|split; [assumption|]].
    + unfold MOL.forward. rewrite Hm. cbn [Z.eqb Pos.eqb fst snd].
      rewrite Hrhs. cbn [bind fst]. rewrite Hrhst. cbn [bind fst].
      rewrite Hd. cbn [bind].
      unfold tadd, tzip. rewrite Hs. cbn [bind]. exact Hgg.
    + intros b j xv xtv rv rtv Hx Hxt' Hr' Hrt'.
      unfold trapezoidal_entry.
      apply (He b j xv xtv _ Hx Hxt').
      unfold h. apply (entry2_map (fun v => fmul v (fconst (5 # 10)))).
      eapply zip2_entry; eassumption.
Qed.

End MOLResidual.

(** ** NewtonSolve.backward: the adjoint rule *)

Section Adjoint.
Context {F : Type} `{Scalar F}.
Variable matrixSolve : tensor F -> tensor F -> result (tensor F).

Lemma transpose_column_vector (l : list F) :
  l <> [] -> transpose (map (fun x => [x]) l) = [l].
Proof.
  intros Hl. destruct l as [|a l]; [contradiction|].
  unfold transpose, column. simpl. f_equal. f_equal.
  rewrite map_map. simpl. apply map_id.
Qed.

Lemma bmm_row_vectors (lamb : list (list F)) (P : list (list (list F))) :
  fits lamb P ->
  zipWith matmul (map transpose (map (map (fun x => [x])) lamb)) P
  = Ok (map (fun lp => [vecmat (fst lp) (snd lp)]) (combine lamb P)).
Proof.
  induction 1 as [|l Pb lamb P [Hl Hlen] _ IH]; simpl.
  - reflexivity.
  - rewrite (transpose_column_vector Hl).
    unfold matmul at 1. simpl.
    rewrite Hlen, Nat.eqb_refl. simpl.
    rewrite IH. reflexivity.
Qed.

Lemma squeeze_row_vectors {A : Type} (h : A -> list F) (l : list A) :
  squeeze1 (tneg (T3 (map (fun a => [h a]) l)))
  = T2 (map (fun a => map fneg (h a)) l).
Proof.
  unfold tneg, tmap, squeeze1.
  assert (Hall : forallb (fun mtx : list (list F) => (List.length mtx =? 1)%nat)
                         (map (map (map fneg)) (map (fun a => [h a]) l)) = true).
  { induction l as [|a l IH]; simpl; [reflexivity | exact IH]. }
  rewrite Hall. f_equal.
  rewrite !map_map. reflexivity.
Qed.

(** C1.  For every saved state Jacobian [dGdx], parameter Jacobian [dGdp]
    (and optional [dGdp2]) and every upstream gradient [dLdx]:
    [backward] hands the transposed Jacobian and [dLdx] to the linear solver;
    the [lamb] it gets back solves [dGdx^T lamb = dLdx], and the gradients
    returned are [dLdp = - lamb^T dGdp] and, when [dGdp2] is present,
    [dLdp2 = - lamb^T dGdp2].  [backward] is a function of the three saved
    tensors and [dLdx] alone. *)
Theorem backward_adjoint
        (J P : list (list (list F))) (P2 : option (list (list (list F))))
        (g lamb : list (list F)) :
  solver_sound matrixSolve ->
  matrixSolve (T3 (map transpose J)) (T2 g) = Ok (T2 lamb) ->
  fits lamb P ->
  (forall Q, P2 = Some Q -> fits lamb Q) ->
  bmatvec (map transpose J) lamb = g /\
  NewtonSolve.backward matrixSolve
    (mkSaved (T3 P) (option_map (fun Q => T3 Q) P2) (T3 J)) (T2 g)
  = Ok (mkGrads (Some (T2 (adjoint_grad lamb P)))
                (option_map (fun Q => T2 (adjoint_grad lamb Q)) P2)
                None None None None None None None).
Proof.
  intros Hsound Hsolve HP HP2. split.
  - apply Hsound. exact Hsolve.
  - unfold NewtonSolve.backward. cbn [dGdx dGdp dGdp2 permute021 bind].
    rewrite Hsolve. cbn [bind ndim Nat.leb unsqueeze2 permute021 bmm].
    rewrite (bmm_row_vectors HP). cbn [bind].
    rewrite (squeeze_row_vectors (fun lp => vecmat (fst lp) (snd lp))).
    fold (adjoint_grad lamb P).
    destruct P2 as [Q|]; cbn [option_map bind].
    + cbn [bmm]. rewrite (bmm_row_vectors (HP2 Q eq_refl)). cbn [bind].
      rewrite (squeeze_row_vectors (fun lp => vecmat (fst lp) (snd lp))).
      reflexivity.
    + reflexivity.
Qed.

End Adjoint.

(** ** Which inputs receive a gradient *)

Section GradientSlots.
Context {F : Type} `{Scalar F} {Aux : Type}.
Variable matrixSolve : tensor F -> tensor F -> result (tensor F).
Variable batchJacobian :
  NewtonSolve.GFun F Aux -> point F Aux -> wrt -> result (tensor F).
Variable autograd_grad :
  NewtonSolve.GFun F Aux -> point F Aux -> nat -> wrt -> list F -> result (list (list F)).

Lemma backward_slots (ctx : saved F) (dLdx : tensor F) (g : grads F) :
  NewtonSolve.backward matrixSolve ctx dLdx = Ok g ->
  dLdt g = None /\ dLdG g = None /\ dLdx0 g = None /\ dLdauxG g = None /\
  dLdbatchP g = None /\ dLdeval g = None /\ dLdAD_efficient g = None /\
  dLdp g <> None /\ (dLdp2 g = None <-> dGdp2 ctx = None).
Proof.
  unfold NewtonSolve.backward. intros Hb.
  apply bind_ok in Hb as [dGdxT [_ Hb]].
  apply bind_ok in Hb as [l0 [_ Hb]].
  apply bind_ok in Hb as [l1 [_ Hb]].
  apply bind_ok in Hb as [lT [_ Hb]].
  apply bind_ok in Hb as [prod [_ Hb]].
  apply bind_ok in Hb as [d2 [Hd2 Hb]].
  injection Hb as <-. cbn.
  repeat (split; [reflexivity|]).
  split; [discriminate|].
  destruct (dGdp2 ctx) as [q|].
  - apply bind_ok in Hd2 as [prod2 [_ Hd2]]. injection Hd2 as <-.
    split; discriminate.
  - injection Hd2 as <-. split; reflexivity.
Qed.

Lemma forward_saves_dGdp2
      (fuel : nat) (p xt : tensor F) (t : nat) (G : NewtonSolve.GFun F Aux)
      (x0 : option (tensor F)) (auxG : Aux) (batchP eval AD_efficient : bool)
      (x : tensor F) (ctx : saved F) :
  NewtonSolve.forward matrixSolve batchJacobian autograd_grad fuel
    p (Some xt) t G x0 auxG batchP eval AD_efficient = Some (Ok (x, Some ctx)) ->
  dGdp2 ctx <> None.
Proof.
  unfold NewtonSolve.forward. intros Hf.
  destruct (match x0 with Some _ => x0 | None => Some xt end) as [xi|];
    [|discriminate].
  match type of Hf with
  | match ?init with _ => _ end = _ => destruct init as [s0|e]; [|discriminate]
  end.
  destruct (NewtonSolve.newton_loop _ _ _ _ _ _ _ _ _ _ _) as [[s|e]|];
    try discriminate.
  injection Hf as Hf.
  destruct eval; [discriminate|].
  destruct batchP; [|discriminate].
  apply bind_ok in Hf as [d1 [_ Hf]].
  apply bind_ok in Hf as [d2 [_ Hf]].
  apply bind_ok in Hf as [u [_ Hf]].
  injection Hf as _ <-. cbn. discriminate.
Qed.

End GradientSlots.

Section StateGradient.
Context {F : Type} `{Scalar F} {Aux : Type}.
Variable matrixSolve : tensor F -> tensor F -> result (tensor F).
Variable batchJacobian :
  NewtonSolve.GFun F (MOL.AuxG F Aux) -> point F (MOL.AuxG F Aux) -> wrt ->
  result (tensor F).
Variable autograd_grad :
  NewtonSolve.GFun F (MOL.AuxG F Aux) -> point F (MOL.AuxG F Aux) -> nat -> wrt ->
  list F -> result (list (list F)).

Definition saves_dGdp2 (e : tensor F * option (saved F)) : Prop :=
  forall ctx, snd e = Some ctx -> dGdp2 ctx <> None.

Lemma steps_save_dGdp2 (fuel : nat) (self : MOL.t F Aux) (pd : list (list (list F))) :
  MOL.solveAdj self = NewtonSolve.forward matrixSolve batchJacobian autograd_grad ->
  forall ts xt acc run,
    MOL.steps fuel self pd ts xt acc = Some (Ok run) ->
    Forall saves_dGdp2 acc -> Forall saves_dGdp2 run.
Proof.
  intros Hsolver.
  induction ts as [|k ts IH]; intros xt acc run Hrun Hacc; simpl in Hrun.
  - injection Hrun as <-. apply Forall_rev. exact Hacc.
  - destruct (nth_error pd k) as [p|]; [|discriminate].
    rewrite Hsolver in Hrun.
    destruct (NewtonSolve.forward _ _ _ _ _ _ _ _ _ _ _ _ _)
      as [[[x ctx]|e]|] eqn:Hf; try discriminate.
    destruct (MOL.broadcast2 _ _ x); [|discriminate].
    apply (IH _ _ _ Hrun). constructor; [|exact Hacc].
    intros c Hc. simpl in Hc. subst ctx.
    eapply forward_saves_dGdp2. exact Hf.
Qed.

(** C2, as amended.  [backward] returns no gradient for the inputs [t], [G],
    [x0], [auxG], [batchP], [eval] and [AD_efficient]; it returns one for [p]
    and, when [dGdp2] was saved, one for [p2].  [nsteps_pDyn] passes the
    previous state [xt] as [p2] (and [None] as [x0]): for every step of a run
    the backward rule of that step returns a gradient in the slot of [p2],
    that is for [xt], and none in the slot of the initial guess [x0]. *)
Theorem state_gradient_through_p2
        (fuel : nat) (self : MOL.t F Aux) (pDyn x0 : tensor F)
        (run : list (tensor F * option (saved F)))
        (x dLdx : tensor F) (ctx : saved F) (g : grads F) :
  MOL.solveAdj self = NewtonSolve.forward matrixSolve batchJacobian autograd_grad ->
  MOL.nsteps_pDyn fuel self pDyn x0 = Some (Ok run) ->
  In (x, Some ctx) run ->
  NewtonSolve.backward matrixSolve ctx dLdx = Ok g ->
  dLdp g <> None /\ dLdp2 g <> None /\
  dLdt g = None /\ dLdG g = None /\ dLdx0 g = None /\ dLdauxG g = None /\
  dLdbatchP g = None /\ dLdeval g = None /\ dLdAD_efficient g = None.
Proof.
  intros Hsolver Hrun Hin Hback.
  assert (Hsaved : dGdp2 ctx <> None).
  { unfold MOL.nsteps_pDyn in Hrun.
    destruct (MOL.rho self =? 0)%nat; [discriminate|].
    destruct (MOL.broadcast2 _ _ x0); [|discriminate].
    destruct pDyn as [|?|pd]; try discriminate.
    assert (Hall : Forall saves_dGdp2 run)
      by (eapply steps_save_dGdp2; [exact Hsolver | exact Hrun | constructor]).
    rewrite Forall_forall in Hall.
    apply (Hall _ Hin ctx eq_refl). }
  destruct (backward_slots _ _ _ Hback)
    as [H1 [H2 [H3 [H4 [H5 [H6 [H7 [H8 H9]]]]]]]].
  repeat (split; [assumption|]).
  split.
  - intros Hnone. apply Hsaved. apply H9. exact Hnone.
  - repeat (split; [assumption|]). assumption.
Qed.

End StateGradient.

(** ** The Newton loop: termination, global condition, Jacobian reuse *)

Section NewtonLoop.
Context {F : Type} `{Scalar F} {Aux : Type}.
Variable matrixSolve : tensor F -> tensor F -> result (tensor F).
Variable batchJacobian :
  NewtonSolve.GFun F Aux -> point F Aux -> wrt -> result (tensor F).
Variable autograd_grad :
  NewtonSolve.GFun F Aux -> point F Aux -> nat -> wrt -> list F -> result (list (list F)).
Variables (p : tensor F) (p2 : option (tensor F)) (t : nat)
          (G : NewtonSolve.GFun F Aux) (auxG : Aux) (AD_efficient : bool).

Local Abbreviation loop_body :=
  (NewtonSolve.loop_body matrixSolve batchJacobian autograd_grad p p2 t G auxG AD_efficient).
Local Abbreviation newton_loop :=
  (NewtonSolve.newton_loop matrixSolve batchJacobian autograd_grad p p2 t G auxG AD_efficient).
Local Abbreviation fresh_jacobian :=
  (NewtonSolve.fresh_jacobian batchJacobian autograd_grad p p2 t G auxG AD_efficient).
Local Abbreviation forward :=
  (NewtonSolve.forward matrixSolve batchJacobian autograd_grad).

Lemma loop_cond_true (s : loop_state F) :
  NewtonSolve.loop_cond s = Ok true <->
  exists m, torch_max (ls_resnorm s) = Ok m /\
            fgtb m NewtonSolve.gtol = true /\
            (ls_i s <= NewtonSolve.max_iter)%nat.
Proof.
  unfold NewtonSolve.loop_cond. split.
  - intros Hc. apply bind_ok in Hc as [m [Hm Hc]].
    injection Hc as Hc. apply andb_true_iff in Hc as [Hg Hi].
    exists m. repeat split; try assumption. apply Nat.leb_le. exact Hi.
  - intros [m [Hm [Hg Hi]]]. rewrite Hm. cbn [bind].
    rewrite Hg. apply Nat.leb_le in Hi. rewrite Hi. reflexivity.
Qed.

(** What one pass of the body does, read off a successful pass. *)
Lemma loop_body_inv (s s' : loop_state F) :
  loop_body s = Ok s' ->
  exists slow gg J dx,
    NewtonSolve.slow_progress s = Ok slow /\
    (if slow then fresh_jacobian (ls_x s) else Ok (ls_gg s, ls_dGdx s)) = Ok (gg, J) /\
    NewtonSolve.newton_dx matrixSolve J gg = Ok dx /\
    tsub (ls_x s) dx = Ok (ls_x s') /\
    G (ls_x s') p p2 t auxG = Ok (ls_gg s') /\
    linalg_norm_inf (ls_gg s') = Ok (ls_resnorm s') /\
    ls_dGdx s' = J /\
    ls_resnorm0 s' = ls_resnorm s /\
    ls_i s' = S (ls_i s).
Proof.
  unfold NewtonSolve.loop_body. intros Hb.
  apply bind_ok in Hb as [slow [Hslow Hb]].
  apply bind_ok in Hb as [[gg J] [HggJ Hb]].
  apply bind_ok in Hb as [dx [Hdx Hb]].
  apply bind_ok in Hb as [x [Hx Hb]].
  apply bind_ok in Hb as [gg' [Hgg' Hb]].
  apply bind_ok in Hb as [rn [Hrn Hb]].
  injection Hb as <-. cbn in *.
  exists slow, gg, J, dx. repeat split; assumption.
Qed.

Lemma newton_loop_step (fuel : nat) (s : loop_state F) :
  newton_loop (S fuel) s =
  match NewtonSolve.loop_cond s with
  | Raise e => Some (Raise e)
  | Ok false => Some (Ok s)
  | Ok true =>
      match loop_body s with
      | Raise e => Some (Raise e)
      | Ok s' => newton_loop fuel s'
      end
  end.
Proof. reflexivity. Qed.

Lemma newton_loop_enough_fuel :
  forall fuel s,
    (NewtonSolve.max_iter + 1 - ls_i s < fuel)%nat ->
    exists r, newton_loop fuel s = Some r.
Proof.
  induction fuel as [|fuel IH]; intros s Hfuel; [lia|].
  rewrite newton_loop_step.
  destruct (NewtonSolve.loop_cond s) as [[|]|e] eqn:Hc.
  - destruct (loop_body s) as [s'|e] eqn:Hb.
    + apply IH.
      apply loop_cond_true in Hc as [m [_ [_ Hi]]].
      apply loop_body_inv in Hb as [? [? [? [? Hb]]]].
      destruct Hb as [_ [_ [_ [_ [_ [_ [_ [_ Hi']]]]]]]].
      rewrite Hi'. lia.
    + eexists; reflexivity.
  - eexists; reflexivity.
  - eexists; reflexivity.
Qed.

Lemma newton_loop_more_fuel :
  forall fuel s r,
    newton_loop fuel s = Some r ->
    forall fuel', (fuel <= fuel')%nat -> newton_loop fuel' s = Some r.
Proof.
  induction fuel as [|fuel IH]; intros s r Hr fuel' Hle; [discriminate|].
  destruct fuel' as [|fuel']; [lia|].
  rewrite newton_loop_step in *.
  destruct (NewtonSolve.loop_cond s) as [[|]|e]; try exact Hr.
  destruct (loop_body s) as [s'|e]; try exact Hr.
  apply (IH _ _ Hr). lia.
Qed.

Lemma forward_enough_fuel
      (fuel : nat) (x0 : option (tensor F)) (batchP eval : bool) :
  (NewtonSolve.max_iter + 2 <= fuel)%nat ->
  exists r,
    forward fuel p p2 t G x0 auxG batchP eval AD_efficient = Some r /\
    forward (NewtonSolve.max_iter + 2) p p2 t G x0 auxG batchP eval AD_efficient = Some r.
Proof.
  intros Hfuel. unfold NewtonSolve.forward.
  destruct (match x0 with Some _ => x0 | None => _ end) as [x|];
    [|eexists; split; reflexivity].
  match goal with
  | |- exists r, match ?init with _ => _ end = _ /\ _ =>
      destruct init as [s0|e] eqn:Hinit; [|eexists; split; reflexivity]
  end.
  assert (Hi : ls_i s0 = 0%nat).
  { apply bind_ok in Hinit as [ggJ [_ Hinit]].
    apply bind_ok in Hinit as [rn [_ Hinit]].
    injection Hinit as <-. reflexivity. }
  assert (exists r, newton_loop (NewtonSolve.max_iter + 2) s0 = Some r) as [r Hr]
    by (apply newton_loop_enough_fuel; rewrite Hi; lia).
  pose proof newton_loop_more_fuel as Hmore.
  rewrite (Hmore _ _ _ Hr _ Hfuel), Hr.
  destruct r as [s|e]; eexists; split; reflexivity.
Qed.


(** C6.  A pass of the loop body computes the state Jacobian afresh exactly
    when the maximum over the batch of [resnorm / resnorm0] exceeds 0.2.
    Then the residual and the Jacobian are evaluated at the current [x], the
    Jacobian is checked for NaN and infinities, and [dx] is the solution of
    the linear system of that Jacobian and that residual.  Otherwise neither
    is evaluated and [dx] is the solution of the system of the Jacobian and
    the residual the state carries, those of the last pass that computed
    them; the Jacobian is carried on unchanged.  The first part gives the
    pass in either case, the second reads the same off a pass that
    succeeded. *)
Theorem jacobian_recomputed_on_slow_progress (s : loop_state F) :
  (forall ratio m,
     tdiv (ls_resnorm s) (ls_resnorm0 s) = Ok ratio ->
     torch_max ratio = Ok m ->
     loop_body s =
     if fgtb m (fconst (2 # 10))
     then
       gg0 <- G (ls_x s) p p2 t auxG ;;
       J <- (if AD_efficient
             then batchJacobian G (mkPoint (ls_x s) p p2 t auxG) WrtX
             else NewtonSolve.batchJacobian_AD_slow autograd_grad G
                    (mkPoint (ls_x s) p p2 t auxG) gg0 WrtX (ls_x s)) ;;
       (if (tany fisnan J || tany fisinf J)%bool
        then Raise (RuntimeError "Jacobian matrix is NaN")
        else Ok tt) ;;;
       dx <- (if (ndim J =? ndim gg0)%nat then tdiv gg0 J else matrixSolve J gg0) ;;
       x <- tsub (ls_x s) dx ;;
       gg <- G x p p2 t auxG ;;
       resnorm <- linalg_norm_inf gg ;;
       Ok (mkLoop x gg J resnorm (ls_resnorm s) (S (ls_i s)))
     else
       dx <- (if (ndim (ls_dGdx s) =? ndim (ls_gg s))%nat
              then tdiv (ls_gg s) (ls_dGdx s)
              else matrixSolve (ls_dGdx s) (ls_gg s)) ;;
       x <- tsub (ls_x s) dx ;;
       gg <- G x p p2 t auxG ;;
       resnorm <- linalg_norm_inf gg ;;
       Ok (mkLoop x gg (ls_dGdx s) resnorm (ls_resnorm s) (S (ls_i s))))
  /\
  (forall s',
     loop_body s = Ok s' ->
     exists ratio m,
       tdiv (ls_resnorm s) (ls_resnorm0 s) = Ok ratio /\
       torch_max ratio = Ok m /\
       (fgtb m (fconst (2 # 10)) = true ->
        exists gg dx,
          G (ls_x s) p p2 t auxG = Ok gg /\
          (if AD_efficient
           then batchJacobian G (mkPoint (ls_x s) p p2 t auxG) WrtX
           else NewtonSolve.batchJacobian_AD_slow autograd_grad G
                  (mkPoint (ls_x s) p p2 t auxG) gg WrtX (ls_x s))
          = Ok (ls_dGdx s') /\
          (tany fisnan (ls_dGdx s') || tany fisinf (ls_dGdx s'))%bool = false /\
          (if (ndim (ls_dGdx s') =? ndim gg)%nat
           then tdiv gg (ls_dGdx s')
           else matrixSolve (ls_dGdx s') gg) = Ok dx /\
          tsub (ls_x s) dx = Ok (ls_x s'))
       /\
       (fgtb m (fconst (2 # 10)) = false ->
        ls_dGdx s' = ls_dGdx s /\
        exists dx,
          (if (ndim (ls_dGdx s) =? ndim (ls_gg s))%nat
           then tdiv (ls_gg s) (ls_dGdx s)
           else matrixSolve (ls_dGdx s) (ls_gg s)) = Ok dx /\
          tsub (ls_x s) dx = Ok (ls_x s'))).
Proof.
  split.
  - intros ratio m Hratio Hm.
    unfold NewtonSolve.loop_body, NewtonSolve.slow_progress.
    rewrite Hratio. cbn [bind]. rewrite Hm. cbn [bind].
    destruct (fgtb m (fconst (2 # 10))).
    + unfold NewtonSolve.fresh_jacobian, NewtonSolve.jacobian,
        NewtonSolve.check_finite, NewtonSolve.nonfinite, NewtonSolve.newton_dx.
      destruct (G (ls_x s) p p2 t auxG) as [gg0|e]; [|reflexivity]. cbn [bind].
      match goal with
      | |- bind (bind ?j _) _ = _ => destruct j as [J|e]; [|reflexivity]
      end.
      cbn [bind].
      destruct (tany fisnan J || tany fisinf J)%bool; reflexivity.
    + reflexivity.
  - intros s' Hb.
    apply loop_body_inv in Hb
      as [slow [gg [J [dx [Hslow [HggJ [Hdx [Hx [_ [_ [HJ _]]]]]]]]]]].
    unfold NewtonSolve.slow_progress in Hslow.
    apply bind_ok in Hslow as [ratio [Hratio Hslow]].
    apply bind_ok in Hslow as [m [Hm Hslow]].
    injection Hslow as Hslow.
    exists ratio, m. split; [exact Hratio|]. split; [exact Hm|].
    rewrite <- Hslow in HggJ. unfold NewtonSolve.newton_dx in Hdx.
    split; intros Hcmp; rewrite Hcmp in HggJ.
    + unfold NewtonSolve.fresh_jacobian in HggJ.
      apply bind_ok in HggJ as [gg0 [Hgg0 HggJ]].
      apply bind_ok in HggJ as [J0 [HJ0 HggJ]].
      apply bind_ok in HggJ as [u [Hfin HggJ]].
      injection HggJ as -> ->.
      unfold NewtonSolve.jacobian in HJ0.
      unfold NewtonSolve.check_finite, NewtonSolve.nonfinite in Hfin.
      exists gg, dx. rewrite HJ.
      split; [exact Hgg0|]. split; [exact HJ0|].
      split; [destruct (tany fisnan J || tany fisinf J)%bool;
              [discriminate | reflexivity]|].
      split; [exact Hdx | exact Hx].
    + injection HggJ as Hgg0 HJ0. split; [congruence|].
      exists dx. split; [|exact Hx]. rewrite Hgg0, HJ0. exact Hdx.
Qed.

End NewtonLoop.

(** ** Non-finite Jacobians *)

Section FiniteJacobians.
Context {F : Type} `{Scalar F} {Aux : Type}.
Variable matrixSolve : tensor F -> tensor F -> result (tensor F).
Variable batchJacobian :
  NewtonSolve.GFun F Aux -> point F Aux -> wrt -> result (tensor F).
Variable autograd_grad :
  NewtonSolve.GFun F Aux -> point F Aux -> nat -> wrt -> list F -> result (list (list F)).
Variables (p : tensor F) (p2 : option (tensor F)) (t : nat)
          (G : NewtonSolve.GFun F Aux) (auxG : Aux) (AD_efficient : bool).

Local Abbreviation loop_body :=
  (NewtonSolve.loop_body matrixSolve batchJacobian autograd_grad p p2 t G auxG AD_efficient).
Local Abbreviation newton_loop :=
  (NewtonSolve.newton_loop matrixSolve batchJacobian autograd_grad p p2 t G auxG AD_efficient).
Local Abbreviation fresh_jacobian :=
  (NewtonSolve.fresh_jacobian batchJacobian autograd_grad p p2 t G auxG AD_efficient).
Local Abbreviation jacobian :=
  (NewtonSolve.jacobian batchJacobian autograd_grad AD_efficient G).

(** A state Jacobian with a NaN or infinite entry aborts with the
    RuntimeError, at the start and in the loop alike. *)
Lemma nonfinite_state_jacobian_raises (x gg J : tensor F) :
  G x p p2 t auxG = Ok gg ->
  jacobian (mkPoint x p p2 t auxG) gg WrtX x = Ok J ->
  NewtonSolve.nonfinite J = true ->
  fresh_jacobian x = Raise (RuntimeError "Jacobian matrix is NaN").
Proof.
  intros Hgg HJ Hnf. unfold NewtonSolve.fresh_jacobian.
  rewrite Hgg. cbn [bind]. rewrite HJ. cbn [bind].
  unfold NewtonSolve.check_finite. rewrite Hnf. reflexivity.
Qed.

Lemma fresh_jacobian_finite (x gg J : tensor F) :
  fresh_jacobian x = Ok (gg, J) -> NewtonSolve.nonfinite J = false.
Proof.
  unfold NewtonSolve.fresh_jacobian. intros Hf.
  apply bind_ok in Hf as [gg' [_ Hf]].
  apply bind_ok in Hf as [J' [_ Hf]].
  apply bind_ok in Hf as [u [Hu Hf]].
  injection Hf as _ <-.
  unfold NewtonSolve.check_finite in Hu.
  destruct (NewtonSolve.nonfinite J'); [discriminate | reflexivity].
Qed.

Lemma loop_body_keeps_finite (s s' : loop_state F) :
  NewtonSolve.nonfinite (ls_dGdx s) = false ->
  loop_body s = Ok s' ->
  NewtonSolve.nonfinite (ls_dGdx s') = false.
Proof.
  intros Hfin Hb.
  apply loop_body_inv in Hb
    as [slow [gg [J [dx [_ [HggJ [_ [_ [_ [_ [HJ _]]]]]]]]]]].
  rewrite HJ. destruct slow.
  - eapply fresh_jacobian_finite. exact HggJ.
  - injection HggJ as _ <-. exact Hfin.
Qed.

Lemma newton_loop_keeps_finite :
  forall fuel s s',
    NewtonSolve.nonfinite (ls_dGdx s) = false ->
    newton_loop fuel s = Some (Ok s') ->
    NewtonSolve.nonfinite (ls_dGdx s') = false.
Proof.
  induction fuel as [|fuel IH]; intros s s' Hfin Hl; [discriminate|].
  rewrite newton_loop_step in Hl.
  destruct (NewtonSolve.loop_cond s) as [[|]|e]; try discriminate.
  - destruct (loop_body s) as [s1|e] eqn:Hb; [|discriminate].
    apply (IH s1 s'); [|exact Hl].
    eapply loop_body_keeps_finite; eassumption.
  - injection Hl as <-. exact Hfin.
Qed.

(** What [forward] saves when it returns: the state Jacobian is finite, and
    so are the parameter Jacobians when a second parameter group [p2] is
    present. *)
Lemma saved_jacobians_finite
      (fuel : nat) (x0 : option (tensor F)) (batchP eval : bool)
      (x : tensor F) (ctx : saved F) :
  NewtonSolve.forward matrixSolve batchJacobian autograd_grad fuel
    p p2 t G x0 auxG batchP eval AD_efficient = Some (Ok (x, Some ctx)) ->
  NewtonSolve.nonfinite (dGdx ctx) = false /\
  (p2 <> None ->
   NewtonSolve.nonfinite (dGdp ctx) = false /\
   forall d, dGdp2 ctx = Some d -> NewtonSolve.nonfinite d = false).
Proof.
  unfold NewtonSolve.forward. intros Hf.
  destruct (match x0 with Some _ => x0 | None => _ end) as [xi|]; [|discriminate].
  match type of Hf with
  | match ?init with _ => _ end = _ =>
      destruct init as [s0|e] eqn:Hinit; [|discriminate]
  end.
  apply bind_ok in Hinit as [[gg0 J0] [HJ0 Hinit]].
  apply bind_ok in Hinit as [rn [_ Hinit]].
  injection Hinit as <-.
  destruct (NewtonSolve.newton_loop _ _ _ _ _ _ _ _ _ _ _) as [[s|e]|] eqn:Hl;
    try discriminate.
  assert (Hfin : NewtonSolve.nonfinite (ls_dGdx s) = false).
  { eapply newton_loop_keeps_finite; [|exact Hl].
    cbn. eapply fresh_jacobian_finite. exact HJ0. }
  injection Hf as Hf.
  destruct eval; [discriminate|].
  destruct batchP; [|discriminate].
  destruct p2 as [q|].
  - apply bind_ok in Hf as [d1 [_ Hf]].
    apply bind_ok in Hf as [d2 [_ Hf]].
    apply bind_ok in Hf as [u [Hu Hf]].
    injection Hf as _ <-. cbn.
    destruct (NewtonSolve.nonfinite d1 || NewtonSolve.nonfinite d2)%bool eqn:Hor;
      [discriminate|].
    apply orb_false_iff in Hor as [Hd1 Hd2].
    split; [exact Hfin|]. intros _. split; [exact Hd1|].
    intros d Hd. injection Hd as <-. exact Hd2.
  - apply bind_ok in Hf as [d1 [_ Hf]].
    injection Hf as _ <-. cbn.
    split; [exact Hfin|]. intros Hne. contradiction.
Qed.

End FiniteJacobians.

(** C5 fails on the branch without a second parameter group.  With
    [p2 = None] the parameter Jacobian is saved without the check its sibling
    branch applies: here [forward] returns normally and saves a [dGdp] whose
    entry is not a number. *)
Theorem parameter_jacobian_unchecked_without_p2 :
  NewtonSolve.forward NanJacobian.matrixSolve NanJacobian.batchJacobian
    NanJacobian.autograd_grad 5
    (T2 [[Some (LinearDecay.q 1)]]) None 0 NanJacobian.G
    (Some (T2 [[Some (LinearDecay.q 0)]])) tt true false true
  = Some (Ok (T2 [[Some (LinearDecay.q 0)]],
              Some (mkSaved (T3 [[[None]]]) None
                            (T3 [[[Some (Q2Qc 1)]]]))))
  /\ NewtonSolve.nonfinite (F := NanJacobian.F) (T3 [[[None]]]) = true.
Proof.
  split; vm_compute; reflexivity.
Qed.

(** ** HBV_adj needs routing *)

Lemma mapM_raise {A B : Type} (f : A -> result B) :
  forall l e, mapM f l = Raise e -> exists a, In a l /\ f a = Raise e.
Proof.
  induction l as [|a l IH]; intros e Hm; simpl in Hm; [discriminate|].
  destruct (f a) as [b|e'] eqn:Hfa; simpl in Hm.
  - destruct (mapM f l) as [bs|e''] eqn:Hl; simpl in Hm; [discriminate|].
    injection Hm as <-. destruct (IH _ eq_refl) as [a' [Hin Ha']].
    exists a'. split; [right; exact Hin | exact Ha'].
  - injection Hm as <-. exists a. split; [left; reflexivity | exact Hfa].
Qed.

Section HBVAdjRouting.
Context {F : Type} `{Scalar F}.
Variable sigmoid : F -> F.
Variable pow : F -> F -> F.
Variable Rng : Type.
Variable bernoulli : Rng -> list (list F) -> list (list F) * Rng.
Variable matrixSolve : tensor F -> tensor F -> result (tensor F).
Variable batchJacobian :
  NewtonSolve.GFun F (MOL.AuxG F unit) -> point F (MOL.AuxG F unit) -> wrt ->
  result (tensor F).
Variable autograd_grad :
  NewtonSolve.GFun F (MOL.AuxG F unit) -> point F (MOL.AuxG F unit) -> nat -> wrt ->
  list F -> result (list (list F)).
Variable UH_gamma :
  list (list (list F)) -> list (list (list F)) -> nat -> result (list (list (list F))).
Variable UH_conv :
  list (list (list F)) -> list (list (list F)) -> result (list (list (list F))).

Lemma view4_raises_runtime (P M : nat) (a : list (list (list F))) (e : exn) :
  view4 P M a = Raise e -> exists msg, e = RuntimeError msg.
Proof.
  unfold view4. intros Hv.
  apply mapM_raise in Hv as [tb [_ Hv]].
  apply mapM_raise in Hv as [row [_ Hv]].
  unfold view_last in Hv.
  destruct (_ =? _)%nat; [discriminate|].
  injection Hv as <-. eexists; reflexivity.
Qed.

(** C9.  With routing disabled [HBV_adj.unpack_parameters] raises for every
    input: unless reshaping the physical parameters already failed (a
    RuntimeError), building the returned dictionary reads the local
    [routing_params], which only the routing branch binds
    (UnboundLocalError).  [HBV_adj.forward] calls it first and so raises
    as well. *)
Theorem HBV_adj_needs_routing
        (self : HBV_adj.t) (parameters x : list (list (list F)))
        (n_steps n_grid fuel : nat) (rng : Rng) :
  HBV_adj.routing self = false ->
  (HBV_adj.unpack_parameters sigmoid self parameters n_steps n_grid
   = Raise (UnboundLocalError "routing_params")
   \/ exists msg,
       HBV_adj.unpack_parameters sigmoid self parameters n_steps n_grid
       = Raise (RuntimeError msg))
  /\
  raises (HBV_adj.unpack_parameters sigmoid self parameters n_steps n_grid)
  /\
  exists e,
    HBV_adj.forward sigmoid pow bernoulli matrixSolve batchJacobian autograd_grad
                    UH_gamma UH_conv fuel self rng x parameters
    = Some (Raise e).
Proof.
  intros Hrout.
  assert (Hunpack :
            forall n g,
              HBV_adj.unpack_parameters sigmoid self parameters n g
              = Raise (UnboundLocalError "routing_params")
              \/ exists msg,
                  HBV_adj.unpack_parameters sigmoid self parameters n g
                  = Raise (RuntimeError msg)).
  { intros n g. unfold HBV_adj.unpack_parameters.
    destruct (view4 _ _ _) as [phy4|e] eqn:Hv; cbn [bind].
    - unfold reshape3.
      destruct (_ =? _)%nat; cbn [bind].
      + rewrite Hrout. cbn [bind]. left. reflexivity.
      + right. eexists; reflexivity.
    - right. apply view4_raises_runtime in Hv as [msg ->].
      exists msg. reflexivity. }
  split; [apply Hunpack|]. split.
  - destruct (Hunpack n_steps n_grid) as [Hu|[msg Hu]]; rewrite Hu;
      eexists; reflexivity.
  - unfold HBV_adj.forward.
    destruct (Hunpack (List.length x) (List.length (hd [] x))) as [Hu|[msg Hu]];
      rewrite Hu; cbn [bind]; eexists; reflexivity.
Qed.

End HBVAdjRouting.

(** ** HBVCapillary: the output dictionary needs routing *)

Section CapillaryRouting.
Context {F : Type} `{Scalar F}.
Variable sigmoid : F -> F.
Variable pow : F -> F -> F.
Variable Rng : Type.
Variable bernoulli : Rng -> list (list F) -> list (list F) * Rng.
Variable UH_gamma : tensor F -> tensor F -> nat -> result (list (list (list F))).
Variable UH_conv :
  list (list (list F)) -> list (list (list F)) -> result (list (list (list F))).

Local Abbreviation forward_from :=
  (HBVCapillary.forward_from sigmoid pow bernoulli UH_gamma UH_conv).

Lemma forward_from_needs_routing
      (self : HBVCapillary.t) (rng : Rng) (x : list (list (list F)))
      (muwts : option (list (list (list F)))) (parameters : list (list (list F)))
      (state0 : list (list (HBVCapillary.storages F))) :
  HBVCapillary.routing self = false ->
  HBVCapillary.initialize self = false ->
  raises (forward_from self rng x muwts parameters state0).
Proof.
  intros Hrout Hinit. unfold HBVCapillary.forward_from.
  do 9 (apply bind_raises_later; intros ?).
  rewrite Hrout, Hinit. cbn [bind fst snd HBVCapillary.torch_sum_dim0].
  eexists; reflexivity.
Qed.

(** C10.  For every input, a call of [HBVCapillary.forward] outside warm-up
    mode ([initialize] false) with routing disabled raises: the routed
    components are [None], and [torch.sum] is applied to [Q2_rout] before the
    output dictionary is built. *)
Theorem HBVCapillary_output_needs_routing
        (self : HBVCapillary.t) (rng : Rng) (x : list (list (list F)))
        (muwts : option (list (list (list F)))) (parameters : list (list (list F))) :
  HBVCapillary.routing self = false ->
  HBVCapillary.initialize self = false ->
  raises (HBVCapillary.forward sigmoid pow bernoulli UH_gamma UH_conv
                               self rng x muwts parameters).
Proof.
  intros Hrout Hinit. unfold HBVCapillary.forward.
  set (self' := if HBVCapillary.warm_up_states self then self
                else HBVCapillary.reset_warm_up self).
  assert (Hrout' : HBVCapillary.routing self' = false)
    by (unfold self'; destruct (HBVCapillary.warm_up_states self); assumption).
  assert (Hinit' : HBVCapillary.initialize self' = false)
    by (unfold self'; destruct (HBVCapillary.warm_up_states self); assumption).
  destruct (0 <? HBVCapillary.warm_up self')%nat.
  - apply bind_raises_later. intros [Qs state|d].
    + apply forward_from_needs_routing; assumption.
    + eexists; reflexivity.
  - apply forward_from_needs_routing; assumption.
Qed.

End CapillaryRouting.

(** ** HBVCapillary: storages after a step of the explicit scheme *)

Section ExplicitStep.
Local Open Scope Q_scope.
Import HBVCapillary.

Lemma Qmin_nonneg (a b : Q) : 0 <= a -> 0 <= b -> 0 <= Qmin a b.
Proof. intros Ha Hb. apply Q.min_glb; assumption. Qed.

Ltac q_ops :=
  unfold clamp_min, clamp_max, clamp, of_bool;
  cbn [fadd fsub fmul fdiv fmax fmin fgeb fltb fconst f0 f1 Scalar_Q fst snd].

Lemma phase_nonneg (par : cell_params Q) (P T : Q) :
  0 <= P -> 0 <= fst (phase par P T) /\ 0 <= snd (phase par P T).
Proof.
  intros HP. unfold phase. q_ops.
  split.
  - destruct (Qle_bool (parTT par) T); lra.
  - destruct (negb (Qle_bool (parTT par) T)); lra.
Qed.

Lemma snow_nonneg (par : cell_params Q) (T SNOW SP MW : Q) :
  0 <= parCWH par -> 0 <= SNOW -> 0 <= SP -> 0 <= MW ->
  let r := snow par T SNOW SP MW in
  0 <= fst (fst r) /\ 0 <= snd (fst r) /\ 0 <= snd r.
Proof.
  intros Hc Hsnow Hsp Hmw. unfold snow. q_ops.
  set (SP1 := SP + SNOW).
  set (melt := Qmin (Qmax (parCFMAX par * (T - parTT par)) 0) SP1).
  set (MW1 := MW + melt).
  set (refr := Qmin (Qmax (parCFR par * parCFMAX par * (parTT par - T)) 0) MW1).
  set (SP2 := SP1 - melt + refr).
  set (MW2 := MW1 - refr).
  assert (H1 : 0 <= SP1) by (unfold SP1; lra).
  assert (H2 : 0 <= melt) by (apply Qmin_nonneg; [apply Q.le_max_r | exact H1]).
  assert (H3 : melt <= SP1) by apply Q.le_min_r.
  assert (H4 : 0 <= MW1) by (unfold MW1; lra).
  assert (H5 : 0 <= refr) by (apply Qmin_nonneg; [apply Q.le_max_r | exact H4]).
  assert (H6 : refr <= MW1) by apply Q.le_min_r.
  assert (H7 : 0 <= SP2) by (unfold SP2; lra).
  assert (H8 : 0 <= MW2) by (unfold MW2; lra).
  assert (H9 : 0 <= parCWH par * SP2) by (apply Qmult_le_0_compat; assumption).
  split; [exact H7|]. split; [|apply Q.le_max_r].
  destruct (Q.max_spec (MW2 - parCWH par * SP2) 0) as [[_ He]|[_ He]];
    rewrite He; lra.
Qed.

Lemma soil_bounds (pow : Q -> Q -> Q) (nearzero : Q) (par : cell_params Q)
      (PET RAIN tosoil SM : Q) :
  0 <= RAIN -> 0 <= tosoil ->
  let r := soil pow nearzero par PET RAIN tosoil SM in
  let SM' := fst (fst (fst (fst r))) in
  let recharge := snd (fst (fst (fst r))) in
  let excess := snd (fst (fst r)) in
  nearzero <= SM' /\ 0 <= recharge /\ 0 <= excess.
Proof.
  intros Hrain Hsoil. unfold soil. q_ops.
  split; [apply Q.le_max_r|]. split; [|apply Q.le_max_r].
  apply Qmult_le_0_compat; [lra|].
  apply Qmin_nonneg; [apply Q.le_max_r | lra].
Qed.

Lemma capillary_rise_floor (nearzero : Q) (par : cell_params Q) (SM SLZ : Q) :
  let r := capillary_rise nearzero par SM SLZ in
  nearzero <= fst (fst r) /\ nearzero <= snd (fst r).
Proof.
  unfold capillary_rise. q_ops. split; apply Q.le_max_r.
Qed.

Lemma groundwater_nonneg (par : cell_params Q) (recharge excess SUZ SLZ : Q) :
  0 <= recharge -> 0 <= excess -> 0 <= SUZ -> 0 <= SLZ ->
  parK0 par <= 1 -> parK1 par <= 1 -> parK2 par <= 1 -> 0 <= parUZL par ->
  0 <= parPERC par ->
  let r := groundwater par recharge excess SUZ SLZ in
  let SUZ' := fst (fst (fst (fst (fst r)))) in
  let SLZ' := snd (fst (fst (fst (fst r)))) in
  0 <= SUZ' /\ 0 <= SLZ'.
Proof.
  intros Hr He Hsuz Hslz HK0 HK1 HK2 Huzl Hperc. unfold groundwater. q_ops.
  set (SUZ1 := SUZ + recharge + excess).
  set (PERC := Qmin SUZ1 (parPERC par)).
  set (SUZ2 := SUZ1 - PERC).
  set (m := Qmax (SUZ2 - parUZL par) 0).
  set (SUZ3 := SUZ2 - parK0 par * m).
  set (SLZ1 := SLZ + PERC).
  assert (H1 : 0 <= SUZ1) by (unfold SUZ1; lra).
  assert (H2 : PERC <= SUZ1) by apply Q.le_min_l.
  assert (H3 : 0 <= PERC) by (apply Qmin_nonneg; assumption).
  assert (H4 : 0 <= SUZ2) by (unfold SUZ2; lra).
  assert (H5 : 0 <= m) by apply Q.le_max_r.
  assert (H6 : m <= SUZ2) by (apply Q.max_lub; lra).
  assert (H7 : 0 <= (1 - parK0 par) * m) by (apply Qmult_le_0_compat; lra).
  assert (H8 : 0 <= SUZ3) by (unfold SUZ3; lra).
  assert (H9 : 0 <= (1 - parK1 par) * SUZ3) by (apply Qmult_le_0_compat; lra).
  assert (H10 : 0 <= SLZ1) by (unfold SLZ1; lra).
  assert (H11 : 0 <= (1 - parK2 par) * SLZ1) by (apply Qmult_le_0_compat; lra).
  split; lra.
Qed.

(** C7, as amended.  For a cell with non-negative precipitation and potential
    evapotranspiration, parameters within their declared bounds, a
    non-negative floor [nearzero] and non-negative storages (in particular
    storages at or above the floor), after one step of the explicit scheme
    the soil moisture [SM] is at or above the floor and each of the five
    storages is non-negative. *)
Theorem storages_after_step
        (pow : Q -> Q -> Q) (nearzero P T PET : Q)
        (par : cell_params Q) (s : storages Q) :
  0 <= nearzero -> 0 <= P -> 0 <= PET ->
  in_bounds par -> storages_ge 0 s ->
  nearzero <= st_SM (fst (step pow nearzero par P T PET s)) /\
  storages_ge 0 (fst (step pow nearzero par P T PET s)).
Proof.
  intros Hnz HP HPET Hb [Hsp [Hmw [Hsm [Hsuz Hslz]]]].
  unfold in_bounds, within_bounds in Hb. cbn in Hb.
  destruct Hb as [_ [_ [HK0 [HK1 [HK2 [_ [HPERC [HUZL [_ [_ [_ [HCWH _]]]]]]]]]]]].
  unfold step.
  pose proof (phase_nonneg par T HP) as Hphase.
  destruct (phase par P T) as [RAIN SNOW]. cbn [fst snd] in Hphase.
  destruct Hphase as [Hrain Hsnow].
  pose proof (@snow_nonneg par T SNOW _ _ (proj1 HCWH) Hsnow Hsp Hmw) as Hsn.
  destruct (snow par T SNOW (st_SNOWPACK s) (st_MELTWATER s)) as [[SP' MW'] tosoil].
  cbn [fst snd] in Hsn. destruct Hsn as [Hsp' [Hmw' Htosoil]].
  pose proof (@soil_bounds pow nearzero par PET RAIN tosoil (st_SM s) Hrain Htosoil)
    as Hso.
  destruct (soil pow nearzero par PET RAIN tosoil (st_SM s))
    as [[[[SM1 recharge] excess] evapfactor] ETact].
  cbn [fst snd] in Hso. destruct Hso as [_ [Hre Hex]].
  pose proof (capillary_rise_floor nearzero par SM1 (st_SLZ s)) as Hca.
  destruct (capillary_rise nearzero par SM1 (st_SLZ s)) as [[SM2 SLZ1] capillary].
  cbn [fst snd] in Hca. destruct Hca as [Hsm2 Hslz1].
  assert (Hslz1' : 0 <= SLZ1) by lra.
  assert (HK0' : parK0 par <= 1) by lra.
  assert (HK1' : parK1 par <= 1) by lra.
  assert (HK2' : parK2 par <= 1) by lra.
  pose proof (@groundwater_nonneg par recharge excess (st_SUZ s) SLZ1
                Hre Hex Hsuz Hslz1' HK0' HK1' HK2'
                (proj1 HUZL) (proj1 HPERC)) as Hgw.
  destruct (groundwater par recharge excess (st_SUZ s) SLZ1)
    as [[[[[SUZ' SLZ'] PERC] Q0] Q1] Q2].
  cbn [fst snd] in Hgw. destruct Hgw as [Hsuz' Hslz'].
  cbn [fst st_SM]. split; [exact Hsm2|].
  unfold storages_ge. cbn [st_SNOWPACK st_MELTWATER st_SM st_SUZ st_SLZ].
  repeat split; try assumption. lra.
Qed.

Lemma melt_day_inputs :
  0 <= MeltDay.nearzero /\ 0 <= MeltDay.P /\ 0 <= MeltDay.PET /\
  in_bounds MeltDay.par /\ storages_ge MeltDay.nearzero MeltDay.s0 /\
  storages_ge 0 MeltDay.s0.
Proof.
  unfold in_bounds, within_bounds, storages_ge. cbn.
  repeat split; unfold Qle; cbn; lia.
Qed.

(** The claim C7 as it stands fails on a melt day: precipitation and
    potential evapotranspiration are non-negative, the parameters are within
    their bounds and the storages start at the floor or above, and the
    snowpack ends the step at 0, below the floor. *)
Lemma snowpack_falls_below_floor :
  (0 <= MeltDay.P /\ 0 <= MeltDay.PET /\ in_bounds MeltDay.par /\
   storages_ge MeltDay.nearzero MeltDay.s0)
  /\ st_SNOWPACK MeltDay.after == 0
  /\ ~ storages_ge MeltDay.nearzero MeltDay.after.
Proof.
  split; [|split].
  - pose proof melt_day_inputs as [_ [HP [HPET [Hb [Hs _]]]]].
    split; [exact HP | split; [exact HPET | split; [exact Hb | exact Hs]]].
  - vm_compute. reflexivity.
  - intros [Hsp _]. vm_compute in Hsp. apply Hsp. reflexivity.
Qed.

(** The amended statement applies to the melt day. *)
Lemma storages_after_step_witness :
  MeltDay.nearzero <= st_SM MeltDay.after /\ storages_ge 0 MeltDay.after.
Proof.
  pose proof melt_day_inputs as [Hnz [HP [HPET [Hb [_ Hs]]]]].
  exact (storages_after_step MeltDay.pow MeltDay.T Hnz HP HPET Hb Hs).
Defined.

End ExplicitStep.

(** ** Dynamic-parameter masking *)

Section Slices.
Context {F : Type} `{Scalar F}.

Lemma feature_entry (i : nat) (a : list (list (list F))) (f : list (list F))
      (t g : nat) (v : F) :
  feature i a = Ok f -> entry3 a t g i = Some v -> entry2 f t g = Some v.
Proof.
  unfold feature, entry3, entry2. intros Hf Hv.
  destruct (nth_error a t) as [m|] eqn:Em; [|discriminate].
  destruct (nth_error m g) as [row|] eqn:Eg; [|discriminate].
  destruct (mapM_nth _ _ _ Hf Em) as [fm [Hfm ->]].
  destruct (mapM_nth _ _ _ Hfm Eg) as [w [Hw ->]].
  rewrite Hv in Hw. congruence.
Qed.

Lemma nth_error_set_nth {A : Type} (i : nat) (v : A) :
  forall l, (i < List.length l)%nat -> nth_error (set_nth i v l) i = Some v.
Proof.
  induction i as [|i IH]; intros [|a l] Hlt; simpl in *; try lia.
  - reflexivity.
  - apply IH. lia.
Qed.

Lemma set_feature_entry (i : nat) (c : list (list F)) (a a' : list (list (list F)))
      (t g : nat) (v old : F) :
  set_feature i c a = Ok a' ->
  entry2 c t g = Some v -> entry3 a t g i = Some old ->
  entry3 a' t g i = Some v.
Proof.
  unfold set_feature, entry3, entry2. intros Hs Hv Hold.
  destruct (nth_error c t) as [crow|] eqn:Ec; [|discriminate].
  destruct (nth_error a t) as [m|] eqn:Em; [|discriminate].
  destruct (nth_error m g) as [row|] eqn:Eg; [|discriminate].
  destruct (zipWith_nth _ _ _ _ Hs Ec Em) as [m' [Hm' ->]].
  destruct (zipWith_nth _ _ _ _ Hm' Hv Eg) as [row' [Hrow' ->]].
  injection Hrow' as <-.
  apply nth_error_set_nth. apply nth_error_Some. congruence.
Qed.

Lemma entry3_repeat {A : Type} (m : list (list A)) (n t g j : nat) :
  (t < n)%nat -> entry3 (repeat m n) t g j = entry2 m g j.
Proof.
  intros Hlt. unfold entry3.
  rewrite (nth_error_repeat m Hlt). reflexivity.
Qed.

Lemma adj_mix_entry (dyn sta drmask com : list (list F)) (t g : nat) (d s : F) :
  HBV_adj.mix dyn sta drmask = Ok com ->
  entry2 dyn t g = Some d -> entry2 sta t g = Some s ->
  exists mask,
    drmask = [mask] /\
    forall mk, nth_error mask g = Some mk ->
      entry2 com t g = Some (fadd (fmul d (fsub f1 mk)) (fmul s mk)).
Proof.
  unfold HBV_adj.mix, entry2. intros Hmix Hd Hs.
  destruct drmask as [|mask [|? ?]]; try discriminate.
  exists mask. split; [reflexivity|]. intros mk Hmk.
  destruct (nth_error dyn t) as [drow|] eqn:Ed; [|discriminate].
  destruct (nth_error sta t) as [srow|] eqn:Es; [|discriminate].
  destruct (zipWith_nth _ _ _ _ Hmix Ed Es) as [crow [Hcrow ->]].
  unfold HBV_adj.mix_row in Hcrow.
  apply bind_ok in Hcrow as [ds [Hds Hcrow]].
  destruct (zipWith_nth _ _ _ _ Hds Hd Hs) as [x [Hx Hnx]].
  injection Hx as <-.
  destruct (zipWith_nth _ _ _ _ Hcrow Hnx Hmk) as [c [Hc ->]].
  injection Hc as <-. reflexivity.
Qed.

Lemma capillary_mix_entry (dyn : list (list (list F))) (sta drmask : list (list F))
      (mixed : list (list (list F))) (t g m : nat) (d s mk : F) :
  HBVCapillary.mix dyn sta drmask = Ok mixed ->
  entry3 dyn t g m = Some d -> entry2 sta g m = Some s ->
  nth_error drmask g = Some [mk] ->
  entry3 mixed t g m = Some (fadd (fmul d (fsub f1 mk)) (fmul s mk)).
Proof.
  unfold HBVCapillary.mix, entry3, entry2. intros Hmix Hd Hs Hmk.
  destruct (nth_error dyn t) as [dyn_t|] eqn:Et; [|discriminate].
  destruct (nth_error dyn_t g) as [drow|] eqn:Eg; [|discriminate].
  destruct (nth_error sta g) as [srow|] eqn:Es; [|discriminate].
  destruct (mapM_nth _ _ _ Hmix Et) as [mt [Hmt ->]].
  apply bind_ok in Hmt as [ds [Hds Hmt]].
  destruct (zipWith_nth _ _ _ _ Hds Eg Es) as [x [Hx Hnx]].
  injection Hx as <-.
  destruct (zipWith_nth _ _ _ _ Hmt Hnx Hmk) as [crow [Hcrow ->]].
  unfold HBVCapillary.mix_basin in Hcrow. cbn [fst snd] in Hcrow.
  destruct (zipWith_nth _ _ _ _ Hcrow Hd Hs) as [c [Hc ->]].
  injection Hc as <-. reflexivity.
Qed.

End Slices.

Section Masking.
Local Open Scope Q_scope.

Lemma mask_one (d s mk : Q) : mk == 1 -> d * (1 - mk) + s * mk == s.
Proof. intros ->. ring. Qed.

Lemma mask_zero (d s mk : Q) : mk == 0 -> d * (1 - mk) + s * mk == d.
Proof. intros ->. ring. Qed.

Lemma change_param_range_eq (u v : Q) (bnd : Q * Q) :
  u == v -> change_param_range u bnd == change_param_range v bnd.
Proof.
  intros Huv. unfold change_param_range.
  cbn [fadd fmul fsub Scalar_Q]. rewrite Huv. reflexivity.
Qed.

End Masking.

(* ================================================================== *)
(** * The statements on concrete inputs *)

(** ** Linear decay: one implicit step and its backward pass *)

Lemma linear_solver_sound : solver_sound LinearDecay.matrixSolve.
Proof.
  intros a b x Hs. unfold LinearDecay.matrixSolve in Hs.
  apply bind_ok in Hs as [r [Hr Hs]]. injection Hs as <-.
  revert b r Hr.
  induction a as [|m a IH]; intros [|u b] r Hr; simpl in Hr; try discriminate.
  - injection Hr as <-. reflexivity.
  - apply bind_ok in Hr as [x1 [Hx1 Hr]].
    apply bind_ok in Hr as [xs [Hxs Hr]]. injection Hr as <-.
    unfold bmatvec. simpl. f_equal; [|apply (IH _ _ Hxs)].
    unfold LinearDecay.solve1 in Hx1.
    destruct m as [|[|c [|? ?]] [|? ?]]; try discriminate.
    destruct u as [|g [|? ?]]; try discriminate.
    destruct (Qeq_bool c 0) eqn:Hc; [discriminate|].
    injection Hx1 as <-.
    unfold matvec, dot. simpl. f_equal.
    assert (Hne : c <> 0%Qc) by (intros ->; discriminate Hc).
    change (Q2Qc 0) with 0%Qc. field. exact Hne.
Qed.

(** One step of [nsteps_pDyn] from [xt = 1] with [p = 1], [dt = 1]: the root
    of [(x - xt)/dt + p x] is [x = xt / (1 + p dt) = 1/2], and the backward
    rule of the step returns [dx/dxt = 1/2] in the slot of [p2]. *)
Lemma linear_decay_step :
  exists x ctx g v,
    MOL.nsteps_pDyn 5 (LinearDecay.mol 0 1)
                    (T3 [[[LinearDecay.q 1]]]) (T2 [[LinearDecay.q 1]])
    = Some (Ok [(x, Some ctx)]) /\
    NewtonSolve.backward LinearDecay.matrixSolve ctx (T2 [[LinearDecay.q 1]])
    = Ok g /\
    dLdp2 g = Some (T2 [[v]]) /\ v = Q2Qc (1 # 2) /\ dLdx0 g = None.
Proof.
  do 4 eexists. split; [vm_compute; reflexivity|].
  split; [vm_compute; reflexivity|].
  split; [reflexivity|]. split; [|reflexivity].
  apply Qc_is_canon. vm_compute. reflexivity.
Qed.

(** The claim C2 as it stands fails: [nsteps_pDyn] hands the previous state
    [xt] to the solver as [p2], and the backward rule of the step returns a
    gradient for it, here [1/2]. *)
Lemma previous_state_receives_gradient :
  exists x ctx g v,
    MOL.nsteps_pDyn 5 (LinearDecay.mol 0 1)
                    (T3 [[[LinearDecay.q 1]]]) (T2 [[LinearDecay.q 1]])
    = Some (Ok [(x, Some ctx)]) /\
    NewtonSolve.backward LinearDecay.matrixSolve ctx (T2 [[LinearDecay.q 1]])
    = Ok g /\
    dLdp2 g = Some (T2 [[v]]) /\ v = Q2Qc (1 # 2) /\ dLdp2 g <> None.
Proof.
  destruct linear_decay_step as [x [ctx [g [v [Hrun [Hback [Hg [Hv _]]]]]]]].
  exists x, ctx, g, v. repeat split; try assumption.
  rewrite Hg. discriminate.
Qed.

Lemma state_gradient_through_p2_witness :
  exists g : grads Qc,
    dLdp g <> None /\ dLdp2 g <> None /\
    dLdt g = None /\ dLdG g = None /\ dLdx0 g = None /\ dLdauxG g = None /\
    dLdbatchP g = None /\ dLdeval g = None /\ dLdAD_efficient g = None.
Proof.
  destruct linear_decay_step as [x [ctx [g [v [Hrun [Hback _]]]]]].
  exists g.
  refine (@state_gradient_through_p2 Qc _ unit
            LinearDecay.matrixSolve LinearDecay.batchJacobian
            LinearDecay.autograd_grad
            5%nat (LinearDecay.mol 0 1) _ _ _ x _ ctx g eq_refl Hrun _ Hback).
  left. reflexivity.
Defined.

Lemma backward_adjoint_witness :
  bmatvec (map transpose [[[LinearDecay.q 2]]])
          [[Qcdiv (LinearDecay.q 1) (LinearDecay.q 2)]]
  = [[LinearDecay.q 1]]
  /\
  NewtonSolve.backward LinearDecay.matrixSolve
    (mkSaved (T3 [[[LinearDecay.q 3]]]) (Some (T3 [[[LinearDecay.q (-1)]]]))
             (T3 [[[LinearDecay.q 2]]]))
    (T2 [[LinearDecay.q 1]])
  = Ok (mkGrads
          (Some (T2 (adjoint_grad [[Qcdiv (LinearDecay.q 1) (LinearDecay.q 2)]]
                                  [[[LinearDecay.q 3]]])))
          (Some (T2 (adjoint_grad [[Qcdiv (LinearDecay.q 1) (LinearDecay.q 2)]]
                                  [[[LinearDecay.q (-1)]]])))
          None None None None None None None).
Proof.
  refine (@backward_adjoint Qc _ LinearDecay.matrixSolve
            [[[LinearDecay.q 2]]] [[[LinearDecay.q 3]]]
            (Some [[[LinearDecay.q (-1)]]])
            [[LinearDecay.q 1]] [[Qcdiv (LinearDecay.q 1) (LinearDecay.q 2)]]
            linear_solver_sound eq_refl _ _).
  - constructor; [|constructor]. split; [discriminate | reflexivity].
  - intros Q HQ. injection HQ as <-.
    constructor; [|constructor]. split; [discriminate | reflexivity].
Defined.

Lemma MOL_forward_residual_witness :
  exists gg,
    MOL.forward (LinearDecay.mol 0 1) (T2 [[LinearDecay.q 1]])
                (T2 [[LinearDecay.q 1]]) (T2 [[LinearDecay.q 1]]) 0
                (LinearDecay.q 1, None)
    = Ok (T2 gg) /\
    entry2 gg 0 0
    = Some (backward_euler_entry (LinearDecay.q 1) (LinearDecay.q 1) (LinearDecay.q 1)
                                 (fneg (fmul (LinearDecay.q 1) (LinearDecay.q 1)))).
Proof.
  assert (Hshape : same_shape2 [[LinearDecay.q 1]] [[LinearDecay.q 1]])
    by (constructor; [reflexivity | constructor]).
  assert (Hshape' : same_shape2 [[LinearDecay.q 1]]
                                [[fneg (fmul (LinearDecay.q 1) (LinearDecay.q 1))]])
    by (constructor; [reflexivity | constructor]).
  destruct (@MOL_forward_residual Qc _ unit (LinearDecay.mol 0 1)
              [[LinearDecay.q 1]] [[LinearDecay.q 1]]
              [[fneg (fmul (LinearDecay.q 1) (LinearDecay.q 1))]]
              (T2 [[LinearDecay.q 1]])
              (T2 [[fneg (fmul (LinearDecay.q 1) (LinearDecay.q 1))]])
              0%nat (LinearDecay.q 1) None Hshape Hshape' eq_refl) as [Heuler _].
  destruct (Heuler eq_refl) as [gg [Hgg [_ Hentry]]].
  exists gg. split; [exact Hgg|].
  apply (Hentry 0%nat 0%nat); reflexivity.
Defined.

(** ** Linear decay: the solver's loop *)


Lemma jacobian_recomputed_on_slow_progress_witness :
  (exists s',
      LinearDecay.loop_body_two LinearDecay.one_slow = Ok s' /\
      ls_dGdx s' = T3 [[[LinearDecay.q 2]]; [[LinearDecay.q 3]]] /\
      ls_x s' = T2 [[Q2Qc (1 # 2)]; [Q2Qc (1 # 3)]]) /\
  (exists s',
      LinearDecay.loop_body_two LinearDecay.all_fast = Ok s' /\
      ls_dGdx s' = ls_dGdx LinearDecay.all_fast /\
      ls_x s' = T2 [[Q2Qc (3 # 4)]; [Q2Qc (1 # 2)]]).
Proof.
  split.
  - destruct (@jacobian_recomputed_on_slow_progress Qc _ (MOL.AuxG Qc unit)
                LinearDecay.matrixSolve LinearDecay.batchJacobian
                LinearDecay.autograd_grad LinearDecay.p_two LinearDecay.p2_two 0%nat
                LinearDecay.G LinearDecay.auxG true LinearDecay.one_slow)
      as [Hpass _].
    unfold LinearDecay.loop_body_two.
    rewrite (Hpass (T1 [Q2Qc (1 # 10); LinearDecay.q 1]) (LinearDecay.q 1))
      by (vm_compute; reflexivity).
    eexists. split; [vm_compute; reflexivity|].
    split; vm_compute; reflexivity.
  - destruct (@jacobian_recomputed_on_slow_progress Qc _ (MOL.AuxG Qc unit)
                LinearDecay.matrixSolve LinearDecay.batchJacobian
                LinearDecay.autograd_grad LinearDecay.p_two LinearDecay.p2_two 0%nat
                LinearDecay.G LinearDecay.auxG true LinearDecay.all_fast)
      as [Hpass _].
    unfold LinearDecay.loop_body_two.
    rewrite (Hpass (T1 [Q2Qc (1 # 10); Q2Qc (1 # 10)]) (Q2Qc (1 # 10)))
      by (vm_compute; reflexivity).
    eexists. split; [vm_compute; reflexivity|].
    split; vm_compute; reflexivity.
Defined.

(** ** The models without routing *)

Lemma HBV_adj_needs_routing_witness :
  HBV_adj.routing (HBV_adj.init (F := Qc) None) = false /\
  raises (HBV_adj.unpack_parameters Stub.sigmoid (HBV_adj.init None)
                                    [[[LinearDecay.q 0]]] 1 1).
Proof.
  split; [reflexivity|].
  exact (proj1 (proj2 (@HBV_adj_needs_routing Qc _ Stub.sigmoid Stub.pow unit
                         Stub.bernoulli LinearDecay.matrixSolve
                         LinearDecay.batchJacobian LinearDecay.autograd_grad
                         Stub.UH_gamma3 Stub.UH_conv
                         (HBV_adj.init None) [[[LinearDecay.q 0]]]
                         [[[LinearDecay.q 0]]] 1%nat 1%nat 5%nat tt eq_refl))).
Defined.

Lemma HBVCapillary_output_needs_routing_witness :
  HBVCapillary.routing (HBVCapillary.init (F := Qc) None) = false /\
  HBVCapillary.initialize (HBVCapillary.init (F := Qc) None) = false /\
  raises (HBVCapillary.forward Stub.sigmoid Stub.pow Stub.bernoulli
            Stub.UH_gamma Stub.UH_conv (HBVCapillary.init None) tt
            [[[LinearDecay.q 0; LinearDecay.q 5; LinearDecay.q 0]]] None
            [[repeat (LinearDecay.q 0) 14]]).
Proof.
  split; [reflexivity|]. split; [reflexivity|].
  exact (@HBVCapillary_output_needs_routing Qc _ Stub.sigmoid Stub.pow unit
           Stub.bernoulli Stub.UH_gamma Stub.UH_conv
           (HBVCapillary.init None) tt
           [[[LinearDecay.q 0; LinearDecay.q 5; LinearDecay.q 0]]] None
           [[repeat (LinearDecay.q 0) 14]] eq_refl eq_refl).
Defined.

(** On that input (one time step, one basin, fourteen raw parameters) every
    step before the baseflow index succeeds, and the error is the TypeError
    of [torch.sum(None)]. *)
Example HBVCapillary_without_routing :
  HBVCapillary.forward Stub.sigmoid Stub.pow Stub.bernoulli
    Stub.UH_gamma Stub.UH_conv (HBVCapillary.init None) tt
    [[[LinearDecay.q 0; LinearDecay.q 5; LinearDecay.q 0]]] None
    [[repeat (LinearDecay.q 0) 14]]
  = Raise (TypeError "sum(): argument 'input' must be Tensor, not NoneType").
Proof. vm_compute. reflexivity. Qed.

(** With routing off, twelve raw parameters reshape, and the error of
    [HBV_adj.unpack_parameters] is the unbound local. *)
Example HBV_adj_without_routing :
  HBV_adj.unpack_parameters Stub.sigmoid (HBV_adj.init None)
                            [[repeat (LinearDecay.q 0) 12]] 1 1
  = Raise (UnboundLocalError "routing_params").
Proof. vm_compute. reflexivity. Qed.

(* ================================================================== *)
(** * Further properties of the two files *)

(** ** Dictionaries, Python indexing and chunks *)

Lemma dict_get_set_same {V : Type} (d : list (string * V)) (k : string) (v : V) :
  dict_get (dict_set d k v) k = Ok v.
Proof.
  induction d as [|[k0 w] d IH]; cbn [dict_set dict_get].
  - rewrite String.eqb_refl. reflexivity.
  - destruct (String.eqb k k0) eqn:E; cbn [dict_get]; rewrite E; [reflexivity | exact IH].
Qed.

Lemma dict_get_set_other {V : Type} (d : list (string * V)) (k k' : string) (v : V) :
  k' <> k -> dict_get (dict_set d k v) k' = dict_get d k'.
Proof.
  intros Hne. induction d as [|[k0 w] d IH]; cbn [dict_set dict_get].
  - apply String.eqb_neq in Hne. rewrite Hne. reflexivity.
  - destruct (String.eqb k k0) eqn:E; cbn [dict_get].
    + apply String.eqb_eq in E. subst k0.
      apply String.eqb_neq in Hne. rewrite Hne. reflexivity.
    + rewrite IH. reflexivity.
Qed.

Lemma py_index_nth {A : Type} (l : list A) (k : Z) (a : A) :
  py_index l k = Ok a ->
  exists i, nth_error l i = Some a /\
            Z.of_nat i = (if (k <? 0)%Z then k + Z.of_nat (List.length l) else k)%Z.
Proof.
  unfold py_index. intros Hp.
  set (j := if (k <? 0)%Z then (k + Z.of_nat (List.length l))%Z else k) in *.
  destruct ((0 <=? j)%Z && (j <? Z.of_nat (List.length l))%Z)%bool eqn:Hr;
    [|discriminate].
  apply andb_true_iff in Hr as [H0 H1]. apply Z.leb_le in H0.
  destruct (nth_error l (Z.to_nat j)) as [a'|] eqn:Hn; [|discriminate].
  injection Hp as <-. exists (Z.to_nat j). split; [exact Hn | lia].
Qed.

Lemma py_index_of_nth {A : Type} (l : list A) (k : Z) (i : nat) (a : A) :
  nth_error l i = Some a ->
  Z.of_nat i = (if (k <? 0)%Z then k + Z.of_nat (List.length l) else k)%Z ->
  py_index l k = Ok a.
Proof.
  intros Hn Hi. unfold py_index. rewrite <- Hi.
  assert (Hlt : (i < List.length l)%nat)
    by (apply nth_error_Some; rewrite Hn; discriminate).
  replace ((0 <=? Z.of_nat i)%Z && (Z.of_nat i <? Z.of_nat (List.length l))%Z)%bool
    with true
    by (symmetry; apply andb_true_iff; split; [apply Z.leb_le | apply Z.ltb_lt]; lia).
  rewrite Nat2Z.id, Hn. reflexivity.
Qed.

Lemma py_index_mapM {A B : Type} (f : A -> result B) (l : list A) (l' : list B)
      (k : Z) (b : B) :
  mapM f l = Ok l' -> py_index l' k = Ok b ->
  exists a, py_index l k = Ok a /\ f a = Ok b.
Proof.
  intros Hm Hp. apply py_index_nth in Hp as [i [Hn Hi]].
  rewrite (mapM_length _ _ Hm) in Hi.
  assert (Hlt : (i < List.length l)%nat).
  { rewrite <- (mapM_length _ _ Hm). apply nth_error_Some. rewrite Hn. discriminate. }
  destruct (nth_error l i) as [a|] eqn:Ha; [|apply nth_error_None in Ha; lia].
  destruct (mapM_nth _ _ _ Hm Ha) as [b' [Hfa Hb']].
  rewrite Hn in Hb'. injection Hb' as <-.
  exists a. split; [|exact Hfa]. eapply py_index_of_nth; eassumption.
Qed.

Lemma py_index_map {A B : Type} (f : A -> B) (l : list A) (k : Z) (b : B) :
  py_index (map f l) k = Ok b -> exists a, py_index l k = Ok a /\ b = f a.
Proof.
  intros Hp. apply py_index_nth in Hp as [i [Hn Hi]].
  rewrite length_map in Hi. rewrite nth_error_map in Hn.
  destruct (nth_error l i) as [a|] eqn:Ha; [|discriminate].
  injection Hn as <-. exists a. split; [|reflexivity].
  eapply py_index_of_nth; eassumption.
Qed.

Lemma chunks_nth {A : Type} (n : nat) :
  forall k (l : list A) i,
    (i < k)%nat -> nth_error (chunks n k l) i = Some (firstn n (skipn (i * n) l)).
Proof.
  induction k as [|k IH]; intros l i Hi; [lia|].
  cbn [chunks]. destruct i as [|i]; cbn [nth_error].
  - reflexivity.
  - rewrite IH by lia. rewrite skipn_skipn.
    replace (i * n + n)%nat with (S i * n)%nat by lia. reflexivity.
Qed.

Lemma chunk_entry {A : Type} (n : nat) (l : list A) (i j : nat) :
  (j < n)%nat ->
  nth_error (firstn n (skipn (i * n) l)) j = nth_error l (i * n + j).
Proof.
  intros Hj. rewrite nth_error_firstn.
  apply Nat.ltb_lt in Hj. rewrite Hj.
  rewrite nth_error_skipn. reflexivity.
Qed.

(** ** NewtonSolve.forward: what it returns and what it saves *)

Section NewtonForward.
Context {F : Type} `{Scalar F} {Aux : Type}.
Variable matrixSolve : tensor F -> tensor F -> result (tensor F).
Variable batchJacobian :
  NewtonSolve.GFun F Aux -> point F Aux -> wrt -> result (tensor F).
Variable autograd_grad :
  NewtonSolve.GFun F Aux -> point F Aux -> nat -> wrt -> list F -> result (list (list F)).
Variables (p : tensor F) (p2 : option (tensor F)) (t : nat)
          (G : NewtonSolve.GFun F Aux) (auxG : Aux) (AD_efficient : bool).

Local Abbreviation fresh_jacobian :=
  (NewtonSolve.fresh_jacobian batchJacobian autograd_grad p p2 t G auxG AD_efficient).
Local Abbreviation forward :=
  (NewtonSolve.forward matrixSolve batchJacobian autograd_grad).

(** The loop does not run from a state whose residual meets the tolerance. *)
Lemma newton_loop_converged (fuel : nat) (s : loop_state F) (m : F) :
  torch_max (ls_resnorm s) = Ok m ->
  fgtb m NewtonSolve.gtol = false ->
  NewtonSolve.newton_loop matrixSolve batchJacobian autograd_grad p p2 t G auxG
                          AD_efficient (S fuel) s = Some (Ok s).
Proof.
  intros Hm Hg. unfold NewtonSolve.newton_loop. cbn [while_loop].
  unfold NewtonSolve.loop_cond. rewrite Hm. cbn [bind]. rewrite Hg. reflexivity.
Qed.

(** X1.  [NewtonSolve.forward] started from a guess whose residual already
    meets the tolerance (the maximum over the batch of the residual
    infinity-norms is not above [gtol]) makes no Newton update: it returns the
    guess itself ([x0], or [p2] when [x0] is [None]).  In evaluation mode
    nothing is saved; otherwise the state Jacobian saved for the backward
    pass is the one computed at the guess. *)
Theorem converged_guess_is_returned
        (fuel : nat) (x0 : option (tensor F)) (x gg J rn : tensor F) (m : F)
        (batchP : bool) :
  x0 = Some x \/ (x0 = None /\ p2 = Some x) ->
  fresh_jacobian x = Ok (gg, J) ->
  linalg_norm_inf gg = Ok rn ->
  torch_max rn = Ok m ->
  fgtb m NewtonSolve.gtol = false ->
  forward (S fuel) p p2 t G x0 auxG batchP true AD_efficient = Some (Ok (x, None))
  /\
  forall y ctx,
    forward (S fuel) p p2 t G x0 auxG batchP false AD_efficient = Some (Ok (y, ctx)) ->
    y = x /\ exists c, ctx = Some c /\ dGdx c = J.
Proof.
  intros Hx0 HJ Hrn Hm Hg.
  assert (Hinit : match x0, p2 with
                  | None, Some v => Some v
                  | _, _ => x0
                  end = Some x).
  { destruct Hx0 as [-> | [-> ->]]; [destruct p2|]; reflexivity. }
  unfold NewtonSolve.forward. rewrite Hinit, HJ. cbn [bind fst snd].
  rewrite Hrn. cbn [bind].
  rewrite (@newton_loop_converged fuel _ m); [|exact Hm|exact Hg].
  cbn [ls_x ls_gg ls_dGdx]. split; [reflexivity|].
  intros y ctx Hf. injection Hf as Hf.
  destruct batchP; [|discriminate].
  destruct p2 as [q|].
  - apply bind_ok in Hf as [d1 [_ Hf]].
    apply bind_ok in Hf as [d2 [_ Hf]].
    apply bind_ok in Hf as [u [_ Hf]].
    injection Hf as <- <-. split; [reflexivity|]. eexists; split; reflexivity.
  - apply bind_ok in Hf as [d1 [_ Hf]].
    injection Hf as <- <-. split; [reflexivity|]. eexists; split; reflexivity.
Qed.

(** X2.  Outside evaluation mode [NewtonSolve.forward] cannot be used with
    [batchP = False]: the [assert] on a non-empty string always passes, and
    [ctx.save_for_backward(dGdp, ...)] then reads locals that only the
    [batchP] branch binds.  Whatever the inputs, the call ends in an
    exception. *)
Theorem forward_needs_batchP (fuel : nat) (x0 : option (tensor F)) :
  (NewtonSolve.max_iter + 2 <= fuel)%nat ->
  exists e, forward fuel p p2 t G x0 auxG false false AD_efficient = Some (Raise e).
Proof.
  intros Hfuel.
  pose proof (@forward_enough_fuel F _ Aux matrixSolve batchJacobian autograd_grad
                p p2 t G auxG AD_efficient fuel x0 false false Hfuel) as [r [Hr _]].
  rewrite Hr. destruct r as [v|e]; [|exists e; reflexivity].
  exfalso. revert Hr. unfold NewtonSolve.forward.
  destruct (match x0 with Some _ => x0 | None => _ end) as [xi|]; [|discriminate].
  match goal with
  | |- match ?init with _ => _ end = _ -> _ => destruct init as [s0|e]; [|discriminate]
  end.
  destruct (NewtonSolve.newton_loop _ _ _ _ _ _ _ _ _ _ _) as [[s|e]|]; discriminate.
Qed.

(** X3.  When [NewtonSolve.forward] returns, it has saved tensors for the
    backward pass exactly when [eval] is false (and then [batchP] was true);
    among the saved tensors [dGdp2] is present exactly when a second
    parameter group [p2] was given. *)
Theorem forward_saves_unless_eval
        (fuel : nat) (x0 : option (tensor F)) (batchP eval : bool)
        (x : tensor F) (ctx : option (saved F)) :
  forward fuel p p2 t G x0 auxG batchP eval AD_efficient = Some (Ok (x, ctx)) ->
  (eval = true -> ctx = None) /\
  (eval = false ->
   batchP = true /\
   exists c, ctx = Some c /\ (dGdp2 c = None <-> p2 = None)).
Proof.
  unfold NewtonSolve.forward. intros Hf.
  destruct (match x0 with Some _ => x0 | None => _ end) as [xi|]; [|discriminate].
  match type of Hf with
  | match ?init with _ => _ end = _ => destruct init as [s0|e]; [|discriminate]
  end.
  destruct (NewtonSolve.newton_loop _ _ _ _ _ _ _ _ _ _ _) as [[s|e]|];
    try discriminate.
  injection Hf as Hf.
  destruct eval.
  - injection Hf as _ <-. split; [reflexivity | discriminate].
  - split; [discriminate|]. intros _.
    destruct batchP; [|discriminate]. split; [reflexivity|].
    destruct p2 as [q|].
    + apply bind_ok in Hf as [d1 [_ Hf]].
      apply bind_ok in Hf as [d2 [_ Hf]].
      apply bind_ok in Hf as [u [_ Hf]].
      injection Hf as _ <-. eexists; split; [reflexivity|].
      cbn. split; discriminate.
    + apply bind_ok in Hf as [d1 [_ Hf]].
      injection Hf as _ <-. eexists; split; [reflexivity|].
      cbn. split; reflexivity.
Qed.

End NewtonForward.

(** ** batchJacobian_AD_slow *)

Section SlowJacobian.
Context {F : Type} `{Scalar F} {Aux : Type}.
Variable autograd_grad :
  NewtonSolve.GFun F Aux -> point F Aux -> nat -> wrt -> list F -> result (list (list F)).


Lemma has_shape2_rows (b n : nat) (m : list (list F)) :
  NewtonSolve.has_shape2 b n m = true ->
  List.length m = b /\ forall row, In row m -> List.length row = n.
Proof.
  unfold NewtonSolve.has_shape2. intros Hs.
  apply andb_true_iff in Hs as [Hb Hr]. apply Nat.eqb_eq in Hb.
  split; [exact Hb|]. intros row Hin.
  rewrite forallb_forall in Hr. apply Nat.eqb_eq. apply Hr. exact Hin.
Qed.


End SlowJacobian.

(** ** MOL.nsteps_pDyn *)

Section MOLSteps.
Context {F : Type} `{Scalar F} {Aux : Type}.

Lemma broadcast_row_length (n : nat) (row r : list F) :
  MOL.broadcast_row n row = Ok r -> List.length r = n.
Proof.
  unfold MOL.broadcast_row. destruct (List.length row =? n)%nat eqn:E.
  - intros Hr. injection Hr as <-. apply Nat.eqb_eq. exact E.
  - destruct row as [|a [|? ?]]; try discriminate.
    intros Hr. injection Hr as <-. apply repeat_length.
Qed.

Lemma broadcast_rows_shape (b n : nat) (m y : list (list F)) :
  MOL.broadcast_rows b n m = Ok y -> NewtonSolve.has_shape2 b n y = true.
Proof.
  unfold MOL.broadcast_rows. intros Hy.
  apply bind_ok in Hy as [rows [Hrows Hy]].
  assert (Hall : forall r, In r rows -> List.length r = n).
  { intros r Hin. apply In_nth_error in Hin as [i Hi].
    assert (Hilt : (i < List.length m)%nat).
    { rewrite <- (mapM_length _ _ Hrows). apply nth_error_Some. rewrite Hi.
      discriminate. }
    destruct (nth_error m i) as [row|] eqn:Hrow;
      [|apply nth_error_None in Hrow; lia].
    destruct (mapM_nth _ _ i Hrows Hrow) as [r' [Hfr Hr']].
    rewrite Hi in Hr'. injection Hr' as <-.
    eapply broadcast_row_length. exact Hfr. }
  unfold NewtonSolve.has_shape2. apply andb_true_iff.
  destruct (List.length rows =? b)%nat eqn:E.
  - injection Hy as <-. split; [exact E|].
    apply forallb_forall. intros r Hin. apply Nat.eqb_eq. apply Hall. exact Hin.
  - destruct rows as [|r [|? ?]]; try discriminate.
    injection Hy as <-. split; [apply Nat.eqb_eq; apply repeat_length|].
    apply forallb_forall. intros r' Hin. apply repeat_spec in Hin. subst r'.
    apply Nat.eqb_eq. apply Hall. left. reflexivity.
Qed.

(** Whatever is assigned, the slice written has the shape [b x n]. *)
Lemma broadcast2_shape (b n : nat) (x : tensor F) (y : list (list F)) :
  MOL.broadcast2 b n x = Ok y -> NewtonSolve.has_shape2 b n y = true.
Proof.
  destruct x as [v|m|c]; cbn [MOL.broadcast2].
  - apply broadcast_rows_shape.
  - apply broadcast_rows_shape.
  - destruct c as [|m [|? ?]]; try discriminate. apply broadcast_rows_shape.
Qed.

Lemma mapM_id_when {A : Type} (f : A -> result A) (l : list A) :
  (forall a, In a l -> f a = Ok a) -> mapM f l = Ok l.
Proof.
  induction l as [|a l IH]; intros Hf; cbn [mapM]; [reflexivity|].
  rewrite (Hf a (or_introl eq_refl)). cbn [bind].
  rewrite IH by (intros a' Hin; apply Hf; right; exact Hin).
  reflexivity.
Qed.

(** A value that has the shape of the slice is copied as it is. *)
Lemma broadcast2_same (b n : nat) (x : tensor F) :
  MOL.shape2_is b n x = true ->
  exists m, x = T2 m /\ MOL.broadcast2 b n x = Ok m.
Proof.
  destruct x as [v|m|c]; cbn [MOL.shape2_is]; try discriminate.
  intros Hs. exists m. split; [reflexivity|].
  apply has_shape2_rows in Hs as [Hlen Hrows].
  cbn [MOL.broadcast2]. unfold MOL.broadcast_rows.
  rewrite mapM_id_when.
  - cbn [bind]. rewrite Hlen, Nat.eqb_refl. reflexivity.
  - intros row Hin. unfold MOL.broadcast_row.
    rewrite (Hrows row Hin), Nat.eqb_refl. reflexivity.
Qed.

Definition fits_slice (self : MOL.t F Aux) (x : tensor F) : Prop :=
  exists y, MOL.broadcast2 (MOL.bs self) (MOL.ny self) x = Ok y.

Lemma steps_shape (fuel : nat) (self : MOL.t F Aux) (pd : list (list (list F))) :
  forall ts xt acc run,
    MOL.steps fuel self pd ts xt acc = Some (Ok run) ->
    Forall (fun e => fits_slice self (fst e)) acc ->
    List.length run = (List.length acc + List.length ts)%nat /\
    Forall (fun e => fits_slice self (fst e)) run /\
    Forall (fun k => (k < List.length pd)%nat) ts.
Proof.
  induction ts as [|k ts IH]; intros xt acc run Hrun Hacc; cbn [MOL.steps] in Hrun.
  - injection Hrun as <-. rewrite length_rev, Nat.add_0_r.
    split; [reflexivity|]. split; [|constructor].
    apply Forall_rev. exact Hacc.
  - destruct (nth_error pd k) as [p|] eqn:Hp; [|discriminate].
    destruct (MOL.solveAdj self fuel (T2 p) (Some xt) k (MOL.as_G self) None
                (MOL.delta_t self, None) true (MOL.eval self) (MOL.AD_efficient self))
      as [[[x ctx]|e]|]; try discriminate.
    destruct (MOL.broadcast2 (MOL.bs self) (MOL.ny self) x) as [y|e] eqn:Hx;
      [|discriminate].
    edestruct IH as [Hlen [Hall Hts]];
      [exact Hrun | constructor; [exists y; exact Hx | exact Hacc] |].
    split; [cbn [List.length] in *; lia|]. split; [exact Hall|].
    constructor; [|exact Hts].
    apply nth_error_Some. rewrite Hp. discriminate.
Qed.

(** X5.  When [MOL.nsteps_pDyn] returns, [ySolution] holds exactly [rho]
    slices, each of shape [bs x ny], and slice [k] is the state the solver
    returned at step [k], broadcast to that shape: a state of another shape
    (a batch of one under [bsDefault = 2], say) is accepted as long as it can
    be broadcast.  A return needs [rho > 0] (the write [ySolution[0] = x0]
    fails on an empty solution), an [x0] that can be broadcast to [bs x ny],
    and at least [rho] time steps in [pDyn]. *)
Theorem nsteps_pDyn_solution_shape
        (fuel : nat) (self : MOL.t F Aux) (pDyn x0 : tensor F)
        (run : list (tensor F * option (saved F))) :
  MOL.nsteps_pDyn fuel self pDyn x0 = Some (Ok run) ->
  (0 < MOL.rho self)%nat /\
  List.length (MOL.ySolution self run) = MOL.rho self /\
  (forall k x ctx,
      nth_error run k = Some (x, ctx) ->
      exists y,
        MOL.broadcast2 (MOL.bs self) (MOL.ny self) x = Ok y /\
        nth_error (MOL.ySolution self run) k = Some (T2 y) /\
        List.length y = MOL.bs self /\
        forall row, In row y -> List.length row = MOL.ny self) /\
  (exists y0, MOL.broadcast2 (MOL.bs self) (MOL.ny self) x0 = Ok y0) /\
  exists pd, pDyn = T3 pd /\ (MOL.rho self <= List.length pd)%nat.
Proof.
  unfold MOL.nsteps_pDyn. intros Hrun.
  destruct (MOL.rho self =? 0)%nat eqn:Hrho; [discriminate|].
  apply Nat.eqb_neq in Hrho.
  destruct (MOL.broadcast2 (MOL.bs self) (MOL.ny self) x0) as [y0|e] eqn:Hx0;
    [|discriminate].
  destruct pDyn as [|?|pd]; try discriminate.
  edestruct steps_shape as [Hlen [Hall Hts]]; [exact Hrun | constructor |].
  rewrite length_seq in Hlen. cbn [List.length Nat.add] in Hlen.
  split; [lia|]. unfold MOL.ySolution. split; [rewrite length_map; exact Hlen|].
  split; [|split].
  - intros k x ctx Hk.
    rewrite Forall_forall in Hall.
    destruct (Hall _ (nth_error_In _ _ Hk)) as [y Hy]. cbn [fst] in Hy.
    exists y. split; [exact Hy|]. split.
    + rewrite nth_error_map, Hk. cbn [option_map fst]. unfold MOL.written.
      rewrite Hy. reflexivity.
    + apply has_shape2_rows. eapply broadcast2_shape. exact Hy.
  - exists y0. reflexivity.
  - exists pd. split; [reflexivity|].
    rewrite Forall_forall in Hts.
    specialize (Hts (MOL.rho self - 1)%nat).
    assert (Hin : In (MOL.rho self - 1)%nat (seq 0 (MOL.rho self)))
      by (apply in_seq; lia).
    apply Hts in Hin. lia.
Qed.

Variable matrixSolve : tensor F -> tensor F -> result (tensor F).
Variable batchJacobian :
  NewtonSolve.GFun F (MOL.AuxG F Aux) -> point F (MOL.AuxG F Aux) -> wrt -> result (tensor F).
Variable autograd_grad :
  NewtonSolve.GFun F (MOL.AuxG F Aux) -> point F (MOL.AuxG F Aux) -> nat -> wrt ->
  list F -> result (list (list F)).

(** X7.  A [MOL] built with a method other than 0 (backward Euler) and 1
    (trapezoidal) cannot take a step: [MOL.forward] binds [gg] in neither
    branch, and the first residual evaluation of the solver raises
    UnboundLocalError. *)
Theorem unknown_method_cannot_step
        (fuel : nat) (self : MOL.t F Aux) (p : list (list F))
        (pd : list (list (list F))) (x0 : tensor F) :
  MOL.solveAdj self = NewtonSolve.forward matrixSolve batchJacobian autograd_grad ->
  MOL.mtd self <> 0%Z -> MOL.mtd self <> 1%Z ->
  (0 < MOL.rho self)%nat ->
  MOL.shape2_is (MOL.bs self) (MOL.ny self) x0 = true ->
  MOL.nsteps_pDyn fuel self (T3 (p :: pd)) x0
  = Some (Raise (UnboundLocalError "gg")).
Proof.
  intros Hsolver H0 H1 Hrho Hx0. unfold MOL.nsteps_pDyn.
  destruct (MOL.rho self) as [|n] eqn:Er; [lia|].
  cbn [Nat.eqb].
  destruct (broadcast2_same _ _ _ Hx0) as [m [-> Hb]]. rewrite Hb.
  cbn [seq MOL.steps nth_error].
  rewrite Hsolver. unfold NewtonSolve.forward, NewtonSolve.fresh_jacobian.
  unfold MOL.as_G at 1. unfold MOL.forward.
  apply Z.eqb_neq in H0. apply Z.eqb_neq in H1. rewrite H0, H1.
  reflexivity.
Qed.

End MOLSteps.

Section MOLChain.
Context {F : Type} `{Scalar F} {Aux : Type}.

(** The loop only appends to what it has written. *)
Lemma steps_prefix (fuel : nat) (self : MOL.t F Aux) (pd : list (list (list F))) :
  forall ts xt acc run,
    MOL.steps fuel self pd ts xt acc = Some (Ok run) ->
    exists tail, run = (rev acc ++ tail)%list.
Proof.
  induction ts as [|k ts IH]; intros xt acc run Hrun; cbn [MOL.steps] in Hrun.
  - injection Hrun as <-. exists []. rewrite app_nil_r. reflexivity.
  - destruct (nth_error pd k); [|discriminate].
    destruct (MOL.solveAdj _ _ _ _ _ _ _ _ _ _ _) as [[[x1 ctx1]|?]|];
      try discriminate.
    destruct (MOL.broadcast2 _ _ x1); [|discriminate].
    edestruct IH as [tail Htail]; [exact Hrun|]. rewrite Htail. cbn [rev].
    rewrite <- app_assoc. eexists; reflexivity.
Qed.

(** Each step is the solver's answer for the parameters of that step,
    started from the state before it: [x0] for the first step, the solution
    of the step before otherwise. *)
Lemma steps_chain (fuel : nat) (self : MOL.t F Aux) (pd : list (list (list F))) :
  forall n s xt acc run,
    MOL.steps fuel self pd (seq s n) xt acc = Some (Ok run) ->
    forall k x ctx,
      nth_error run (List.length acc + k)%nat = Some (x, ctx) ->
      exists p,
        nth_error pd (s + k)%nat = Some p /\
        MOL.solveAdj self fuel (T2 p)
          (Some (match k with
                 | O => xt
                 | S k' => fst (nth (List.length acc + k')%nat run (xt, None))
                 end))
          (s + k)%nat (MOL.as_G self) None (MOL.delta_t self, None) true
          (MOL.eval self) (MOL.AD_efficient self)
        = Some (Ok (x, ctx)).
Proof.
  induction n as [|n IH]; intros s xt acc run Hrun k x ctx Hk; cbn [seq MOL.steps] in Hrun.
  - injection Hrun as <-.
    assert (Hlt : (List.length acc + k < List.length (rev acc))%nat)
      by (apply nth_error_Some; rewrite Hk; discriminate).
    rewrite length_rev in Hlt. lia.
  - destruct (nth_error pd s) as [p|] eqn:Hp; [|discriminate].
    destruct (MOL.solveAdj self fuel (T2 p) (Some xt) s (MOL.as_G self) None
                (MOL.delta_t self, None) true (MOL.eval self) (MOL.AD_efficient self))
      as [[[x1 ctx1]|e]|] eqn:Hsolve; try discriminate.
    destruct (MOL.broadcast2 (MOL.bs self) (MOL.ny self) x1); [|discriminate].
    assert (Hhead : nth_error run (List.length acc) = Some (x1, ctx1)).
    { edestruct steps_prefix as [tail Htail]; [exact Hrun|]. rewrite Htail. cbn [rev].
      rewrite <- app_assoc, nth_error_app2 by (rewrite length_rev; lia).
      rewrite length_rev, Nat.sub_diag. reflexivity. }
    destruct k as [|k].
    + rewrite Nat.add_0_r in *. rewrite Hhead in Hk. injection Hk as <- <-.
      exists p. split; [exact Hp | exact Hsolve].
    + specialize (IH (S s) x1 ((x1, ctx1) :: acc) run Hrun k x ctx).
      cbn [List.length] in IH.
      replace (S (List.length acc) + k)%nat with (List.length acc + S k)%nat in IH by lia.
      destruct (IH Hk) as [p' [Hp' Hs']].
      exists p'. replace (s + S k)%nat with (S s + k)%nat by lia.
      split; [exact Hp'|].
      destruct k as [|k].
      * rewrite Nat.add_0_r. rewrite (nth_error_nth _ _ _ Hhead). exact Hs'.
      * replace (List.length acc + S k)%nat with (S (List.length acc + k))%nat by lia.
        replace (S (List.length acc) + k)%nat with (S (List.length acc + k))%nat
          in Hs' by lia.
        replace (nth (S (List.length acc + k)) run (xt, None))
          with (nth (S (List.length acc + k)) run (x1, None)); [exact Hs'|].
        apply nth_indep.
        assert (Hlt : (List.length acc + S (S k) < List.length run)%nat)
          by (apply nth_error_Some; rewrite Hk; discriminate).
        lia.
Qed.

(** X6.  [MOL.nsteps_pDyn] chains the implicit steps: the state of step [k]
    is what the solver returns for the parameters [pDyn[k]] when it is
    handed, as second parameter group and (through [x0 = None]) as initial
    guess, the state before it: [x0] for the first step, the state the solver
    returned at step [k - 1] otherwise ([xt = x], the solver's own tensor and
    not the slice of [ySolution] it was broadcast into). *)
Theorem nsteps_pDyn_chains_the_steps
        (fuel : nat) (self : MOL.t F Aux) (pDyn x0 : tensor F)
        (run : list (tensor F * option (saved F))) :
  MOL.nsteps_pDyn fuel self pDyn x0 = Some (Ok run) ->
  exists pd,
    pDyn = T3 pd /\
    forall k x ctx,
      nth_error run k = Some (x, ctx) ->
      exists p,
        nth_error pd k = Some p /\
        MOL.solveAdj self fuel (T2 p)
          (Some (match k with
                 | O => x0
                 | S k' => nth k' (map fst run) x0
                 end))
          k (MOL.as_G self) None (MOL.delta_t self, None) true
          (MOL.eval self) (MOL.AD_efficient self)
        = Some (Ok (x, ctx)).
Proof.
  unfold MOL.nsteps_pDyn. intros Hrun.
  destruct (MOL.rho self =? 0)%nat; [discriminate|].
  destruct (MOL.broadcast2 _ _ x0); [|discriminate].
  destruct pDyn as [|?|pd]; try discriminate.
  exists pd. split; [reflexivity|].
  intros k x ctx Hk.
  edestruct steps_chain as [p [Hp Hs]]; [exact Hrun | exact Hk |].
  exists p. split; [exact Hp|]. cbn [List.length Nat.add] in Hs.
  destruct k as [|k]; [exact Hs|].
  change x0 with (fst (x0, @None (saved F))) at 1.
  rewrite map_nth. exact Hs.
Qed.

End MOLChain.

(** ** HBV_function: the water balance of the right-hand side *)

Section ODEBalance.
Local Open Scope Q_scope.
Import HBV_function.
Variable pow : Q -> Q -> Q.

(** Rain and snow split the precipitation: exactly one of [T >= TT] and
    [T < TT] holds. *)
Lemma rain_snow_split (P T TT : Q) :
  snowfall P T TT + rainfall P T TT == P.
Proof.
  unfold snowfall, rainfall, of_bool. cbn [fmul fltb fgeb f1 f0 Scalar_Q].
  destruct (Qle_bool TT T); cbn [negb]; ring.
Qed.

Lemma sum_zeros {A : Type} (l : list A) :
  fold_right Qplus 0 (map (fun _ => 0) l) == 0.
Proof.
  induction l as [|a l IH]; cbn [map fold_right]; [reflexivity|].
  rewrite IH. ring.
Qed.

Lemma row_forward_balance (par : params) (y clim dS : list Q) (q q0 q1 q2 et : Q) :
  row_forward pow par y clim = Ok (dS, q, q0, q1, q2, et) ->
  exists P,
    nth_error clim 0 = Some P /\
    List.length dS = List.length y /\
    q == q0 + q1 + q2 /\
    fold_right Qplus 0 dS + q + et == P.
Proof.
  unfold row_forward. intros Hr.
  destruct y as [|y0 [|y1 [|y2 [|y3 [|y4 more]]]]]; try discriminate.
  destruct clim as [|P [|T [|Ep clim]]]; try discriminate.
  injection Hr as <- <- <- <- <- <-.
  exists P. split; [reflexivity|].
  split; [cbn [List.length app]; rewrite length_map; reflexivity|].
  split; [reflexivity|].
  cbn [app fold_right f0 Scalar_Q]. rewrite (sum_zeros more).
  unfold of_bool. cbn [f0 f1 Scalar_Q].
  destruct (Qle_bool (TT par) T); cbn [negb]; ring.
Qed.

(** The rows [forward] computes do not depend on [returnFlux]. *)
Lemma forward_rows (self : t) (y theta : list (list Q)) (tstep : nat)
      (returnFlux : bool) (out : output) :
  forward pow self y theta tstep returnFlux = Ok out ->
  exists bnds climate_in yt rows,
    mapM (read_bounds self theta) (combine (seq 0 13) theta_names) = Ok bnds /\
    nth_error (climate_data self) tstep = Some climate_in /\
    zipWith (fun a b => Ok (a, b)) y theta = Ok yt /\
    zipWith (fun ab clim => par <- row_params bnds (snd ab) ;;
                            row_forward pow par (fst ab) clim) yt climate_in
    = Ok rows /\
    out = (if returnFlux
           then Fluxes (map (fun r => [snd (fst (fst (fst (fst r))))]) rows)
                       (map (fun r => [snd (fst (fst (fst r)))]) rows)
                       (map (fun r => [snd (fst (fst r))]) rows)
                       (map (fun r => [snd (fst r)]) rows)
                       (map (fun r => [snd r]) rows)
           else DS (map (fun r => fst (fst (fst (fst (fst r))))) rows)
                   (map (fun r => [snd (fst (fst (fst (fst r))))]) rows)).
Proof.
  unfold forward. intros Hf.
  apply bind_ok in Hf as [bnds [Hb Hf]].
  apply bind_ok in Hf as [ycols [_ Hf]].
  apply bind_ok in Hf as [climate_in [Hc Hf]].
  apply bind_ok in Hf as [cP [_ Hf]].
  apply bind_ok in Hf as [cEp [_ Hf]].
  apply bind_ok in Hf as [cT [_ Hf]].
  apply bind_ok in Hf as [yt [Hyt Hf]].
  apply bind_ok in Hf as [rows [Hrows Hf]].
  injection Hf as <-.
  exists bnds, climate_in, yt, rows.
  destruct (nth_error (climate_data self) tstep); [|discriminate].
  injection Hc as ->. repeat split; try assumption.
Qed.

(** X8.  The right-hand side [HBV_function.forward] conserves water: for
    every batch element the rates of change of the five storages, the
    streamflow [q0 + q1 + q2] and the actual evapotranspiration add up to the
    precipitation of the day.  The streamflow returned with [returnFlux] is
    the one returned without. *)
Theorem HBV_function_conserves_water
        (self : t) (y theta : list (list Q)) (tstep : nat)
        (dS fl fl' q0 q1 q2 et : list (list Q)) :
  forward pow self y theta tstep false = Ok (DS dS fl) ->
  forward pow self y theta tstep true = Ok (Fluxes fl' q0 q1 q2 et) ->
  fl' = fl /\
  List.length dS = List.length y /\
  forall b d,
    nth_error dS b = Some d ->
    exists climate_in clim P q e,
      nth_error (climate_data self) tstep = Some climate_in /\
      nth_error climate_in b = Some clim /\
      nth_error clim 0 = Some P /\
      nth_error fl b = Some [q] /\
      nth_error et b = Some [e] /\
      fold_right Qplus 0 d + q + e == P.
Proof.
  intros Hd Hf.
  apply forward_rows in Hd as [bnds [cin [yt [rows [Hb [Hc [Hyt [Hrows Hd]]]]]]]].
  apply forward_rows in Hf
    as [bnds' [cin' [yt' [rows' [Hb' [Hc' [Hyt' [Hrows' Hf]]]]]]]].
  injection Hd as -> ->. injection Hf as -> -> -> -> ->.
  rewrite Hc in Hc'. injection Hc' as <-.
  rewrite Hyt in Hyt'. injection Hyt' as <-.
  rewrite Hb in Hb'. injection Hb' as <-.
  rewrite Hrows in Hrows'. injection Hrows' as <-.
  destruct (zipWith_length _ _ _ Hrows) as [Hl1 Hl2].
  destruct (zipWith_length _ _ _ Hyt) as [Hl3 _].
  split; [reflexivity|]. split; [rewrite length_map; congruence|].
  intros b d Hd. rewrite nth_error_map in Hd.
  destruct (nth_error rows b) as [r|] eqn:Hr; [|discriminate].
  injection Hd as <-.
  assert (Hlt : (b < List.length rows)%nat)
    by (apply nth_error_Some; rewrite Hr; discriminate).
  destruct (nth_error yt b) as [ab|] eqn:Hab;
    [|apply nth_error_None in Hab; lia].
  destruct (nth_error cin b) as [clim|] eqn:Hclim;
    [|apply nth_error_None in Hclim; lia].
  destruct (zipWith_nth _ _ _ _ Hrows Hab Hclim) as [r' [Hrow Hr']].
  rewrite Hr in Hr'. injection Hr' as <-.
  apply bind_ok in Hrow as [par [_ Hrow]].
  destruct r as [[[[[dSr q] q0r] q1r] q2r] e].
  apply row_forward_balance in Hrow as [P [HP [Hlen [_ Hbal]]]].
  exists cin, clim, P, q, e. rewrite !nth_error_map, Hr. cbn.
  repeat split; try assumption; reflexivity.
Qed.

End ODEBalance.

(** ** HBV_adj: the bounds of parBETAET *)

Section AdjBetaET.
Context {F : Type} `{Scalar F}.
Variable sigmoid : F -> F.
Variable pow : F -> F -> F.
Variable Rng : Type.
Variable bernoulli : Rng -> list (list F) -> list (list F) * Rng.
Variable matrixSolve : tensor F -> tensor F -> result (tensor F).
Variable batchJacobian :
  NewtonSolve.GFun F (MOL.AuxG F unit) -> point F (MOL.AuxG F unit) -> wrt ->
  result (tensor F).
Variable autograd_grad :
  NewtonSolve.GFun F (MOL.AuxG F unit) -> point F (MOL.AuxG F unit) -> nat -> wrt ->
  list F -> result (list (list F)).
Variable UH_gamma :
  list (list (list F)) -> list (list (list F)) -> nat -> result (list (list (list F))).
Variable UH_conv :
  list (list (list F)) -> list (list (list F)) -> result (list (list (list F))).

(** The bound table [__init__] leaves when [parBETAET] is not dynamic. *)
Lemma init_bounds_without_BETAET (c : option HBV_adj.config) :
  match c with
  | Some c => mem "parBETAET" (HBV_adj.c_dy_params c) = false
  | None => True
  end ->
  HBV_adj.parameter_bounds (HBV_adj.init c) = HBV_adj.default_parameter_bounds.
Proof.
  destruct c as [c|]; intros Hm; unfold HBV_adj.init; cbn [HBV_adj.parameter_bounds].
  - rewrite Hm. reflexivity.
  - reflexivity.
Qed.

Lemma col_wide (n k : nat) (m : list (list F)) :
  Forall (fun row : list F => (n <= List.length row)%nat) m -> (k < n)%nat ->
  exists c, HBV_function.col k m = Ok c.
Proof.
  intros Hall Hk. unfold HBV_function.col.
  induction Hall as [|row m Hrow Hall IH]; cbn [mapM]; [eexists; reflexivity|].
  destruct (nth_error row k) as [v|] eqn:Hv;
    [|apply nth_error_None in Hv; lia].
  destruct IH as [c Hc]. rewrite Hc. eexists; reflexivity.
Qed.

(** On a parameter tensor with the twelve other columns the first twelve
    statements of [forward] pass and the thirteenth fails on its bounds. *)
Lemma function_needs_BETAET (climate : list (list (list F)))
      (y theta : list (list F)) (tstep : nat) (returnFlux : bool) :
  Forall (fun row : list F => (12 <= List.length row)%nat) theta ->
  HBV_function.forward pow
    (HBV_function.mk climate HBV_adj.default_parameter_bounds) y theta tstep returnFlux
  = Raise (KeyError "parBETAET").
Proof.
  intros Hwide. unfold HBV_function.forward.
  change (combine (seq 0 13) HBV_function.theta_names)
    with (combine (seq 0 12) (firstn 12 HBV_function.theta_names)
          ++ (12%nat, "parBETAET"%string) :: []).
  rewrite mapM_raises_after with (e := KeyError "parBETAET"); [reflexivity | | reflexivity].
  intros kn Hin. unfold HBV_function.read_bounds.
  cbn in Hin.
  repeat (destruct Hin as [<-|Hin];
          [cbn [fst snd];
           match goal with
           | |- exists b, bind _ (fun _ => bind (HBV_function.col ?k _) _) = _ =>
               destruct (@col_wide 12 k theta Hwide ltac:(lia)) as [c Hc];
               rewrite Hc; eexists; reflexivity
           end|]).
  contradiction.
Qed.

(** Whatever the parameter tensor, [forward] does not get past the
    statement of [BETAET]. *)
Lemma function_stops_at_BETAET (climate : list (list (list F)))
      (y theta : list (list F)) (tstep : nat) (returnFlux : bool) :
  raises (HBV_function.forward pow
            (HBV_function.mk climate HBV_adj.default_parameter_bounds)
            y theta tstep returnFlux).
Proof.
  unfold HBV_function.forward. apply bind_raise.
  apply mapM_raises_at with (a := (12%nat, "parBETAET"%string)).
  - cbn. tauto.
  - eexists. reflexivity.
Qed.

Lemma nsteps_needs_BETAET (fuel : nat) (climate : list (list (list F)))
      (delta_t : F) (bs ny nflux rho : nat) (ev eff : bool) (pDyn x0 : tensor F) :
  exists e,
    MOL.nsteps_pDyn fuel
      (MOL.mk 0 (HBV_function.as_rhs pow
                   (HBV_function.mk climate HBV_adj.default_parameter_bounds))
              delta_t bs ny nflux rho
              (NewtonSolve.forward matrixSolve batchJacobian autograd_grad) ev eff)
      pDyn x0
    = Some (Raise e).
Proof.
  unfold MOL.nsteps_pDyn. cbn [MOL.rho MOL.bs MOL.ny].
  destruct rho as [|rho]; [eexists; reflexivity|]. cbn [Nat.eqb].
  destruct (MOL.broadcast2 bs ny x0); [|eexists; reflexivity].
  destruct pDyn as [|?|pd]; try (eexists; reflexivity).
  cbn [seq MOL.steps].
  destruct (nth_error pd 0) as [p|]; [|eexists; reflexivity].
  cbn [MOL.solveAdj]. unfold NewtonSolve.forward, NewtonSolve.fresh_jacobian.
  unfold MOL.as_G at 1. unfold MOL.forward. cbn [MOL.mtd Z.eqb MOL.rhs fst snd].
  unfold HBV_function.as_rhs at 1.
  destruct x0 as [?|y|?]; try (eexists; reflexivity).
  destruct (function_stops_at_BETAET climate y p 0 false) as [e He].
  rewrite He. eexists; reflexivity.
Qed.

(** X9.  [HBV_adj.__init__] enters the bounds of [parBETAET] only when the
    configuration lists it among the dynamic parameters, and
    [HBV_function.forward] reads them unconditionally.  So without it (or
    without a configuration) the right-hand side raises KeyError on every
    parameter tensor with the twelve other columns, and [HBV_adj.forward]
    ends in an exception on every input. *)
Theorem HBV_adj_needs_dynamic_BETAET
        (c : option HBV_adj.config) (fuel : nat) (rng : Rng)
        (x parameters : list (list (list F))) :
  match c with
  | Some c => mem "parBETAET" (HBV_adj.c_dy_params c) = false
  | None => True
  end ->
  (forall climate y theta tstep returnFlux,
     Forall (fun row : list F => (12 <= List.length row)%nat) theta ->
     HBV_function.forward pow
       (HBV_function.mk climate (HBV_adj.parameter_bounds (HBV_adj.init c)))
       y theta tstep returnFlux
     = Raise (KeyError "parBETAET"))
  /\
  exists e,
    HBV_adj.forward sigmoid pow bernoulli matrixSolve batchJacobian autograd_grad
                    UH_gamma UH_conv fuel (HBV_adj.init c) rng x parameters
    = Some (Raise e).
Proof.
  intros Hc. apply init_bounds_without_BETAET in Hc.
  split; [intros climate y theta tstep returnFlux Hwide; rewrite Hc;
          apply function_needs_BETAET; exact Hwide|].
  unfold HBV_adj.forward. rewrite Hc.
  match goal with
  | |- exists e, match ?u with _ => _ end = _ =>
      destruct u as [[phy rout]|e]; [|eexists; reflexivity]
  end.
  cbv zeta.
  destruct (0 <? HBV_adj.warm_up (HBV_adj.init c))%nat.
  - destruct (HBV_adj.make_phy_parameters _ _ _ _ _ _) as [[pw rng1]|e];
      [|eexists; reflexivity].
    destruct (HBV_adj.AD_efficient (HBV_adj.init c)) as [eff|];
      [|eexists; reflexivity].
    edestruct nsteps_needs_BETAET as [e He]. rewrite He. eexists; reflexivity.
  - match goal with
    | |- exists e, match ?u with _ => _ end = _ =>
        destruct u as [[pr routy]|e]; [|eexists; reflexivity]
    end.
    destruct (HBV_adj.AD_efficient (HBV_adj.init c)) as [eff|];
      [|eexists; reflexivity].
    edestruct nsteps_needs_BETAET as [e He]. rewrite He. eexists; reflexivity.
Qed.

End AdjBetaET.

(** ** HBV_adj: layout of the unpacked parameters *)

Lemma nth_error_concat_uniform {A : Type} (n : nat) :
  forall (ll : list (list A)) i j l,
    Forall (fun l => List.length l = n) ll ->
    nth_error ll i = Some l -> (j < n)%nat ->
    nth_error (List.concat ll) (i * n + j) = nth_error l j.
Proof.
  induction ll as [|l0 ll IH]; intros i j l Hall Hi Hj.
  - destruct i; discriminate Hi.
  - apply Forall_cons_iff in Hall as [Hl0 Hall']. cbn [List.concat].
    destruct i as [|i]; cbn [nth_error] in Hi.
    + injection Hi as ->. cbn [Nat.mul Nat.add].
      apply nth_error_app1. lia.
    + rewrite nth_error_app2 by (rewrite Hl0; cbn; lia).
      replace (S i * n + j - List.length l0)%nat
        with (i * n + j)%nat by (rewrite Hl0; cbn; lia).
      apply IH; assumption.
Qed.

Lemma length_concat_uniform {A : Type} (n : nat) :
  forall (ll : list (list A)),
    Forall (fun l => List.length l = n) ll ->
    List.length (List.concat ll) = (List.length ll * n)%nat.
Proof.
  induction ll as [|l0 ll IH]; intros Hall; [reflexivity|].
  apply Forall_cons_iff in Hall as [Hl0 Hall']. cbn [List.concat List.length].
  rewrite length_app, IH by assumption. cbn. lia.
Qed.

Section AdjLayout.
Context {F : Type} `{Scalar F}.
Variable sigmoid : F -> F.

Lemma view4_rows (P M : nat) (a : list (list (list F)))
      (v : list (list (list (list F)))) (t b : nat)
      (tb : list (list F)) (row : list F) :
  view4 P M a = Ok v ->
  nth_error a t = Some tb -> nth_error tb b = Some row ->
  exists vtb,
    nth_error v t = Some vtb /\ List.length vtb = List.length tb /\
    List.length row = (P * M)%nat /\ nth_error vtb b = Some (chunks M P row).
Proof.
  unfold view4. intros Hv Ht Hb.
  destruct (mapM_nth _ _ _ Hv Ht) as [vtb [Hm Hvt]].
  exists vtb. split; [exact Hvt|]. split; [apply (mapM_length _ _ Hm)|].
  destruct (mapM_nth _ _ _ Hm Hb) as [c [Hc Hn]].
  unfold view_last in Hc.
  destruct (List.length row =? P * M)%nat eqn:E; [|discriminate].
  apply Nat.eqb_eq in E. injection Hc as <-. split; assumption.
Qed.

Lemma view4_uniform (P M n : nat) (a : list (list (list F)))
      (v : list (list (list (list F)))) :
  view4 P M a = Ok v ->
  Forall (fun tb => List.length tb = n) a ->
  List.length v = List.length a /\ Forall (fun vtb => List.length vtb = n) v.
Proof.
  unfold view4. intros Hv Hall. split; [apply (mapM_length _ _ Hv)|].
  apply Forall_forall. intros vtb Hin.
  apply In_nth_error in Hin as [t Ht].
  assert (Hlt : (t < List.length a)%nat).
  { rewrite <- (mapM_length _ _ Hv). apply nth_error_Some. rewrite Ht. discriminate. }
  destruct (nth_error a t) as [tb|] eqn:Ha; [|apply nth_error_None in Ha; lia].
  destruct (mapM_nth _ _ _ Hv Ha) as [vtb' [Hm Hvt]].
  rewrite Ht in Hvt. injection Hvt as <-.
  rewrite (mapM_length _ _ Hm).
  rewrite Forall_forall in Hall. apply Hall. eapply nth_error_In. exact Ha.
Qed.

(** X10.  The layout of [HBV_adj.unpack_parameters]: in the [phy_params] it
    returns, row [m * n_grid + b] of time step [t] holds the parameters of
    ensemble member [m] of basin [b], and its entry [i] is the sigmoid of
    column [i * nmul + m] of the network output for [(t, b)]. *)
Theorem HBV_adj_parameter_layout
        (self : HBV_adj.t) (parameters : list (list (list F)))
        (n_steps n_grid : nat) (d : list (string * tensor F)) :
  HBV_adj.unpack_parameters sigmoid self parameters n_steps n_grid = Ok d ->
  Forall (fun tb => List.length tb = n_grid) parameters ->
  exists phy,
    dict_get d "phy_params" = Ok (T3 phy) /\
    forall t b m i tb row,
      nth_error parameters t = Some tb -> nth_error tb b = Some row ->
      (m < HBV_adj.nmul self)%nat ->
      (i < List.length (HBV_adj.parameter_bounds self))%nat ->
      exists raw,
        nth_error row (i * HBV_adj.nmul self + m) = Some raw /\
        entry3 phy t (m * n_grid + b) i = Some (sigmoid raw).
Proof.
  unfold HBV_adj.unpack_parameters. intros Hu Hrect.
  set (P := List.length (HBV_adj.parameter_bounds self)) in *.
  set (M := HBV_adj.nmul self) in *.
  apply bind_ok in Hu as [v4 [Hv4 Hu]].
  apply bind_ok in Hu as [phy [Hphy Hu]].
  apply bind_ok in Hu as [rp [_ Hu]].
  apply bind_ok in Hu as [r [_ Hu]].
  injection Hu as <-.
  exists phy. split; [reflexivity|].
  intros t b m i tb row Ht Hb Hm Hi.
  set (a := map (map (fun row => map sigmoid (py_slice_to row (P * M)))) parameters)
    in *.
  assert (Hrect' : Forall (fun tb => List.length tb = n_grid) a).
  { unfold a. apply Forall_map. eapply Forall_impl; [|exact Hrect].
    intros tb0 Hl. cbn. rewrite length_map. exact Hl. }
  destruct (view4_uniform _ _ Hv4 Hrect') as [Hlv Huni].
  assert (Ht' : nth_error a t = Some (map (fun row => map sigmoid (py_slice_to row (P * M))) tb))
    by (unfold a; rewrite nth_error_map, Ht; reflexivity).
  assert (Hb' : nth_error (map (fun row => map sigmoid (py_slice_to row (P * M))) tb) b
                = Some (map sigmoid (py_slice_to row (P * M))))
    by (rewrite nth_error_map, Hb; reflexivity).
  edestruct view4_rows as [vtb [Hvt [Hlvtb [Hrl Hch]]]];
    [exact Hv4 | exact Ht' | exact Hb' |].
  assert (HB : List.length tb = n_grid).
  { rewrite Forall_forall in Hrect. apply Hrect. eapply nth_error_In. exact Ht. }
  assert (Hbl : (b < n_grid)%nat)
    by (rewrite <- HB; apply nth_error_Some; rewrite Hb; discriminate).
  (* the raw entry *)
  rewrite length_map in Hrl. unfold py_slice_to in Hrl. rewrite length_firstn in Hrl.
  assert (Him : (i * M + m < P * M)%nat) by nia.
  destruct (nth_error row (i * M + m)) as [raw|] eqn:Hraw;
    [|apply nth_error_None in Hraw; lia].
  exists raw. split; [reflexivity|].
  (* the permuted tensor, flattened *)
  unfold reshape3 in Hphy.
  set (p := permute0312 M v4) in *.
  set (rows := List.concat (List.concat p)) in *.
  destruct (List.length rows =? n_steps * (n_grid * M))%nat eqn:Hlen; [|discriminate].
  apply Nat.eqb_eq in Hlen. injection Hphy as <-.
  assert (Hp_uni : Forall (fun tm => List.length tm = M) p).
  { unfold p, permute0312. apply Forall_map. apply Forall_forall. intros x0 _.
    cbn. rewrite length_map, length_seq. reflexivity. }
  assert (Hpp_uni : Forall (fun mat => List.length mat = n_grid) (List.concat p)).
  { apply Forall_concat. unfold p, permute0312. apply Forall_map.
    rewrite Forall_forall in Huni. apply Forall_forall. intros x0 Hx0.
    apply Forall_map. apply Forall_forall. intros m0 _. cbn.
    rewrite length_map. apply Huni. exact Hx0. }
  assert (Hpt : nth_error p t
                = Some (map (fun m => map (fun bp => map (fun pm => nth m pm f0) bp) vtb)
                            (seq 0 M)))
    by (unfold p, permute0312; rewrite nth_error_map, Hvt; reflexivity).
  assert (Hmat : nth_error (List.concat p) (t * M + m)
                 = Some (map (fun bp => map (fun pm => nth m pm f0) bp) vtb)).
  { rewrite (@nth_error_concat_uniform _ M p t m _ Hp_uni Hpt Hm).
    rewrite nth_error_map, nth_error_seq.
    apply Nat.ltb_lt in Hm as Hmb. rewrite Hmb. reflexivity. }
  assert (Hrow : nth_error rows ((t * M + m) * n_grid + b)
                 = Some (map (fun pm => nth m pm f0)
                             (chunks M P (map sigmoid (firstn (P * M) row))))).
  { unfold rows.
    rewrite (@nth_error_concat_uniform _ n_grid (List.concat p) (t * M + m) b _
               Hpp_uni Hmat Hbl).
    rewrite nth_error_map, Hch. reflexivity. }
  (* the time step is within the reshaped tensor *)
  assert (Hrows_len : List.length rows = (List.length parameters * M * n_grid)%nat).
  { unfold rows.
    rewrite (@length_concat_uniform _ n_grid _ Hpp_uni),
            (@length_concat_uniform _ M _ Hp_uni).
    unfold p, permute0312. rewrite length_map, Hlv. unfold a. rewrite length_map.
    reflexivity. }
  assert (Htl : (t < List.length parameters)%nat)
    by (apply nth_error_Some; rewrite Ht; discriminate).
  assert (Hsteps : n_steps = List.length parameters).
  { apply (Nat.mul_cancel_r _ _ (n_grid * M)); [nia|].
    rewrite <- Hlen, Hrows_len. ring. }
  assert (Htn : (t < n_steps)%nat) by (rewrite Hsteps; exact Htl).
  unfold entry3. rewrite chunks_nth by exact Htn.
  unfold entry2. rewrite chunk_entry by nia.
  replace (t * (n_grid * M) + (m * n_grid + b))%nat
    with ((t * M + m) * n_grid + b)%nat by nia.
  rewrite Hrow. rewrite nth_error_map, chunks_nth by exact Hi. cbn [option_map].
  f_equal.
  assert (Hn : nth_error (firstn M (skipn (i * M) (map sigmoid (firstn (P * M) row)))) m
               = Some (sigmoid raw)).
  { rewrite chunk_entry by exact Hm. rewrite nth_error_map, nth_error_firstn.
    apply Nat.ltb_lt in Him as Himb. rewrite Himb, Hraw. reflexivity. }
  apply nth_error_nth. exact Hn.
Qed.

End AdjLayout.

(** ** HBV_adj.make_phy_parameters: the parameters that stay static *)

Section AdjStatic.
Context {F : Type} `{Scalar F}.
Variable Rng : Type.
Variable bernoulli : Rng -> list (list F) -> list (list F) * Rng.

Lemma nth_error_set_nth_other {A : Type} (i j : nat) (v : A) :
  forall l, j <> i -> nth_error (set_nth i v l) j = nth_error l j.
Proof.
  revert j. induction i as [|i IH]; intros j [|a l] Hne; cbn [set_nth]; try reflexivity.
  - destruct j; [contradiction | reflexivity].
  - destruct j; [reflexivity|]. cbn [nth_error]. apply IH. congruence.
Qed.

Lemma set_row_other (i : nat) :
  forall (crow : list F) (m m' : list (list F)),
    zipWith (fun v row => Ok (set_nth i v row)) crow m = Ok m' ->
    forall g j, j <> i -> entry2 m' g j = entry2 m g j.
Proof.
  induction crow as [|v crow IH]; intros [|row m] m' Hz g j Hne;
    cbn [zipWith] in Hz; try discriminate.
  - injection Hz as <-. reflexivity.
  - cbn [bind] in Hz. apply bind_ok in Hz as [rest [Hrest Hz]]. injection Hz as <-.
    destruct g as [|g]; unfold entry2; cbn [nth_error].
    + apply nth_error_set_nth_other. exact Hne.
    + apply (IH _ _ Hrest g j Hne).
Qed.

Lemma set_feature_other (i : nat) :
  forall (c : list (list F)) (a a' : list (list (list F))),
    set_feature i c a = Ok a' ->
    forall t g j, j <> i -> entry3 a' t g j = entry3 a t g j.
Proof.
  unfold set_feature.
  induction c as [|crow c IH]; intros [|m a] a' Hz t g j Hne;
    cbn [zipWith] in Hz; try discriminate.
  - injection Hz as <-. reflexivity.
  - apply bind_ok in Hz as [m' [Hm' Hz]].
    apply bind_ok in Hz as [rest [Hrest Hz]]. injection Hz as <-.
    destruct t as [|t]; unfold entry3; cbn [nth_error].
    + eapply set_row_other; eassumption.
    + apply (IH _ _ Hrest t g j Hne).
Qed.

Lemma mask_loop_static (dy_list : list string) (pmat : list (list F))
      (phy parstaFull : list (list (list F))) (i : nat) :
  forall l s st st',
    HBV_adj.mask_loop bernoulli dy_list pmat phy parstaFull
                      (combine (seq s (List.length l)) l) st = Ok st' ->
    (forall k name, nth_error l k = Some name -> (s + k)%nat = i ->
                    mem name dy_list = false) ->
    List.length (fst st') = List.length (fst st) /\
    forall t g, entry3 (fst st') t g i = entry3 (fst st) t g i.
Proof.
  induction l as [|name0 l IH]; intros s st st' Hl Hnd;
    cbn [List.length seq combine HBV_adj.mask_loop] in Hl.
  - injection Hl as <-. split; reflexivity.
  - apply bind_ok in Hl as [st1 [Hst1 Hl]].
    destruct (IH (S s) st1 st' Hl) as [Hlen Hent].
    { intros k name Hk Hs. apply (Hnd (S k) name Hk). lia. }
    unfold HBV_adj.mask_parameter in Hst1. cbn [fst snd] in Hst1.
    destruct (mem name0 dy_list) eqn:Hdyn.
    + assert (Hne : i <> s).
      { intros ->. specialize (Hnd 0%nat name0 eq_refl (Nat.add_0_r _)). congruence. }
      apply bind_ok in Hst1 as [staPar [_ Hst1]].
      apply bind_ok in Hst1 as [dynPar [_ Hst1]].
      apply bind_ok in Hst1 as [comPar [_ Hst1]].
      apply bind_ok in Hst1 as [par' [Hset Hst1]].
      injection Hst1 as <-. cbn [fst] in *.
      split.
      * rewrite Hlen. unfold set_feature in Hset.
        apply zipWith_length in Hset. apply Hset.
      * intros t g. rewrite Hent. eapply set_feature_other; eassumption.
    + injection Hst1 as <-. split; assumption.
Qed.

(** What the loop leaves in the column of a dynamic parameter: the mix, by
    one mask drawn in the pass of that parameter, of the column it was given
    and of the static column. *)
Lemma mask_loop_dynamic (dy_list : list string) (pmat : list (list F))
      (phy parstaFull : list (list (list F))) (i : nat) :
  forall l s st st',
    HBV_adj.mask_loop bernoulli dy_list pmat phy parstaFull
                      (combine (seq s (List.length l)) l) st = Ok st' ->
    (forall t g, entry3 (fst st) t g i = entry3 parstaFull t g i) ->
    forall name,
      (s <= i)%nat -> nth_error l (i - s) = Some name -> mem name dy_list = true ->
      exists rng_i mask,
        fst (bernoulli rng_i pmat) = [mask] /\
        forall t g d s0 mk,
          entry3 phy t g i = Some d -> entry3 parstaFull t g i = Some s0 ->
          nth_error mask g = Some mk ->
          entry3 (fst st') t g i = Some (fadd (fmul d (fsub f1 mk)) (fmul s0 mk)).
Proof.
  induction l as [|name0 l IH]; intros s st st' Hl Hinv name Hle Hname Hdyn.
  - destruct (i - s)%nat; discriminate Hname.
  - cbn [List.length seq combine HBV_adj.mask_loop] in Hl.
    apply bind_ok in Hl as [st1 [Hst1 Hl]].
    unfold HBV_adj.mask_parameter in Hst1. cbn [fst snd] in Hst1.
    destruct (Nat.eq_dec s i) as [->|Hne].
    + rewrite Nat.sub_diag in Hname. cbn [nth_error] in Hname.
      injection Hname as ->. rewrite Hdyn in Hst1.
      apply bind_ok in Hst1 as [staPar [Hsta Hst1]].
      apply bind_ok in Hst1 as [dynPar [Hdy Hst1]].
      apply bind_ok in Hst1 as [comPar [Hmix Hst1]].
      apply bind_ok in Hst1 as [par' [Hset Hst1]].
      injection Hst1 as <-.
      assert (Hshape : exists mask, fst (bernoulli (snd st) pmat) = [mask]).
      { unfold HBV_adj.mix in Hmix.
        destruct (fst (bernoulli (snd st) pmat)) as [|mask [|? ?]]; try discriminate.
        eexists; reflexivity. }
      destruct Hshape as [mask Hmask]. exists (snd st), mask.
      split; [exact Hmask|].
      intros t g d s0 mk Hd Hs Hmk.
      assert (Hvac : forall k nm, nth_error l k = Some nm -> (S i + k)%nat = i ->
                                  mem nm dy_list = false) by (intros; lia).
      destruct (@mask_loop_static dy_list pmat phy parstaFull i l (S i) _ _ Hl Hvac)
        as [_ Hent].
      rewrite Hent. cbn [fst].
      pose proof (feature_entry _ _ _ _ Hdy Hd) as Hd2.
      pose proof (feature_entry _ _ _ _ Hsta Hs) as Hs2.
      destruct (adj_mix_entry _ _ _ _ _ Hmix Hd2 Hs2) as [mask' [Hm' Hval]].
      rewrite Hmask in Hm'. injection Hm' as <-.
      eapply set_feature_entry;
        [exact Hset | apply Hval; exact Hmk | rewrite Hinv; exact Hs].
    + assert (Hinv1 : forall t g, entry3 (fst st1) t g i = entry3 parstaFull t g i).
      { intros t g. rewrite <- Hinv.
        destruct (mem name0 dy_list).
        - apply bind_ok in Hst1 as [staPar [_ Hst1]].
          apply bind_ok in Hst1 as [dynPar [_ Hst1]].
          apply bind_ok in Hst1 as [comPar [_ Hst1]].
          apply bind_ok in Hst1 as [par' [Hset Hst1]].
          injection Hst1 as <-. cbn [fst].
          eapply set_feature_other; [exact Hset | congruence].
        - injection Hst1 as <-. reflexivity. }
      apply (IH (S s) st1 st' Hl Hinv1 name); [lia | | exact Hdyn].
      replace (i - s)%nat with (S (i - S s)) in Hname by lia. exact Hname.
Qed.

(** X11.  [HBV_adj.make_phy_parameters] returns a trajectory with as many
    time steps as it was given; every parameter that is not listed as
    dynamic has, at every time step, its value at the last time step; and
    with an empty dynamic list no random mask is drawn. *)
Theorem make_phy_parameters_keeps_static
        (self : HBV_adj.t) (rng rng' : Rng)
        (phy_params traj : list (list (list F))) (name_list dy_list : list string) :
  HBV_adj.make_phy_parameters bernoulli self rng phy_params name_list dy_list
  = Ok (traj, rng') ->
  exists last,
    py_index phy_params (-1) = Ok last /\
    List.length traj = List.length phy_params /\
    (dy_list = [] -> rng' = rng) /\
    forall i,
      (forall name, nth_error name_list i = Some name -> mem name dy_list = false) ->
      forall t g, (t < List.length phy_params)%nat ->
                  entry3 traj t g i = entry2 last g i.
Proof.
  unfold HBV_adj.make_phy_parameters. intros Hm.
  apply bind_ok in Hm as [last [Hlast Hm]].
  exists last. split; [exact Hlast|].
  destruct dy_list as [|d0 dy].
  - injection Hm as <- <-. split; [apply repeat_length|].
    split; [reflexivity|].
    intros i _ t g Ht. apply entry3_repeat. exact Ht.
  - unfold HBV_adj.enumerate in Hm.
    split; [|split; [discriminate|]].
    + edestruct mask_loop_static as [Hlen _]; [exact Hm | |].
      * instantiate (1 := List.length name_list). intros k name Hk Hs.
        exfalso. assert (k < List.length name_list)%nat
          by (apply nth_error_Some; rewrite Hk; discriminate). lia.
      * cbn [fst] in Hlen. rewrite Hlen. apply repeat_length.
    + intros i Hi t g Ht.
      edestruct mask_loop_static as [_ Hent]; [exact Hm | |].
      * intros k name Hk Hs. cbn [Nat.add] in Hs. subst k. apply Hi. exact Hk.
      * cbn [fst] in Hent. rewrite Hent. apply entry3_repeat. exact Ht.
Qed.

End AdjStatic.

(** ** HBV_adj.forward: ensemble members *)

Section Ensemble.
Context {F : Type} `{Scalar F}.

Lemma chunks_as_map {A : Type} (n : nat) :
  forall k (l : list A) s,
    chunks n k (skipn (s * n) l)
    = map (fun m => firstn n (skipn (m * n) l)) (seq s k).
Proof.
  induction k as [|k IH]; intros l s; [reflexivity|].
  cbn [chunks seq map]. f_equal.
  rewrite skipn_skipn. replace (n + s * n)%nat with (S s * n)%nat by lia.
  apply IH.
Qed.

Lemma nth_chunk {A : Type} (n : nat) (l : list A) (m b : nat) (d : A) :
  (b < n)%nat -> nth b (firstn n (skipn (m * n) l)) d = nth (m * n + b) l d.
Proof.
  intros Hb.
  pose proof (@chunk_entry A n l m b Hb) as He.
  destruct (nth_error l (m * n + b)) as [a|] eqn:Ea.
  - rewrite (nth_error_nth _ _ d He), (nth_error_nth _ _ d Ea). reflexivity.
  - apply nth_error_None in He. apply nth_error_None in Ea.
    rewrite !nth_overflow by assumption. reflexivity.
Qed.

(** Row [m * B + b] of the expanded forcings is the row of basin [b]. *)
Lemma expand_nmul_rows (n : nat) (x : list (list (list F))) (t : nat)
      (rows : list (list F)) (b m : nat) :
  nth_error x t = Some rows -> (b < List.length rows)%nat -> (m < n)%nat ->
  exists rows',
    nth_error (HBV_adj.expand_nmul n x) t = Some rows' /\
    List.length rows' = (n * List.length rows)%nat /\
    nth_error rows' (m * List.length rows + b) = nth_error rows b.
Proof.
  intros Ht Hb Hm. unfold HBV_adj.expand_nmul.
  rewrite nth_error_map, Ht. cbn [option_map].
  eexists. split; [reflexivity|].
  assert (Huni : Forall (fun l : list (list F) => List.length l = List.length rows)
                        (repeat rows n))
    by (apply Forall_forall; intros l Hl; apply repeat_spec in Hl; subst; reflexivity).
  split.
  - rewrite (@length_concat_uniform _ (List.length rows) _ Huni), repeat_length.
    reflexivity.
  - apply (@nth_error_concat_uniform _ (List.length rows) (repeat rows n) m b rows
             Huni); [|exact Hb].
    apply nth_error_repeat. exact Hm.
Qed.

(** The averaged flux of basin [b] is the mean over the members [m] of the
    rows [m * bs + b]. *)
Lemma mean_nmul_entry (n bs nflux : nat) (sim : list (list (list F))) (t : nat)
      (rows : list (list F)) (b f : nat) :
  nth_error sim t = Some rows -> (b < bs)%nat -> (f < nflux)%nat ->
  entry3 (HBV_adj.mean_nmul n bs nflux sim) t b f
  = Some (mean (map (fun m => nth f (nth (m * bs + b) rows []) f0) (seq 0 n))).
Proof.
  intros Ht Hb Hf. unfold HBV_adj.mean_nmul, entry3, entry2.
  rewrite nth_error_map, Ht. cbn [option_map].
  rewrite nth_error_map, nth_error_seq.
  apply Nat.ltb_lt in Hb as Hbb. rewrite Hbb. cbn [option_map Nat.add].
  rewrite nth_error_map, nth_error_seq.
  apply Nat.ltb_lt in Hf as Hfb. rewrite Hfb. cbn [option_map Nat.add].
  f_equal. f_equal.
  pose proof (@chunks_as_map _ bs n rows 0) as Hc. cbn [Nat.mul skipn] in Hc.
  rewrite Hc, map_map. apply map_ext_in. intros m _.
  rewrite nth_chunk by exact Hb. reflexivity.
Qed.

(** X12.  [HBV_adj.forward] lays the ensemble members out member by member:
    row [m * bs + b] of the expanded forcings is the forcing row of basin
    [b], and the simulated flux of basin [b] is the mean over the members
    [m] of the rows [m * bs + b] of the simulation. *)
Theorem ensemble_member_rows
        (n bs nflux : nat) (x sim : list (list (list F))) :
  (forall t rows b m,
     nth_error x t = Some rows -> (b < List.length rows)%nat -> (m < n)%nat ->
     exists rows',
       nth_error (HBV_adj.expand_nmul n x) t = Some rows' /\
       List.length rows' = (n * List.length rows)%nat /\
       nth_error rows' (m * List.length rows + b) = nth_error rows b)
  /\
  (forall t rows b f,
     nth_error sim t = Some rows -> (b < bs)%nat -> (f < nflux)%nat ->
     entry3 (HBV_adj.mean_nmul n bs nflux sim) t b f
     = Some (mean (map (fun m => nth f (nth (m * bs + b) rows []) f0) (seq 0 n)))).
Proof.
  split.
  - intros t rows b m. apply expand_nmul_rows.
  - intros t rows b f. apply mean_nmul_entry.
Qed.

End Ensemble.

Section EnsembleRoundTrip.
Local Open Scope Q_scope.

Lemma sum_repeat (v : Q) (n : nat) (acc : Q) :
  fold_left Qplus (repeat v n) acc == acc + inject_Z (Z.of_nat n) * v.
Proof.
  revert acc. induction n as [|n IH]; intros acc.
  - cbn. ring.
  - cbn [repeat fold_left]. rewrite IH.
    rewrite Nat2Z.inj_succ. unfold Z.succ. rewrite inject_Z_plus. ring.
Qed.

Lemma mean_repeat (v : Q) (n : nat) : (0 < n)%nat -> mean (repeat v n) == v.
Proof.
  intros Hn. unfold mean. cbn [fdiv fadd f0 fconst Scalar_Q].
  rewrite sum_repeat, repeat_length.
  assert (Hnz : ~ inject_Z (Z.of_nat n) == 0).
  { intros Hz. unfold Qeq in Hz. cbn in Hz. lia. }
  field. exact Hnz.
Qed.

(** X13.  Expansion and averaging fit together: averaging over the ensemble
    a tensor that was expanded to [n > 0] identical members gives the tensor
    back. *)
Theorem identical_members_average_to_themselves
        (n nflux : nat) (x : list (list (list Q))) (t b f : nat)
        (rows : list (list Q)) (v : Q) :
  (0 < n)%nat -> (f < nflux)%nat ->
  nth_error x t = Some rows ->
  entry2 rows b f = Some v ->
  exists w,
    entry3 (HBV_adj.mean_nmul n (List.length rows) nflux (HBV_adj.expand_nmul n x))
           t b f = Some w /\
    w == v.
Proof.
  intros Hn Hf Ht Hv.
  assert (Hb : (b < List.length rows)%nat).
  { unfold entry2 in Hv. apply nth_error_Some.
    destruct (nth_error rows b); [discriminate | discriminate Hv]. }
  edestruct (@expand_nmul_rows Q) with (n := n) (m := 0%nat) as [rows' [Ht' _]];
    [exact Ht | exact Hb | exact Hn |].
  erewrite mean_nmul_entry; [|exact Ht' | exact Hb | exact Hf].
  eexists. split; [reflexivity|].
  assert (Hlist : map (fun m => nth f (nth (m * List.length rows + b) rows' []) f0)
                      (seq 0 n)
                  = repeat v n).
  { rewrite <- (length_seq n 0) at 2. rewrite <- map_const.
    apply map_ext_in. intros m Hm. apply in_seq in Hm.
    edestruct (@expand_nmul_rows Q) with (n := n) (m := m) as [rows'' [Ht'' [_ Hrow]]];
      [exact Ht | exact Hb | lia |].
    rewrite Ht' in Ht''. injection Ht'' as <-.
    unfold entry2 in Hv.
    destruct (nth_error rows b) as [row|] eqn:Hr; [|discriminate].
    rewrite (nth_error_nth _ _ [] Hrow). apply nth_error_nth. exact Hv. }
  rewrite Hlist. apply mean_repeat. exact Hn.
Qed.

End EnsembleRoundTrip.

(** ** HBVCapillary: the water balance of a step *)

Section StepBalance.
Local Open Scope Q_scope.
Import HBVCapillary.

Ltac q_ops' :=
  unfold clamp_min, clamp_max, clamp, of_bool;
  cbn [fadd fsub fmul fdiv fmax fmin fgeb fltb fconst f0 f1 Scalar_Q fst snd].

Lemma phase_split (par : cell_params Q) (P T : Q) :
  fst (phase par P T) + snd (phase par P T) == P.
Proof.
  unfold phase. q_ops'. destruct (Qle_bool (parTT par) T); cbn [negb]; ring.
Qed.

Lemma snow_balance (par : cell_params Q) (T SNOW SP MW : Q) :
  let r := snow par T SNOW SP MW in
  fst (fst r) + snd (fst r) + snd r == SP + MW + SNOW.
Proof. unfold snow. q_ops'. ring. Qed.

Lemma Qmax_floor (a nz : Q) : 0 <= a -> 0 <= nz -> Qmax a nz <= a + nz.
Proof. intros Ha Hn. apply Q.max_lub; lra. Qed.

Lemma soil_balance (pow : Q -> Q -> Q) (nearzero : Q) (par : cell_params Q)
      (PET RAIN tosoil SM : Q) :
  let r := soil pow nearzero par PET RAIN tosoil SM in
  let SM' := fst (fst (fst (fst r))) in
  let recharge := snd (fst (fst (fst r))) in
  let excess := snd (fst (fst r)) in
  let ETact := snd r in
  nearzero <= SM' /\
  SM + RAIN + tosoil <= SM' + recharge + excess + ETact /\
  (0 <= nearzero -> SM' + recharge + excess + ETact <= SM + RAIN + tosoil + nearzero).
Proof.
  unfold soil. q_ops'.
  set (recharge := (RAIN + tosoil) * _).
  set (SM1 := SM + RAIN + tosoil - recharge).
  set (excess := Qmax (SM1 - parFC par) 0).
  set (SM2 := SM1 - excess).
  set (ET := Qmin SM2 _).
  assert (HET : ET <= SM2) by apply Q.le_min_l.
  split; [apply Q.le_max_r|]. split.
  - pose proof (Q.le_max_l (SM2 - ET) nearzero). unfold SM2, SM1 in *. lra.
  - intros Hnz.
    assert (Hfl : Qmax (SM2 - ET) nearzero <= (SM2 - ET) + nearzero)
      by (apply Qmax_floor; lra).
    unfold SM2, SM1 in *. lra.
Qed.

Lemma capillary_nonneg (par : cell_params Q) (SM SLZ : Q) :
  0 <= SLZ -> 0 <= parC par ->
  let cap := Qmin SLZ (parC par * SLZ * (1 - Qmin (SM / parFC par) 1)) in
  0 <= cap /\ cap <= SLZ.
Proof.
  intros Hs Hc. cbn zeta. split; [|apply Q.le_min_l].
  apply Q.min_glb; [exact Hs|].
  apply Qmult_le_0_compat; [apply Qmult_le_0_compat; assumption|].
  pose proof (Q.le_min_r (SM / parFC par) 1). lra.
Qed.

Lemma capillary_balance (nearzero : Q) (par : cell_params Q) (SM SLZ : Q) :
  let r := capillary_rise nearzero par SM SLZ in
  SM + SLZ <= fst (fst r) + snd (fst r) /\
  (0 <= nearzero -> nearzero <= SM -> 0 <= SLZ -> 0 <= parC par ->
   fst (fst r) + snd (fst r) <= SM + SLZ + nearzero).
Proof.
  unfold capillary_rise. q_ops'.
  set (cap := Qmin SLZ _).
  split.
  - pose proof (Q.le_max_l (SM + cap) nearzero).
    pose proof (Q.le_max_l (SLZ - cap) nearzero). lra.
  - intros Hnz Hsm Hslz Hc.
    destruct (@capillary_nonneg par SM SLZ Hslz Hc) as [Hc0 Hc1].
    fold cap in Hc0, Hc1.
    assert (H1 : Qmax (SM + cap) nearzero == SM + cap)
      by (apply Q.max_l; lra).
    assert (H2 : Qmax (SLZ - cap) nearzero <= (SLZ - cap) + nearzero)
      by (apply Qmax_floor; lra).
    lra.
Qed.

Lemma groundwater_balance (par : cell_params Q) (recharge excess SUZ SLZ : Q) :
  let r := groundwater par recharge excess SUZ SLZ in
  let SUZ' := fst (fst (fst (fst (fst r)))) in
  let SLZ' := snd (fst (fst (fst (fst r)))) in
  let Q0 := snd (fst (fst r)) in
  let Q1 := snd (fst r) in
  let Q2 := snd r in
  SUZ' + SLZ' + Q0 + Q1 + Q2 == SUZ + SLZ + recharge + excess.
Proof. unfold groundwater. q_ops'. ring. Qed.

(** X14.  One step of the explicit scheme of [HBVCapillary.forward] never
    loses water: the storages after the step plus the outflow
    [Q0 + Q1 + Q2 + AET] are at least the storages before plus the
    precipitation.  The only source of water are the floors at [nearzero]:
    with a non-negative floor, a non-negative lower zone and a non-negative
    [parC] a step creates at most [2 * nearzero] per cell. *)
Theorem step_water_balance
        (pow : Q -> Q -> Q) (nearzero P T PET : Q)
        (par : cell_params Q) (s : storages Q) :
  let r := step pow nearzero par P T PET s in
  storage_total s + P <= storage_total (fst r) + outflow (snd r) /\
  (0 <= nearzero -> 0 <= st_SLZ s -> 0 <= parC par ->
   storage_total (fst r) + outflow (snd r) <= storage_total s + P + 2 * nearzero).
Proof.
  cbn zeta. unfold step.
  pose proof (phase_split par P T) as Hphase.
  destruct (phase par P T) as [RAIN SNOW]. cbn [fst snd] in Hphase.
  pose proof (snow_balance par T SNOW (st_SNOWPACK s) (st_MELTWATER s)) as Hsn.
  destruct (snow par T SNOW (st_SNOWPACK s) (st_MELTWATER s)) as [[SP' MW'] tosoil].
  cbn [fst snd] in Hsn.
  pose proof (soil_balance pow nearzero par PET RAIN tosoil (st_SM s)) as Hso.
  destruct (soil pow nearzero par PET RAIN tosoil (st_SM s))
    as [[[[SM1 recharge] excess] evapfactor] ETact].
  cbn [fst snd] in Hso. destruct Hso as [Hfloor [Hso1 Hso2]].
  pose proof (capillary_balance nearzero par SM1 (st_SLZ s)) as Hca.
  destruct (capillary_rise nearzero par SM1 (st_SLZ s)) as [[SM2 SLZ1] capillary].
  cbn [fst snd] in Hca. destruct Hca as [Hca1 Hca2].
  pose proof (groundwater_balance par recharge excess (st_SUZ s) SLZ1) as Hgw.
  destruct (groundwater par recharge excess (st_SUZ s) SLZ1)
    as [[[[[SUZ' SLZ'] PERC] Q0] Q1] Q2].
  cbn [fst snd] in Hgw.
  unfold storage_total, outflow.
  cbn [fst snd st_SNOWPACK st_MELTWATER st_SM st_SUZ st_SLZ fl_Q0 fl_Q1 fl_Q2 fl_AET].
  split; [lra|].
  intros Hnz Hslz Hc.
  specialize (Hso2 Hnz). specialize (Hca2 Hnz Hfloor Hslz Hc). lra.
Qed.
End StepBalance.

(** ** HBVCapillary: bounds on the fluxes of a step *)

Section StepFluxes.
Local Open Scope Q_scope.
Import HBVCapillary.

Ltac q_ops2 :=
  unfold clamp_min, clamp_max, clamp, of_bool;
  cbn [fadd fsub fmul fdiv fmax fmin fgeb fltb fconst f0 f1 Scalar_Q fst snd].

Lemma unit_clamp (a : Q) : 0 <= Qmin (Qmax a 0) 1 /\ Qmin (Qmax a 0) 1 <= 1.
Proof.
  split; [|apply Q.le_min_r].
  apply Q.min_glb; [apply Q.le_max_r | lra].
Qed.

Lemma soil_fluxes (pow : Q -> Q -> Q) (nearzero : Q) (par : cell_params Q)
      (PET RAIN tosoil SM : Q) :
  0 <= RAIN -> 0 <= tosoil -> 0 <= SM -> 0 <= PET -> 0 <= parFC par ->
  let r := soil pow nearzero par PET RAIN tosoil SM in
  let recharge := snd (fst (fst (fst r))) in
  let excess := snd (fst (fst r)) in
  let evapfactor := snd (fst r) in
  let ETact := snd r in
  (0 <= recharge /\ recharge <= RAIN + tosoil) /\ 0 <= excess /\
  (0 <= evapfactor /\ evapfactor <= 1) /\ (0 <= ETact /\ ETact <= PET).
Proof.
  intros Hrain Htosoil Hsm Hpet Hfc. unfold soil. q_ops2.
  set (w := Qmin (Qmax (pow (SM / parFC par) (parBETA par)) 0) 1).
  destruct (unit_clamp (pow (SM / parFC par) (parBETA par))) as [Hw0 Hw1].
  fold w in Hw0, Hw1.
  set (recharge := (RAIN + tosoil) * w).
  assert (Hr0 : 0 <= recharge) by (apply Qmult_le_0_compat; lra).
  assert (Hr1 : 0 <= (RAIN + tosoil) * (1 - w)) by (apply Qmult_le_0_compat; lra).
  assert (Hr2 : recharge <= RAIN + tosoil) by (unfold recharge; lra).
  set (SM1 := SM + RAIN + tosoil - recharge).
  assert (HSM1 : 0 <= SM1) by (unfold SM1; lra).
  set (excess := Qmax (SM1 - parFC par) 0).
  set (SM2 := SM1 - excess).
  assert (HSM2 : 0 <= SM2).
  { unfold SM2, excess.
    destruct (Q.max_spec (SM1 - parFC par) 0) as [[_ He]|[_ He]]; rewrite He; lra. }
  set (ef := Qmin (Qmax (pow (SM2 / (parLP par * parFC par)) (parBETAET par)) 0) 1).
  destruct (unit_clamp (pow (SM2 / (parLP par * parFC par)) (parBETAET par)))
    as [He0 He1].
  fold ef in He0, He1.
  assert (Hpe : 0 <= PET * ef) by (apply Qmult_le_0_compat; lra).
  assert (Hpe1 : 0 <= PET * (1 - ef)) by (apply Qmult_le_0_compat; lra).
  split; [split; assumption|]. split; [apply Q.le_max_r|].
  split; [split; assumption|]. split.
  - apply Q.min_glb; assumption.
  - pose proof (Q.le_min_r SM2 (PET * ef)). lra.
Qed.

Lemma groundwater_fluxes (par : cell_params Q) (recharge excess SUZ SLZ : Q) :
  0 <= recharge -> 0 <= excess -> 0 <= SUZ -> 0 <= SLZ ->
  0 <= parK0 par <= 1 -> 0 <= parK1 par -> 0 <= parK2 par -> 0 <= parUZL par ->
  0 <= parPERC par ->
  let r := groundwater par recharge excess SUZ SLZ in
  let PERC := snd (fst (fst (fst r))) in
  let Q0 := snd (fst (fst r)) in
  let Q1 := snd (fst r) in
  let Q2 := snd r in
  (0 <= PERC /\ PERC <= parPERC par) /\ 0 <= Q0 /\ 0 <= Q1 /\ 0 <= Q2.
Proof.
  intros Hr He Hsuz Hslz [HK0 HK0'] HK1 HK2 Huzl Hperc. unfold groundwater. q_ops2.
  set (SUZ1 := SUZ + recharge + excess).
  set (PERC := Qmin SUZ1 (parPERC par)).
  set (SUZ2 := SUZ1 - PERC).
  set (m := Qmax (SUZ2 - parUZL par) 0).
  set (SUZ3 := SUZ2 - parK0 par * m).
  assert (H1 : 0 <= SUZ1) by (unfold SUZ1; lra).
  assert (H2 : PERC <= SUZ1) by apply Q.le_min_l.
  assert (H3 : 0 <= PERC) by (apply Q.min_glb; assumption).
  assert (H4 : 0 <= SUZ2) by (unfold SUZ2; lra).
  assert (H5 : 0 <= m) by apply Q.le_max_r.
  assert (H6 : m <= SUZ2) by (apply Q.max_lub; lra).
  assert (H7 : 0 <= (1 - parK0 par) * m) by (apply Qmult_le_0_compat; lra).
  assert (H8 : 0 <= SUZ3) by (unfold SUZ3; lra).
  split; [split; [exact H3 | apply Q.le_min_r]|].
  split; [apply Qmult_le_0_compat; assumption|].
  split; [apply Qmult_le_0_compat; assumption|].
  apply Qmult_le_0_compat; [assumption | lra].
Qed.

(** X15.  For non-negative forcings and storages and parameters within
    their bounds, every flux a step of the explicit scheme writes to the
    output series is non-negative; the actual evapotranspiration does not
    exceed the potential one, the recharge does not exceed rain plus melt
    water, the capillary rise does not exceed the lower zone it is taken
    from, and the percolation does not exceed [parPERC]. *)
Theorem step_fluxes_bounded
        (pow : Q -> Q -> Q) (nearzero P T PET : Q)
        (par : cell_params Q) (s : storages Q) :
  0 <= nearzero -> 0 <= P -> 0 <= PET ->
  in_bounds par -> storages_ge 0 s ->
  let f := snd (step pow nearzero par P T PET s) in
  (0 <= fl_AET f /\ fl_AET f <= PET) /\
  0 <= fl_Q0 f /\ 0 <= fl_Q1 f /\ 0 <= fl_Q2 f /\
  (0 <= fl_recharge f /\ fl_recharge f <= P + fl_tosoil f) /\
  0 <= fl_excs f /\ 0 <= fl_tosoil f /\
  (0 <= fl_evapfactor f /\ fl_evapfactor f <= 1) /\
  (0 <= fl_capillary f /\ fl_capillary f <= st_SLZ s) /\
  (0 <= fl_PERC f /\ fl_PERC f <= parPERC par) /\
  0 <= fl_SWE f.
Proof.
  intros Hnz HP HPET Hb [Hsp [Hmw [Hsm [Hsuz Hslz]]]].
  unfold in_bounds, within_bounds in Hb. cbn in Hb.
  destruct Hb as [_ [HFC [HK0 [HK1 [HK2 [_ [HPERC [HUZL [_ [_ [_ [HCWH [_ HC]]]]]]]]]]]]].
  cbn zeta. unfold step.
  pose proof (phase_nonneg par T HP) as Hphase.
  assert (Hrain_le : fst (phase par P T) <= P).
  { unfold phase. q_ops2. destruct (Qle_bool (parTT par) T); lra. }
  destruct (phase par P T) as [RAIN SNOW]. cbn [fst snd] in Hphase, Hrain_le.
  destruct Hphase as [Hrain Hsnow].
  pose proof (@snow_nonneg par T SNOW _ _ (proj1 HCWH) Hsnow Hsp Hmw) as Hsn.
  destruct (snow par T SNOW (st_SNOWPACK s) (st_MELTWATER s)) as [[SP' MW'] tosoil].
  cbn [fst snd] in Hsn. destruct Hsn as [Hsp' [Hmw' Htosoil]].
  assert (HFC0 : 0 <= parFC par) by lra.
  pose proof (@soil_fluxes pow nearzero par PET RAIN tosoil (st_SM s)
                Hrain Htosoil Hsm HPET HFC0) as Hso.
  destruct (soil pow nearzero par PET RAIN tosoil (st_SM s))
    as [[[[SM1 recharge] excess] evapfactor] ETact].
  cbn [fst snd] in Hso.
  destruct Hso as [[Hre Hre'] [Hex [Hef HET]]].
  pose proof (@capillary_nonneg par SM1 (st_SLZ s) Hslz (proj1 HC)) as Hcap.
  pose proof (capillary_rise_floor nearzero par SM1 (st_SLZ s)) as Hca.
  unfold capillary_rise in *. revert Hca. q_ops2. cbn zeta in Hcap.
  set (cap := Qmin (st_SLZ s) _) in *. intros [_ Hslz1].
  pose proof (@groundwater_fluxes par recharge excess (st_SUZ s)
                (Qmax (st_SLZ s - cap) nearzero) Hre Hex Hsuz) as Hgw.
  destruct (groundwater par recharge excess (st_SUZ s) (Qmax (st_SLZ s - cap) nearzero))
    as [[[[[SUZ' SLZ'] PERC] Q0] Q1] Q2].
  cbn [fst snd] in Hgw.
  destruct Hgw as [HP' [HQ0 [HQ1 HQ2]]]; try lra.
  cbn [snd fl_AET fl_Q0 fl_Q1 fl_Q2 fl_recharge fl_excs fl_tosoil fl_evapfactor
       fl_capillary fl_PERC fl_SWE].
  repeat split; try assumption; try tauto; lra.
Qed.

End StepFluxes.

(** ** HBVCapillary.unpack_parameters: layout *)

Section CapillaryLayout.
Context {F : Type} `{Scalar F}.
Variable sigmoid : F -> F.
Variable Rng : Type.
Variable bernoulli : Rng -> list (list F) -> list (list F) * Rng.

Local Abbreviation unpack_loop := (HBVCapillary.unpack_loop bernoulli).

(** The loop leaves alone the keys it does not visit. *)
Lemma unpack_loop_other_keys
      (self : HBVCapillary.t) (pmat : option (list (list F)))
      (phy : list (list (list (list F)))) (rp : option (list (list F))) (n : nat)
      (key : string) :
  forall names st st',
    unpack_loop self pmat phy rp n names st = Ok st' ->
    ~ In key (map snd names) ->
    dict_get (fst st') key = dict_get (fst st) key.
Proof.
  induction names as [|[i name] names IH]; intros st st' Hl Hnot;
    cbn [HBVCapillary.unpack_loop] in Hl.
  - injection Hl as <-. reflexivity.
  - cbn [map snd In] in Hnot.
    assert (Hne : key <> name) by (intros ->; apply Hnot; left; reflexivity).
    assert (Hrest : ~ In key (map snd names)) by (intros Hin; apply Hnot; right; exact Hin).
    destruct (i <? List.length (HBVCapillary.parameter_bounds self))%nat.
    + apply bind_ok in Hl as [v [_ Hl]].
      rewrite (IH _ _ Hl Hrest). cbn [fst]. apply dict_get_set_other. exact Hne.
    + destruct (HBVCapillary.routing self).
      * apply bind_ok in Hl as [r [_ Hl]].
        apply bind_ok in Hl as [col [_ Hl]].
        apply bind_ok in Hl as [bnd [_ Hl]].
        rewrite (IH _ _ Hl Hrest). cbn [fst]. apply dict_get_set_other. exact Hne.
      * injection Hl as <-. reflexivity.
Qed.

(** What the loop stores for a physical parameter that is not dynamic. *)
Lemma unpack_loop_static
      (self : HBVCapillary.t) (pmat : option (list (list F)))
      (phy : list (list (list (list F)))) (rp : option (list (list F))) (n : nat) :
  forall l s st st',
    unpack_loop self pmat phy rp n (combine (seq s (List.length l)) l) st = Ok st' ->
    NoDup l ->
    forall i name,
      nth_error l i = Some name ->
      (s + i < List.length (HBVCapillary.parameter_bounds self))%nat ->
      mem name (HBVCapillary.dy_params self) = false ->
      exists param bnd,
        HBVCapillary.static_slice phy (HBVCapillary.static_idx self) (s + i) = Ok param /\
        dict_get (HBVCapillary.parameter_bounds self) name = Ok bnd /\
        dict_get (fst st') name
        = Ok (T2 (map (map (fun v => change_param_range v bnd)) param)).
Proof.
  induction l as [|name0 l IH]; intros s st st' Hl Hnd i name Hi Hlt Hdy.
  - destruct i; discriminate Hi.
  - cbn [List.length seq combine HBVCapillary.unpack_loop] in Hl.
    inversion Hnd as [|? ? Hnotin Hnd']; subst.
    destruct i as [|i]; cbn [nth_error] in Hi.
    + injection Hi as ->. rewrite Nat.add_0_r in *.
      apply Nat.ltb_lt in Hlt. rewrite Hlt in Hl.
      apply bind_ok in Hl as [v [Hv Hl]].
      unfold HBVCapillary.unpack_phy_parameter in Hv.
      apply bind_ok in Hv as [param [Hparam Hv]].
      rewrite Hdy in Hv. apply bind_ok in Hv as [bnd [Hbnd Hv]].
      injection Hv as <-.
      exists param, bnd. split; [exact Hparam|]. split; [exact Hbnd|].
      rewrite (@unpack_loop_other_keys self pmat phy rp n name _ _ _ Hl).
      * cbn [fst]. apply dict_get_set_same.
      * intros Hin. apply Hnotin.
        apply in_map_iff in Hin as [[k nm] [Hnm Hin]]. cbn in Hnm. subst nm.
        apply in_combine_r in Hin. exact Hin.
    + destruct (s <? List.length (HBVCapillary.parameter_bounds self))%nat eqn:Hs;
        [|apply Nat.ltb_ge in Hs; lia].
      apply bind_ok in Hl as [v [_ Hl]].
      replace (s + S i)%nat with (S s + i)%nat by lia.
      eapply IH; try eassumption. lia.
Qed.

(** What the loop stores for a physical parameter that is dynamic. *)
Lemma unpack_loop_dynamic
      (self : HBVCapillary.t) (pmat : option (list (list F)))
      (phy : list (list (list (list F)))) (rp : option (list (list F))) (n : nat) :
  forall l s st st',
    unpack_loop self pmat phy rp n (combine (seq s (List.length l)) l) st = Ok st' ->
    NoDup l ->
    forall i name,
      nth_error l i = Some name ->
      (s + i < List.length (HBVCapillary.parameter_bounds self))%nat ->
      mem name (HBVCapillary.dy_params self) = true ->
      exists rng_i pm sta dyn mixed bnd,
        pmat = Some pm /\
        HBVCapillary.static_slice phy (HBVCapillary.static_idx self) (s + i) = Ok sta /\
        HBVCapillary.dynamic_slice phy (s + i) = Ok dyn /\
        HBVCapillary.mix dyn sta (fst (bernoulli rng_i pm)) = Ok mixed /\
        dict_get (HBVCapillary.parameter_bounds self) name = Ok bnd /\
        dict_get (fst st') name
        = Ok (T3 (map (map (map (fun v => change_param_range v bnd))) mixed)).
Proof.
  induction l as [|name0 l IH]; intros s st st' Hl Hnd i name Hi Hlt Hdy.
  - destruct i; discriminate Hi.
  - cbn [List.length seq combine HBVCapillary.unpack_loop] in Hl.
    inversion Hnd as [|? ? Hnotin Hnd']; subst.
    destruct i as [|i]; cbn [nth_error] in Hi.
    + injection Hi as ->. rewrite Nat.add_0_r in *.
      apply Nat.ltb_lt in Hlt. rewrite Hlt in Hl.
      apply bind_ok in Hl as [v [Hv Hl]].
      unfold HBVCapillary.unpack_phy_parameter in Hv.
      apply bind_ok in Hv as [sta [Hsta Hv]].
      rewrite Hdy in Hv.
      apply bind_ok in Hv as [pm [Hpm Hv]].
      apply bind_ok in Hv as [dyn [Hdyn Hv]].
      apply bind_ok in Hv as [mixed [Hmix Hv]].
      apply bind_ok in Hv as [bnd [Hbnd Hv]].
      injection Hv as <-.
      exists (snd st), pm, sta, dyn, mixed, bnd.
      split; [destruct pmat; [injection Hpm as ->; reflexivity | discriminate]|].
      split; [exact Hsta|]. split; [exact Hdyn|]. split; [exact Hmix|].
      split; [exact Hbnd|].
      rewrite (@unpack_loop_other_keys self pmat phy rp n name _ _ _ Hl).
      * cbn [fst]. apply dict_get_set_same.
      * intros Hin. apply Hnotin.
        apply in_map_iff in Hin as [[k nm] [Hnm Hin]]. cbn in Hnm. subst nm.
        apply in_combine_r in Hin. exact Hin.
    + destruct (s <? List.length (HBVCapillary.parameter_bounds self))%nat eqn:Hs;
        [|apply Nat.ltb_ge in Hs; lia].
      apply bind_ok in Hl as [v [_ Hl]].
      replace (s + S i)%nat with (S s + i)%nat by lia.
      eapply IH; try eassumption. lia.
Qed.

Lemma view4_entry (P M : nat) (a : list (list (list F)))
      (v : list (list (list (list F)))) (k : Z) (vtb : list (list (list F))) :
  view4 P M a = Ok v -> py_index v k = Ok vtb ->
  exists tb,
    py_index a k = Ok tb /\
    List.length vtb = List.length tb /\
    forall b row,
      nth_error tb b = Some row ->
      List.length row = (P * M)%nat /\ nth_error vtb b = Some (chunks M P row).
Proof.
  unfold view4. intros Hv Hk.
  destruct (py_index_mapM _ _ _ Hv Hk) as [tb [Htb Hm]].
  exists tb. split; [exact Htb|]. split; [apply (mapM_length _ _ Hm)|].
  intros b row Hrow.
  destruct (mapM_nth _ _ _ Hm Hrow) as [c [Hc Hn]].
  unfold view_last in Hc.
  destruct (List.length row =? P * M)%nat eqn:E; [|discriminate].
  apply Nat.eqb_eq in E. injection Hc as <-. split; assumption.
Qed.

(** X16.  The layout of [HBVCapillary.unpack_parameters] for a physical
    parameter that is not dynamic: the entry for basin [b] and ensemble
    member [j] of parameter number [i] is the rescaled sigmoid of column
    [i * nmul + j] of the network output at time step [static_idx]. *)
Theorem HBVCapillary_static_parameter_layout
        (self : HBVCapillary.t) (rng rng' : Rng)
        (parameters : list (list (list F))) (n_steps n_grid : nat)
        (d : list (string * tensor F)) (i : nat) (name : string) :
  HBVCapillary.unpack_parameters sigmoid bernoulli self rng parameters n_steps n_grid
  = Ok (d, rng') ->
  NoDup (HBVCapillary.all_parameters self) ->
  nth_error (HBVCapillary.all_parameters self) i = Some name ->
  (i < List.length (HBVCapillary.parameter_bounds self))%nat ->
  mem name (HBVCapillary.dy_params self) = false ->
  exists tb bnd m,
    py_index parameters (HBVCapillary.static_idx self) = Ok tb /\
    dict_get (HBVCapillary.parameter_bounds self) name = Ok bnd /\
    dict_get d name = Ok (T2 m) /\
    List.length m = List.length tb /\
    forall b row j,
      nth_error tb b = Some row ->
      (j < HBVCapillary.nmul self)%nat ->
      exists raw,
        nth_error row (i * HBVCapillary.nmul self + j) = Some raw /\
        entry2 m b j = Some (change_param_range (sigmoid raw) bnd).
Proof.
  unfold HBVCapillary.unpack_parameters. intros Hu Hnd Hname Hi Hdy.
  set (P := List.length (HBVCapillary.parameter_bounds self)) in *.
  set (M := HBVCapillary.nmul self) in *.
  apply bind_ok in Hu as [phy [Hphy Hu]].
  apply bind_ok in Hu as [rp [_ Hu]].
  unfold HBV_adj.enumerate in Hu.
  destruct (@unpack_loop_static self _ phy rp n_steps _ 0%nat _ _ Hu Hnd i name
              Hname Hi Hdy) as [param [bnd [Hparam [Hbnd Hget]]]].
  cbn [Nat.add fst] in Hparam, Hget.
  unfold HBVCapillary.static_slice in Hparam.
  apply bind_ok in Hparam as [vtb [Hvtb Hparam]].
  destruct (view4_entry _ _ _ _ Hphy Hvtb) as [tb' [Htb' [Hlen Hrows]]].
  apply py_index_map in Htb' as [tb [Htb ->]].
  exists tb, bnd, (map (map (fun v => change_param_range v bnd)) param).
  split; [exact Htb|]. split; [exact Hbnd|]. split; [exact Hget|].
  split.
  { rewrite length_map, (mapM_length _ _ Hparam), Hlen, length_map. reflexivity. }
  intros b row j Hrow Hj.
  assert (Hrow' : nth_error (map (fun row => map sigmoid (py_slice_to row (P * M))) tb) b
                  = Some (map sigmoid (py_slice_to row (P * M))))
    by (rewrite nth_error_map, Hrow; reflexivity).
  destruct (Hrows _ _ Hrow') as [Hrl Hch].
  destruct (mapM_nth _ _ _ Hparam Hch) as [pm [Hpm Hnth]].
  rewrite chunks_nth in Hpm by exact Hi.
  injection Hpm as <-.
  unfold entry2. rewrite nth_error_map, Hnth. cbn [option_map].
  rewrite nth_error_map, chunk_entry by exact Hj.
  rewrite nth_error_map. unfold py_slice_to.
  rewrite length_map in Hrl. unfold py_slice_to in Hrl.
  assert (Hlt : (i * M + j < P * M)%nat) by nia.
  rewrite nth_error_firstn. apply Nat.ltb_lt in Hlt as Hltb. rewrite Hltb.
  rewrite length_firstn in Hrl.
  destruct (nth_error row (i * M + j)) as [raw|] eqn:Hraw;
    [|apply nth_error_None in Hraw; lia].
  exists raw. split; reflexivity.
Qed.

End CapillaryLayout.

Section CapillaryRoutingLayout.
Context {F : Type} `{Scalar F}.
Variable sigmoid : F -> F.
Variable Rng : Type.
Variable bernoulli : Rng -> list (list F) -> list (list F) * Rng.

Local Abbreviation unpack_loop := (HBVCapillary.unpack_loop bernoulli).

Lemma unpack_loop_routing
      (self : HBVCapillary.t) (pmat : option (list (list F)))
      (phy : list (list (list (list F)))) (rp : option (list (list F))) (n : nat) :
  HBVCapillary.routing self = true ->
  forall l s st st',
    unpack_loop self pmat phy rp n (combine (seq s (List.length l)) l) st = Ok st' ->
    NoDup l ->
    forall k name,
      nth_error l k = Some name ->
      (List.length (HBVCapillary.parameter_bounds self) <= s + k)%nat ->
      exists r col bnd,
        rp = Some r /\
        mapM (fun row =>
                match nth_error row
                        (s + k - List.length (HBVCapillary.parameter_bounds self))%nat with
                | Some v => Ok v
                | None => Raise IndexError
                end) r = Ok col /\
        dict_get (HBVCapillary.routing_parameter_bounds self) name = Ok bnd /\
        dict_get (fst st') name
        = Ok (T3 (repeat (map (fun v => [change_param_range v bnd]) col) n)).
Proof.
  intros Hrout.
  induction l as [|name0 l IH]; intros s st st' Hl Hnd k name Hk Hge.
  - destruct k; discriminate Hk.
  - cbn [List.length seq combine HBVCapillary.unpack_loop] in Hl.
    apply NoDup_cons_iff in Hnd as [Hnotin Hnd'].
    destruct k as [|k]; cbn [nth_error] in Hk.
    + injection Hk as ->. rewrite Nat.add_0_r in *.
      apply Nat.ltb_ge in Hge. rewrite Hge, Hrout in Hl.
      apply bind_ok in Hl as [r [Hr Hl]].
      apply bind_ok in Hl as [col [Hcol Hl]].
      apply bind_ok in Hl as [bnd [Hbnd Hl]].
      destruct rp as [r0|] eqn:Erp; [|discriminate Hr].
      injection Hr as ->. rewrite <- Erp in Hl.
      exists r, col, bnd.
      split; [reflexivity|].
      split; [exact Hcol|]. split; [exact Hbnd|].
      rewrite (@unpack_loop_other_keys F _ Rng bernoulli self pmat phy rp n name _ _ _ Hl).
      * cbn [fst]. apply dict_get_set_same.
      * intros Hin. apply Hnotin.
        apply in_map_iff in Hin as [[j nm] [Hnm Hin]]. cbn in Hnm. subst nm.
        apply in_combine_r in Hin. exact Hin.
    + assert (Hnext : exists st1,
                 unpack_loop self pmat phy rp n (combine (seq (S s) (List.length l)) l) st1
                 = Ok st').
      { destruct (s <? List.length (HBVCapillary.parameter_bounds self))%nat.
        - apply bind_ok in Hl as [v [_ Hl]]. eexists; exact Hl.
        - rewrite Hrout in Hl.
          apply bind_ok in Hl as [r [_ Hl]].
          apply bind_ok in Hl as [col [_ Hl]].
          apply bind_ok in Hl as [bnd [_ Hl]]. eexists; exact Hl. }
      destruct Hnext as [st1 Hl1].
      replace (s + S k)%nat with (S s + k)%nat in * by lia.
      eapply IH; eassumption.
Qed.

(** X17.  The routing parameters of [HBVCapillary.unpack_parameters] are
    read from the last time step of the network output, whatever
    [static_idx] is: parameter number [i >= P] is the rescaled sigmoid of
    column [P * nmul + (i - P)], repeated over all [n_steps] time steps
    ([P] the number of physical parameters). *)
Theorem HBVCapillary_routing_parameter_layout
        (self : HBVCapillary.t) (rng rng' : Rng)
        (parameters : list (list (list F))) (n_steps n_grid : nat)
        (d : list (string * tensor F)) (i : nat) (name : string) :
  HBVCapillary.unpack_parameters sigmoid bernoulli self rng parameters n_steps n_grid
  = Ok (d, rng') ->
  HBVCapillary.routing self = true ->
  NoDup (HBVCapillary.all_parameters self) ->
  nth_error (HBVCapillary.all_parameters self) i = Some name ->
  (List.length (HBVCapillary.parameter_bounds self) <= i)%nat ->
  exists last bnd traj,
    py_index parameters (-1) = Ok last /\
    dict_get (HBVCapillary.routing_parameter_bounds self) name = Ok bnd /\
    dict_get d name = Ok (T3 traj) /\
    List.length traj = n_steps /\
    forall t b row,
      (t < n_steps)%nat -> nth_error last b = Some row ->
      exists raw,
        nth_error row (List.length (HBVCapillary.parameter_bounds self)
                       * HBVCapillary.nmul self
                       + (i - List.length (HBVCapillary.parameter_bounds self)))%nat
        = Some raw /\
        entry3 traj t b 0 = Some (change_param_range (sigmoid raw) bnd).
Proof.
  unfold HBVCapillary.unpack_parameters. intros Hu Hrout Hnd Hname Hi.
  set (P := List.length (HBVCapillary.parameter_bounds self)) in *.
  set (M := HBVCapillary.nmul self) in *.
  apply bind_ok in Hu as [phy [_ Hu]].
  apply bind_ok in Hu as [rp [Hrp Hu]].
  rewrite Hrout in Hrp. apply bind_ok in Hrp as [last [Hlast Hrp]].
  injection Hrp as <-.
  unfold HBV_adj.enumerate in Hu.
  edestruct (@unpack_loop_routing self) as [r [col [bnd [Hr [Hcol [Hbnd Hget]]]]]];
    [exact Hrout | exact Hu | exact Hnd | exact Hname | cbn; exact Hi |].
  injection Hr as <-. cbn [Nat.add fst] in Hcol, Hget. fold P in Hcol.
  exists last, bnd. eexists.
  split; [exact Hlast|]. split; [exact Hbnd|]. split; [exact Hget|].
  split; [apply repeat_length|].
  intros t b row Ht Hb.
  assert (Hb' : nth_error (map (fun row => map sigmoid (py_slice_from row (P * M))) last) b
                = Some (map sigmoid (py_slice_from row (P * M))))
    by (rewrite nth_error_map, Hb; reflexivity).
  destruct (mapM_nth _ _ _ Hcol Hb') as [v [Hv Hnv]].
  rewrite nth_error_map in Hv. unfold py_slice_from in Hv.
  rewrite nth_error_skipn in Hv.
  destruct (nth_error row (P * M + (i - P))) as [raw|] eqn:Hraw;
    cbn [option_map] in Hv; [|discriminate].
  injection Hv as <-.
  exists raw. split; [reflexivity|].
  unfold entry3. rewrite (nth_error_repeat _ Ht).
  unfold entry2. rewrite nth_error_map, Hnv. reflexivity.
Qed.

End CapillaryRoutingLayout.

(** ** Dynamic-parameter masking: which value is the static one *)

Section StaticValue.
Local Open Scope Q_scope.
Variable sigmoid : Q -> Q.
Variable Rng : Type.
Variable bernoulli : Rng -> list (list Q) -> list (list Q) * Rng.

(** C8.  For each parameter flagged dynamic one mask is drawn, with the
    probability [dy_drop] for every basin, outside any loop over time, and
    the entry of a basin is applied at every time step: where it is 1 the
    trajectory is the static value at every step, where it is 0 it is the
    per-step dynamic value.
    In [HBVCapillary.unpack_parameters] (second part) the static value is the
    one at the configured step [static_idx], as the claim has it.
    In [HBV_adj.make_phy_parameters] (first part) it is the value at the last
    time step of the tensor the function is given, whatever the static index:
    [__init__] stores [stat_param_idx] in [static_idx] and nothing reads it.
    The third part evaluates both on one input, a parameter that is 1/4 at
    step 0 and 3/4 at step 1 with the static index 0 and every mask entry 1:
    [HBVCapillary] pins the parameter to its value at step 0, [HBV_adj] to
    its value at step 1. *)
Theorem make_phy_parameters_ignores_static_idx :
  (forall (self : HBV_adj.t) (rng rng' : Rng)
          (phy_params traj : list (list (list Q))) (name_list dy_list : list string)
          (i : nat) (name : string),
     HBV_adj.make_phy_parameters bernoulli self rng phy_params name_list dy_list
     = Ok (traj, rng') ->
     nth_error name_list i = Some name ->
     mem name dy_list = true ->
     exists last rng_i mask,
       py_index phy_params (-1) = Ok last /\
       fst (bernoulli rng_i
              [repeat (1 * HBV_adj.dy_drop self) (List.length (hd [] phy_params))])
       = [mask] /\
       forall t g d s mk,
         entry3 phy_params t g i = Some d -> entry2 last g i = Some s ->
         nth_error mask g = Some mk ->
         exists val,
           entry3 traj t g i = Some val /\
           (mk == 1 -> val == s) /\ (mk == 0 -> val == d))
  /\
  (forall (self : HBVCapillary.t) (rng rng' : Rng)
          (parameters : list (list (list Q))) (n_steps n_grid : nat)
          (dict : list (string * tensor Q)) (i : nat) (name : string),
     HBVCapillary.unpack_parameters sigmoid bernoulli self rng parameters n_steps n_grid
     = Ok (dict, rng') ->
     NoDup (HBVCapillary.all_parameters self) ->
     nth_error (HBVCapillary.all_parameters self) i = Some name ->
     (i < List.length (HBVCapillary.parameter_bounds self))%nat ->
     mem name (HBVCapillary.dy_params self) = true ->
     exists phy rng_i sta dyn bnd traj,
       view4 (List.length (HBVCapillary.parameter_bounds self)) (HBVCapillary.nmul self)
             (map (map (fun row =>
                          map sigmoid
                              (py_slice_to row
                                 (List.length (HBVCapillary.parameter_bounds self)
                                  * HBVCapillary.nmul self))))
                  parameters)
       = Ok phy /\
       HBVCapillary.static_slice phy (HBVCapillary.static_idx self) i = Ok sta /\
       HBVCapillary.dynamic_slice phy i = Ok dyn /\
       dict_get (HBVCapillary.parameter_bounds self) name = Ok bnd /\
       dict_get dict name = Ok (T3 traj) /\
       forall t g m d s mk,
         entry3 dyn t g m = Some d -> entry2 sta g m = Some s ->
         nth_error (fst (bernoulli rng_i
                           (repeat [1 * HBVCapillary.dy_drop self] n_grid))) g
         = Some [mk] ->
         exists val,
           entry3 traj t g m = Some val /\
           (mk == 1 -> val == change_param_range s bnd) /\
           (mk == 0 -> val == change_param_range d bnd))
  /\
  (HBV_adj.static_idx StaticDrop.self = Some 0%Z /\
   HBVCapillary.static_idx StaticDrop.capillary = 0%Z /\
   (exists traj v0 v1,
       HBV_adj.make_phy_parameters StaticDrop.bernoulli StaticDrop.self tt
         StaticDrop.phy_params ["parBETA"%string] ["parBETA"%string]
       = Ok (traj, tt) /\
       entry3 StaticDrop.phy_params 0 0 0 = Some (1 # 4) /\
       entry3 StaticDrop.phy_params 1 0 0 = Some (3 # 4) /\
       entry3 traj 0 0 0 = Some v0 /\ entry3 traj 1 0 0 = Some v1 /\
       v0 == 3 # 4 /\ v1 == 3 # 4 /\ ~ v0 == 1 # 4) /\
   (exists dict traj v0 v1,
       HBVCapillary.unpack_parameters Sample.sigmoid StaticDrop.bernoulli
         StaticDrop.capillary tt StaticDrop.raw 2 1
       = Ok (dict, tt) /\
       dict_get dict "parBETA" = Ok (T3 traj) /\
       entry3 traj 0 0 0 = Some v0 /\ entry3 traj 1 0 0 = Some v1 /\
       v0 == change_param_range (1 # 4) (1, 6) /\
       v1 == change_param_range (1 # 4) (1, 6) /\
       ~ v1 == change_param_range (3 # 4) (1, 6))).
Proof.
  split; [|split].
  - intros self rng rng' phy_params traj name_list dy_list i name Hrun Hname Hdyn.
    unfold HBV_adj.make_phy_parameters in Hrun.
    apply bind_ok in Hrun as [last [Hlast Hrun]].
    destruct dy_list as [|d0 dy]; [discriminate Hdyn|].
    unfold HBV_adj.enumerate in Hrun.
    edestruct (@mask_loop_dynamic Q _ Rng bernoulli) as [rng_i [mask [Hmask Hent]]];
      [exact Hrun | reflexivity | apply Nat.le_0_l
       | rewrite Nat.sub_0_r; exact Hname | exact Hdyn |].
    exists last, rng_i, mask. split; [exact Hlast|]. split; [exact Hmask|].
    intros t g d s mk Hd Hs Hmk.
    assert (Ht : (t < List.length phy_params)%nat).
    { apply nth_error_Some. unfold entry3 in Hd.
      destruct (nth_error phy_params t); [discriminate | discriminate Hd]. }
    eexists. split.
    + cbn [fst] in Hent. apply (Hent t g d s mk Hd); [|exact Hmk].
      rewrite (entry3_repeat _ g i Ht). exact Hs.
    + cbn [fadd fmul fsub f1 Scalar_Q].
      split; intros Hq; [apply mask_one | apply mask_zero]; exact Hq.
  - intros self rng rng' parameters n_steps n_grid dict i name Hu Hnd Hname Hi Hdyn.
    unfold HBVCapillary.unpack_parameters in Hu.
    apply bind_ok in Hu as [phy [Hphy Hu]].
    apply bind_ok in Hu as [rp [_ Hu]].
    unfold HBV_adj.enumerate in Hu.
    edestruct (@unpack_loop_dynamic Q _ Rng bernoulli)
      as [rng_i [pm [sta [dyn [mixed [bnd [Hpm [Hsta [Hdy [Hmix [Hbnd Hget]]]]]]]]]]];
      [exact Hu | exact Hnd | exact Hname | exact Hi | exact Hdyn |].
    cbn [Nat.add fst] in Hsta, Hdy, Hget.
    assert (Hpmat : pm = repeat [1 * HBVCapillary.dy_drop self] n_grid).
    { destruct (0 <? List.length (HBVCapillary.dy_params self))%nat;
        [|discriminate Hpm].
      injection Hpm as <-. reflexivity. }
    subst pm.
    exists phy, rng_i, sta, dyn, bnd. eexists.
    split; [exact Hphy|]. split; [exact Hsta|]. split; [exact Hdy|].
    split; [exact Hbnd|]. split; [exact Hget|].
    intros t g m d s mk Hd Hs Hmk.
    pose proof (capillary_mix_entry _ _ _ _ _ _ Hmix Hd Hs Hmk) as Hent.
    eexists. split.
    + unfold entry3 in *. rewrite nth_error_map.
      destruct (nth_error mixed t) as [mt|]; [|discriminate]. cbn [option_map].
      apply entry2_map. exact Hent.
    + cbn [fadd fmul fsub f1 Scalar_Q].
      split; intros Hmask; apply change_param_range_eq;
        [apply mask_one | apply mask_zero]; exact Hmask.
  - split; [reflexivity|]. split; [reflexivity|]. split.
    + do 3 eexists. split; [vm_compute; reflexivity|].
      split; [reflexivity|]. split; [reflexivity|].
      split; [reflexivity|]. split; [reflexivity|].
      split; [vm_compute; reflexivity|]. split; [vm_compute; reflexivity|].
      intros Heq. vm_compute in Heq. discriminate Heq.
    + do 4 eexists. split; [vm_compute; reflexivity|].
      split; [reflexivity|]. split; [reflexivity|]. split; [reflexivity|].
      split; [vm_compute; reflexivity|]. split; [vm_compute; reflexivity|].
      intros Heq. vm_compute in Heq. discriminate Heq.
Qed.

End StaticValue.

Section InitNames.
Context {F : Type} `{Scalar F}.

Ltac distinct_names :=
  repeat (constructor;
          [cbn [In]; intros Hin;
           repeat (destruct Hin as [Hin|Hin]; [discriminate Hin|]); exact Hin|]);
  constructor.

(** The parameter names [set_parameters] lists are distinct. *)
Lemma init_all_parameters_NoDup (c : option HBVCapillary.config) :
  NoDup (HBVCapillary.all_parameters (HBVCapillary.init c)).
Proof.
  unfold HBVCapillary.init. cbn [HBVCapillary.all_parameters].
  destruct (match c with Some c0 => HBVCapillary.c_routing c0 | None => false end);
    cbn [map fst app HBVCapillary.default_parameter_bounds
         HBVCapillary.default_routing_parameter_bounds];
    distinct_names.
Qed.

End InitNames.

(** ** HBVCapillary: errors of unpack_parameters and forward *)

Lemma list_index_absent (x : string) :
  forall names, mem x names = false -> list_index x names = Raise (ValueError x).
Proof.
  unfold mem. induction names as [|y ys IH]; intros Hm; [reflexivity|].
  cbn [existsb] in Hm. apply orb_false_iff in Hm as [Hxy Hys].
  cbn [list_index]. rewrite Hxy, (IH Hys). reflexivity.
Qed.

Section CapillaryErrors.
Context {F : Type} `{Scalar F}.
Variable sigmoid : F -> F.
Variable pow : F -> F -> F.
Variable Rng : Type.
Variable bernoulli : Rng -> list (list F) -> list (list F) * Rng.
Variable UH_gamma : tensor F -> tensor F -> nat -> result (list (list (list F))).
Variable UH_conv :
  list (list (list F)) -> list (list (list F)) -> result (list (list (list F))).

Local Abbreviation forward_from :=
  (HBVCapillary.forward_from sigmoid pow bernoulli UH_gamma UH_conv).
Local Abbreviation forward :=
  (HBVCapillary.forward sigmoid pow bernoulli UH_gamma UH_conv).

Lemma forward_from_needs_warm_up_states
      (self : HBVCapillary.t) (rng : Rng) (x : list (list (list F)))
      (muwts : option (list (list (list F)))) (parameters : list (list (list F)))
      (state0 : list (list (HBVCapillary.storages F))) :
  HBVCapillary.warm_up_states self = false ->
  HBVCapillary.initialize self = false ->
  raises (forward_from self rng x muwts parameters state0).
Proof.
  intros Hwus Hinit. unfold HBVCapillary.forward_from.
  do 10 (apply bind_raises_later; intros ?).
  rewrite Hinit, Hwus.
  do 5 (apply bind_raises_later; intros ?).
  cbn [negb]. apply bind_raise.
  eapply mapM_raises_at.
  - do 17 right. left. reflexivity.
  - cbn. eexists. reflexivity.
Qed.

(** X20.  Outside warm-up mode, [HBVCapillary.forward] with
    [warm_up_states] false raises on every input: every entry of the output
    dictionary is cut with three indices, and the baseflow index [BFI_sim] is
    a tensor of rank 1. *)
Theorem HBVCapillary_output_needs_warm_up_states
        (self : HBVCapillary.t) (rng : Rng) (x : list (list (list F)))
        (muwts : option (list (list (list F)))) (parameters : list (list (list F))) :
  HBVCapillary.warm_up_states self = false ->
  HBVCapillary.initialize self = false ->
  raises (forward self rng x muwts parameters).
Proof.
  intros Hwus Hinit. unfold HBVCapillary.forward. rewrite Hwus.
  cbn [HBVCapillary.reset_warm_up HBVCapillary.warm_up Nat.ltb Nat.leb].
  apply forward_from_needs_warm_up_states; assumption.
Qed.

(** X19.  An [HBVCapillary] whose forcing list lacks ["prcp"] raises
    ValueError on every input: [self.variables.index('prcp')] is the first
    thing evaluated after the initialization, in the warm-up model as in
    the model itself. *)
Theorem HBVCapillary_needs_precipitation
        (c : option HBVCapillary.config) (rng : Rng) (x : list (list (list F)))
        (muwts : option (list (list (list F)))) (parameters : list (list (list F))) :
  mem "prcp" (HBVCapillary.variables (HBVCapillary.init c)) = false ->
  forward (HBVCapillary.init c) rng x muwts parameters = Raise (ValueError "prcp").
Proof.
  intros Hm. apply list_index_absent in Hm.
  unfold HBVCapillary.forward.
  set (self := if HBVCapillary.warm_up_states (HBVCapillary.init c)
               then HBVCapillary.init c
               else HBVCapillary.reset_warm_up (HBVCapillary.init c)).
  assert (Hvars : HBVCapillary.variables self
                  = HBVCapillary.variables (HBVCapillary.init c))
    by (unfold self; destruct (HBVCapillary.warm_up_states _); reflexivity).
  assert (Hcfg : HBVCapillary.cfg self = c)
    by (unfold self; destruct (HBVCapillary.warm_up_states _); reflexivity).
  destruct (0 <? HBVCapillary.warm_up self)%nat.
  - unfold HBVCapillary.forward_from at 1.
    unfold HBVCapillary.init_model. rewrite Hcfg.
    cbn [HBVCapillary.variables]. rewrite Hm. reflexivity.
  - unfold HBVCapillary.forward_from. rewrite Hvars, Hm. reflexivity.
Qed.

(** X18.  [HBVCapillary.unpack_parameters] raises RuntimeError when the
    network output has fewer than [P * nmul] columns: the slice of physical
    parameters cannot be viewed as [P x nmul]. *)
Theorem HBVCapillary_unpack_needs_all_columns
        (self : HBVCapillary.t) (rng : Rng) (parameters : list (list (list F)))
        (n_steps n_grid : nat) (tb : list (list F)) (row : list F) :
  In tb parameters -> In row tb ->
  (List.length row
   < List.length (HBVCapillary.parameter_bounds self) * HBVCapillary.nmul self)%nat ->
  exists msg,
    HBVCapillary.unpack_parameters sigmoid bernoulli self rng parameters n_steps n_grid
    = Raise (RuntimeError msg).
Proof.
  intros Htb Hrow Hlen. unfold HBVCapillary.unpack_parameters.
  set (k := (List.length (HBVCapillary.parameter_bounds self)
             * HBVCapillary.nmul self)%nat) in *.
  destruct (view4 _ _ _) as [phy|e] eqn:Hv.
  - exfalso.
    assert (Hr : raises (view4 (List.length (HBVCapillary.parameter_bounds self))
                               (HBVCapillary.nmul self)
                               (map (map (fun row => map sigmoid (py_slice_to row k)))
                                    parameters))).
    { unfold view4. eapply mapM_raises_at.
      - apply in_map. exact Htb.
      - eapply mapM_raises_at.
        + apply in_map. exact Hrow.
        + unfold view_last, py_slice_to.
          rewrite length_map, length_firstn. fold k.
          replace (Nat.min k (List.length row) =? k)%nat with false
            by (symmetry; apply Nat.eqb_neq; lia).
          eexists; reflexivity. }
    destruct Hr as [e He]. rewrite He in Hv. discriminate.
  - apply (view4_raises_runtime) in Hv as [msg ->]. exists msg. reflexivity.
Qed.

End CapillaryErrors.

(** * The further statements on concrete inputs *)

(** The step from [xt = 1] with [p = 1], [dt = 1] started at its root
    [x = 1/2]: the residual is zero there. *)
Lemma linear_decay_root :
  exists gg J rn m,
    NewtonSolve.fresh_jacobian LinearDecay.batchJacobian LinearDecay.autograd_grad
      LinearDecay.p LinearDecay.p2 0 LinearDecay.G LinearDecay.auxG true
      (T2 [[Q2Qc (1 # 2)]]) = Ok (gg, J) /\
    linalg_norm_inf gg = Ok rn /\
    torch_max rn = Ok m /\
    fgtb m NewtonSolve.gtol = false.
Proof.
  do 4 eexists. split; [vm_compute; reflexivity|].
  split; [vm_compute; reflexivity|].
  split; [vm_compute; reflexivity|].
  vm_compute. reflexivity.
Qed.

Lemma converged_guess_is_returned_witness :
  NewtonSolve.forward LinearDecay.matrixSolve LinearDecay.batchJacobian
    LinearDecay.autograd_grad 1 LinearDecay.p LinearDecay.p2 0 LinearDecay.G
    (Some (T2 [[Q2Qc (1 # 2)]])) LinearDecay.auxG true true true
  = Some (Ok (T2 [[Q2Qc (1 # 2)]], None)).
Proof.
  destruct linear_decay_root as [gg [J [rn [m [HJ [Hrn [Hm Hg]]]]]]].
  exact (proj1 (@converged_guess_is_returned Qc _ _ LinearDecay.matrixSolve
                  LinearDecay.batchJacobian LinearDecay.autograd_grad
                  LinearDecay.p LinearDecay.p2 0%nat LinearDecay.G LinearDecay.auxG
                  true 0%nat (Some (T2 [[Q2Qc (1 # 2)]])) (T2 [[Q2Qc (1 # 2)]])
                  gg J rn m true (or_introl eq_refl) HJ Hrn Hm Hg)).
Defined.

Lemma forward_needs_batchP_witness :
  exists e,
    NewtonSolve.forward LinearDecay.matrixSolve LinearDecay.batchJacobian
      LinearDecay.autograd_grad 5 LinearDecay.p LinearDecay.p2 0 LinearDecay.G
      None LinearDecay.auxG false false true
    = Some (Raise e).
Proof.
  apply (@forward_needs_batchP Qc _ _ LinearDecay.matrixSolve
           LinearDecay.batchJacobian LinearDecay.autograd_grad).
  cbn. lia.
Defined.

Lemma linear_decay_forward_runs :
  exists x ctx,
    NewtonSolve.forward LinearDecay.matrixSolve LinearDecay.batchJacobian
      LinearDecay.autograd_grad 5 LinearDecay.p LinearDecay.p2 0 LinearDecay.G
      None LinearDecay.auxG true false true
    = Some (Ok (x, ctx)).
Proof. do 2 eexists. vm_compute. reflexivity. Qed.

Lemma forward_saves_unless_eval_witness :
  exists x c,
    NewtonSolve.forward LinearDecay.matrixSolve LinearDecay.batchJacobian
      LinearDecay.autograd_grad 5 LinearDecay.p LinearDecay.p2 0 LinearDecay.G
      None LinearDecay.auxG true false true
    = Some (Ok (x, Some c)).
Proof.
  destruct linear_decay_forward_runs as [x [ctx Hrun]].
  destruct (proj2 (@forward_saves_unless_eval Qc _ _ LinearDecay.matrixSolve
                     LinearDecay.batchJacobian LinearDecay.autograd_grad
                     LinearDecay.p LinearDecay.p2 0%nat LinearDecay.G LinearDecay.auxG
                     true 5%nat None true false x ctx Hrun) eq_refl)
    as [_ [c [Hc _]]].
  exists x, c. rewrite <- Hc. exact Hrun.
Defined.

Lemma linear_decay_wide_step :
  exists e,
    MOL.nsteps_pDyn 5 (LinearDecay.wide 1)
                    (T3 [[[LinearDecay.q 1]]]) (T2 [[LinearDecay.q 1]])
    = Some (Ok [e]).
Proof. eexists. vm_compute. reflexivity. Qed.

Lemma nsteps_pDyn_solution_shape_witness :
  exists e y,
    MOL.nsteps_pDyn 5 (LinearDecay.wide 1)
                    (T3 [[[LinearDecay.q 1]]]) (T2 [[LinearDecay.q 1]])
    = Some (Ok [e]) /\
    MOL.ySolution (LinearDecay.wide 1) [e] = [T2 y] /\
    List.length y = 2%nat.
Proof.
  destruct linear_decay_wide_step as [[x ctx] Hrun].
  destruct (nsteps_pDyn_solution_shape _ _ _ _ Hrun) as [_ [_ [Hk _]]].
  destruct (Hk 0%nat x ctx eq_refl) as [y [_ [Hy [Hlen _]]]].
  exists (x, ctx), y. split; [exact Hrun|]. split; [|exact Hlen].
  unfold MOL.ySolution in *. cbn [map nth_error fst] in *.
  injection Hy as Hy. rewrite Hy. reflexivity.
Defined.

Lemma unknown_method_cannot_step_witness :
  MOL.nsteps_pDyn 5 (LinearDecay.mol 2 1)
                  (T3 [[[LinearDecay.q 1]]]) (T2 [[LinearDecay.q 1]])
  = Some (Raise (UnboundLocalError "gg")).
Proof.
  apply (@unknown_method_cannot_step Qc _ unit LinearDecay.matrixSolve
           LinearDecay.batchJacobian LinearDecay.autograd_grad).
  - reflexivity.
  - discriminate.
  - discriminate.
  - cbn. lia.
  - reflexivity.
Defined.



Lemma linear_decay_two_steps :
  exists e0 e1,
    MOL.nsteps_pDyn 5 (LinearDecay.mol 0 2)
                    (T3 [[[LinearDecay.q 1]]; [[LinearDecay.q 3]]])
                    (T2 [[LinearDecay.q 1]])
    = Some (Ok [e0; e1]).
Proof. do 2 eexists. vm_compute. reflexivity. Qed.

Lemma nsteps_pDyn_chains_the_steps_witness :
  exists e0 e1,
    MOL.nsteps_pDyn 5 (LinearDecay.mol 0 2)
                    (T3 [[[LinearDecay.q 1]]; [[LinearDecay.q 3]]])
                    (T2 [[LinearDecay.q 1]])
    = Some (Ok [e0; e1]) /\
    LinearDecay.solveAdj 5%nat (T2 [[LinearDecay.q 3]]) (Some (fst e0)) 1%nat
      (MOL.as_G (LinearDecay.mol 0 2)) None (Q2Qc 1, None) true false true
    = Some (Ok e1).
Proof.
  destruct linear_decay_two_steps as [e0 [[x1 ctx1] Hrun]].
  exists e0, (x1, ctx1). split; [exact Hrun|].
  destruct (nsteps_pDyn_chains_the_steps _ _ _ _ Hrun) as [pd [Hpd Hk]].
  injection Hpd as <-.
  destruct (Hk 1%nat x1 ctx1 eq_refl) as [p [Hp Hs]].
  cbn [nth_error] in Hp. injection Hp as <-.
  exact Hs.
Defined.

Lemma sample_ode_runs :
  exists dS fl q0 q1 q2 et,
    HBV_function.forward MeltDay.pow Sample.ode Sample.ode_y Sample.ode_theta 0 false
    = Ok (HBV_function.DS dS fl) /\
    HBV_function.forward MeltDay.pow Sample.ode Sample.ode_y Sample.ode_theta 0 true
    = Ok (HBV_function.Fluxes fl q0 q1 q2 et).
Proof. do 6 eexists. split; vm_compute; reflexivity. Qed.

Lemma HBV_function_conserves_water_witness :
  exists dS fl,
    HBV_function.forward MeltDay.pow Sample.ode Sample.ode_y Sample.ode_theta 0 false
    = Ok (HBV_function.DS dS fl) /\
    List.length dS = List.length Sample.ode_y.
Proof.
  destruct sample_ode_runs as [dS [fl [q0 [q1 [q2 [et [Hd Hf]]]]]]].
  exists dS, fl. split; [exact Hd|].
  exact (proj1 (proj2 (HBV_function_conserves_water _ _ _ _ _ Hd Hf))).
Defined.

Lemma step_water_balance_witness :
  (storage_total MeltDay.after
   + outflow (snd (HBVCapillary.step MeltDay.pow MeltDay.nearzero MeltDay.par
                                     MeltDay.P MeltDay.T MeltDay.PET MeltDay.s0))
   <= storage_total MeltDay.s0 + MeltDay.P + 2 * MeltDay.nearzero)%Q.
Proof.
  apply (proj2 (step_water_balance MeltDay.pow MeltDay.nearzero MeltDay.P MeltDay.T
                                   MeltDay.PET MeltDay.par MeltDay.s0)).
  - vm_compute. discriminate.
  - vm_compute. discriminate.
  - vm_compute. discriminate.
Defined.

Lemma step_fluxes_bounded_witness :
  (0 <= HBVCapillary.fl_AET
          (snd (HBVCapillary.step MeltDay.pow MeltDay.nearzero MeltDay.par
                                  MeltDay.P MeltDay.T MeltDay.PET MeltDay.s0)))%Q.
Proof.
  pose proof melt_day_inputs as [Hnz [HP [HPET [Hb [_ Hs]]]]].
  exact (proj1 (proj1 (step_fluxes_bounded MeltDay.pow MeltDay.T Hnz HP HPET Hb Hs))).
Defined.

Lemma sample_cold_stops :
  HBVCapillary.forward Stub.sigmoid Stub.pow Stub.bernoulli
    Stub.UH_gamma Stub.UH_conv Sample.cold tt Sample.day None Sample.raw16
  = Raise IndexError.
Proof. vm_compute. reflexivity. Qed.

Lemma sample_warm_returns :
  exists d v,
    HBVCapillary.forward Stub.sigmoid Stub.pow Stub.bernoulli
      Stub.UH_gamma Stub.UH_conv Sample.capillary tt Sample.day None Sample.raw16
    = Ok (HBVCapillary.Dict d) /\
    dict_get d "BFI_sim" = Ok (Some (T1 [v])).
Proof. do 2 eexists. split; vm_compute; reflexivity. Qed.

Lemma HBVCapillary_output_needs_warm_up_states_witness :
  HBVCapillary.routing Sample.cold = true /\
  (exists d v,
      HBVCapillary.forward Stub.sigmoid Stub.pow Stub.bernoulli
        Stub.UH_gamma Stub.UH_conv Sample.capillary tt Sample.day None Sample.raw16
      = Ok (HBVCapillary.Dict d) /\
      dict_get d "BFI_sim" = Ok (Some (T1 [v]))) /\
  exists e,
    HBVCapillary.forward Stub.sigmoid Stub.pow Stub.bernoulli
      Stub.UH_gamma Stub.UH_conv Sample.cold tt Sample.day None Sample.raw16
    = Raise e /\
    e = IndexError.
Proof.
  split; [reflexivity|]. split; [exact sample_warm_returns|].
  destruct (@HBVCapillary_output_needs_warm_up_states Qc _ Stub.sigmoid Stub.pow unit
              Stub.bernoulli Stub.UH_gamma Stub.UH_conv
              Sample.cold tt Sample.day None Sample.raw16 eq_refl eq_refl)
    as [e He].
  exists e. split; [exact He|].
  rewrite sample_cold_stops in He. injection He as <-. reflexivity.
Defined.

Lemma HBVCapillary_needs_precipitation_witness :
  HBVCapillary.forward Stub.sigmoid Stub.pow Stub.bernoulli
    Stub.UH_gamma Stub.UH_conv (HBVCapillary.init (Some Sample.no_rain_config)) tt
    [[[LinearDecay.q 5; LinearDecay.q 0]]] None Sample.raw16
  = Raise (ValueError "prcp").
Proof.
  exact (@HBVCapillary_needs_precipitation Qc _ Stub.sigmoid Stub.pow unit
           Stub.bernoulli Stub.UH_gamma Stub.UH_conv
           (Some Sample.no_rain_config) tt
           [[[LinearDecay.q 5; LinearDecay.q 0]]] None Sample.raw16 eq_refl).
Defined.

Lemma HBVCapillary_unpack_needs_all_columns_witness :
  exists msg,
    HBVCapillary.unpack_parameters Stub.sigmoid Stub.bernoulli
      (HBVCapillary.init None) tt [[[LinearDecay.q 0]]] 1 1
    = Raise (RuntimeError msg).
Proof.
  apply (@HBVCapillary_unpack_needs_all_columns Qc _ Stub.sigmoid unit Stub.bernoulli
           (HBVCapillary.init None) tt [[[LinearDecay.q 0]]] 1%nat 1%nat
           [[LinearDecay.q 0]] [LinearDecay.q 0]).
  - left. reflexivity.
  - left. reflexivity.
  - cbn. lia.
Defined.

Lemma sample_capillary_unpacks :
  exists d,
    HBVCapillary.unpack_parameters Stub.sigmoid Stub.bernoulli Sample.capillary tt
                                   Sample.raw16 1 1
    = Ok (d, tt).
Proof. eexists. vm_compute. reflexivity. Qed.

Lemma HBVCapillary_static_parameter_layout_witness :
  exists d m,
    HBVCapillary.unpack_parameters Stub.sigmoid Stub.bernoulli Sample.capillary tt
                                   Sample.raw16 1 1
    = Ok (d, tt) /\
    dict_get d "parFC" = Ok (T2 m).
Proof.
  destruct sample_capillary_unpacks as [d Hd].
  destruct (@HBVCapillary_static_parameter_layout Qc _ Stub.sigmoid unit Stub.bernoulli
              Sample.capillary tt tt Sample.raw16 1%nat 1%nat d 1%nat "parFC"%string
              Hd (init_all_parameters_NoDup _) eq_refl)
    as [tb [bnd [m [_ [_ [Hm _]]]]]].
  - cbn. lia.
  - reflexivity.
  - exists d, m. split; [exact Hd | exact Hm].
Defined.

Lemma HBVCapillary_routing_parameter_layout_witness :
  exists d traj,
    HBVCapillary.unpack_parameters Stub.sigmoid Stub.bernoulli Sample.capillary tt
                                   Sample.raw16 1 1
    = Ok (d, tt) /\
    dict_get d "rout_b" = Ok (T3 traj) /\ List.length traj = 1%nat.
Proof.
  destruct sample_capillary_unpacks as [d Hd].
  destruct (@HBVCapillary_routing_parameter_layout Qc _ Stub.sigmoid unit Stub.bernoulli
              Sample.capillary tt tt Sample.raw16 1%nat 1%nat d 15%nat "rout_b"%string
              Hd eq_refl (init_all_parameters_NoDup _) eq_refl)
    as [last [bnd [traj [_ [_ [Htraj [Hlen _]]]]]]].
  - cbn. lia.
  - exists d, traj. split; [exact Hd|]. split; [exact Htraj | exact Hlen].
Defined.

Lemma static_drop_runs : exists traj, StaticDrop.run = Ok (traj, tt).
Proof. eexists. vm_compute. reflexivity. Qed.

Lemma static_drop_capillary_unpacks :
  exists dict,
    HBVCapillary.unpack_parameters Sample.sigmoid StaticDrop.bernoulli
      StaticDrop.capillary tt StaticDrop.raw 2 1
    = Ok (dict, tt).
Proof. eexists. vm_compute. reflexivity. Qed.

Lemma static_drop_dynamic_runs :
  exists traj,
    HBV_adj.make_phy_parameters StaticDrop.counting StaticDrop.self 0%nat
      StaticDrop.phy_params2 StaticDrop.names2 ["parBETA"%string]
    = Ok (traj, 1%nat).
Proof. eexists. vm_compute. reflexivity. Qed.

Lemma make_phy_parameters_ignores_static_idx_witness :
  (exists traj v,
      HBV_adj.make_phy_parameters StaticDrop.bernoulli StaticDrop.self tt
        StaticDrop.phy_params ["parBETA"%string] ["parBETA"%string]
      = Ok (traj, tt) /\
      entry3 traj 0 0 0 = Some v /\ (v == 3 # 4)%Q) /\
  (exists traj v,
      HBV_adj.make_phy_parameters StaticDrop.counting StaticDrop.self 0%nat
        StaticDrop.phy_params2 StaticDrop.names2 ["parBETA"%string]
      = Ok (traj, 1%nat) /\
      entry3 traj 0 0 0 = Some v /\ (v == 1 # 4)%Q) /\
  (exists dict traj v,
      HBVCapillary.unpack_parameters Sample.sigmoid StaticDrop.bernoulli
        StaticDrop.capillary tt StaticDrop.raw 2 1
      = Ok (dict, tt) /\
      dict_get dict "parBETA" = Ok (T3 traj) /\
      entry3 traj 1 0 0 = Some v /\
      (v == change_param_range (1 # 4) (1, 6))%Q).
Proof.
  split; [|split].
  - destruct static_drop_runs as [traj Hrun]. unfold StaticDrop.run in Hrun.
    destruct (proj1 (make_phy_parameters_ignores_static_idx
                       Sample.sigmoid StaticDrop.bernoulli)
                _ _ _ _ _ _ _ 0%nat "parBETA"%string Hrun eq_refl eq_refl)
      as [last [rng_i [mask [Hlast [Hmask Hent]]]]].
    cbn in Hlast. injection Hlast as <-.
    cbn in Hmask. injection Hmask as <-.
    destruct (Hent 0%nat 0%nat (1 # 4)%Q (3 # 4)%Q 1%Q eq_refl eq_refl eq_refl)
      as [val [Hval [Hone _]]].
    exists traj, val. split; [exact Hrun|]. split; [exact Hval|].
    apply Hone. reflexivity.
  - destruct static_drop_dynamic_runs as [traj Hrun].
    destruct (proj1 (make_phy_parameters_ignores_static_idx
                       Sample.sigmoid StaticDrop.counting)
                _ _ _ _ _ _ _ 0%nat "parBETA"%string Hrun eq_refl eq_refl)
      as [last [rng_i [mask [Hlast [Hmask Hent]]]]].
    cbn in Hlast. injection Hlast as <-.
    cbn in Hmask. injection Hmask as <-.
    destruct (Hent 0%nat 0%nat (1 # 4)%Q (3 # 4)%Q 0%Q eq_refl eq_refl eq_refl)
      as [val [Hval [_ Hzero]]].
    exists traj, val. split; [exact Hrun|]. split; [exact Hval|].
    apply Hzero. reflexivity.
  - destruct static_drop_capillary_unpacks as [dict Hrun].
    destruct (proj1 (proj2 (make_phy_parameters_ignores_static_idx
                              Sample.sigmoid StaticDrop.bernoulli))
                _ _ _ _ _ _ _ 0%nat "parBETA"%string Hrun
                (init_all_parameters_NoDup _) eq_refl)
      as [phy [rng_i [sta [dyn [bnd [traj [Hphy [Hsta [Hdyn [Hbnd [Hget Hent]]]]]]]]]]].
    + cbn. lia.
    + reflexivity.
    + vm_compute in Hphy. injection Hphy as <-.
      vm_compute in Hsta. injection Hsta as <-.
      vm_compute in Hdyn. injection Hdyn as <-.
      vm_compute in Hbnd. injection Hbnd as <-.
      destruct (Hent 1%nat 0%nat 0%nat (3 # 4)%Q (1 # 4)%Q 1%Q eq_refl eq_refl eq_refl)
        as [val [Hval [Hone _]]].
      exists dict, traj, val. split; [exact Hrun|]. split; [exact Hget|].
      split; [exact Hval|].
      apply Hone. reflexivity.
Defined.

Lemma static_drop_none_runs :
  exists traj rng',
    HBV_adj.make_phy_parameters StaticDrop.counting StaticDrop.self 0%nat
      StaticDrop.phy_params2 StaticDrop.names2 []
    = Ok (traj, rng').
Proof. do 2 eexists. vm_compute. reflexivity. Qed.

Lemma make_phy_parameters_keeps_static_witness :
  (exists traj,
      HBV_adj.make_phy_parameters StaticDrop.counting StaticDrop.self 0%nat
        StaticDrop.phy_params2 StaticDrop.names2 ["parBETA"%string]
      = Ok (traj, 1%nat) /\
      entry3 traj 0 0 1 = Some (5 # 8)%Q) /\
  (exists traj,
      HBV_adj.make_phy_parameters StaticDrop.counting StaticDrop.self 0%nat
        StaticDrop.phy_params2 StaticDrop.names2 []
      = Ok (traj, 0%nat) /\
      entry3 traj 0 0 0 = Some (3 # 4)%Q).
Proof.
  split.
  - destruct static_drop_dynamic_runs as [traj Hrun].
    exists traj. split; [exact Hrun|].
    destruct (make_phy_parameters_keeps_static _ _ _ _ _ _ Hrun)
      as [last [Hlast [_ [_ Hstatic]]]].
    cbn in Hlast. injection Hlast as <-.
    apply (Hstatic 1%nat); [|cbn; lia].
    intros name Hname. cbn in Hname. injection Hname as <-. reflexivity.
  - destruct static_drop_none_runs as [traj [rng' Hrun]].
    destruct (make_phy_parameters_keeps_static _ _ _ _ _ _ Hrun)
      as [last [Hlast [_ [Hrng Hstatic]]]].
    rewrite (Hrng eq_refl) in Hrun.
    exists traj. split; [exact Hrun|].
    cbn in Hlast. injection Hlast as <-.
    apply (Hstatic 0%nat); [|cbn; lia].
    intros name Hname. cbn in Hname. injection Hname as <-. reflexivity.
Defined.

Lemma sample_adj_stops :
  HBV_adj.forward Stub.sigmoid Stub.pow Stub.bernoulli LinearDecay.matrixSolve
                  LinearDecay.batchJacobian LinearDecay.autograd_grad
                  Stub.UH_gamma3 Stub.UH_conv 5
                  (HBV_adj.init (Some Sample.adj_config)) tt
                  Sample.adj_x Sample.adj_raw14
  = Some (Raise (KeyError "parBETAET")).
Proof. vm_compute. reflexivity. Qed.

Lemma HBV_adj_needs_dynamic_BETAET_witness :
  HBV_function.forward Stub.pow
    (HBV_function.mk Sample.adj_x
       (HBV_adj.parameter_bounds (HBV_adj.init (Some Sample.adj_config))))
    [repeat (Q2Qc 0) 5] [repeat (Q2Qc (1 # 2)) 12] 0 false
  = Raise (KeyError "parBETAET") /\
  exists e,
    HBV_adj.forward Stub.sigmoid Stub.pow Stub.bernoulli LinearDecay.matrixSolve
                    LinearDecay.batchJacobian LinearDecay.autograd_grad
                    Stub.UH_gamma3 Stub.UH_conv 5
                    (HBV_adj.init (Some Sample.adj_config)) tt
                    Sample.adj_x Sample.adj_raw14
    = Some (Raise e) /\
    e = KeyError "parBETAET".
Proof.
  destruct (@HBV_adj_needs_dynamic_BETAET Qc _ Stub.sigmoid Stub.pow unit
              Stub.bernoulli LinearDecay.matrixSolve
              LinearDecay.batchJacobian LinearDecay.autograd_grad
              Stub.UH_gamma3 Stub.UH_conv (Some Sample.adj_config) 5%nat tt
              Sample.adj_x Sample.adj_raw14 eq_refl) as [Hf [e He]].
  split.
  - apply Hf. repeat constructor.
  - exists e. split; [exact He|].
    rewrite sample_adj_stops in He. injection He as <-. reflexivity.
Defined.

Lemma sample_adj_unpacks :
  exists d,
    HBV_adj.unpack_parameters Sample.sigmoid StaticDrop.self Sample.raw14 1 1 = Ok d.
Proof. eexists. vm_compute. reflexivity. Qed.

Lemma HBV_adj_parameter_layout_witness :
  exists d phy,
    HBV_adj.unpack_parameters Sample.sigmoid StaticDrop.self Sample.raw14 1 1 = Ok d /\
    dict_get d "phy_params" = Ok (T3 phy).
Proof.
  destruct sample_adj_unpacks as [d Hd].
  destruct (@HBV_adj_parameter_layout Q _ Sample.sigmoid StaticDrop.self
              Sample.raw14 1%nat 1%nat d Hd) as [phy [Hphy _]].
  - repeat constructor.
  - exists d, phy. split; [exact Hd | exact Hphy].
Defined.

Lemma identical_members_average_to_themselves_witness :
  exists w,
    entry3 (HBV_adj.mean_nmul 2 1 1 (HBV_adj.expand_nmul 2 [[[1 # 2]%Q]])) 0 0 0
    = Some w /\
    (w == 1 # 2)%Q.
Proof.
  apply (@identical_members_average_to_themselves 2 1 [[[1 # 2]%Q]] 0 0 0
           [[1 # 2]%Q] (1 # 2)%Q).
  - lia.
  - lia.
  - reflexivity.
  - reflexivity.
Defined.

